(** * Fit-check-AI: placement engine, interaction layer and compositor

    A shallow embedding of the virtual try-on application
    (React component [App], [services/geminiService.ts], [types.ts]).

    JavaScript numbers are IEEE 754 binary64 values; they are modelled by
    Rocq's primitive floats, whose operations are the same correctly
    rounded binary64 operations.  JavaScript strings are [string]s, arrays
    are [list]s (indexed with stdpp's lookup and insert), the
    [Map<string, HTMLImageElement>] held in [activeItemImagesRef] is a
    [gmap string _], and the [useState] cells of the component are the
    fields of one record that every handler maps to its successor. *)

From stdpp Require Import gmap strings list fin_maps.
From Stdlib Require Import Ascii Floats ZArith Lia.

Set Warnings "-inexact-float,-register-all".

(** ** JavaScript values used by the program *)

(** How a JavaScript function call ends: with a value, or with a thrown
    exception (the string names the error). *)
Inductive completion (A : Type) : Type :=
| Normal (a : A)
| Throw (e : string).
Arguments Normal {A} a.
Arguments Throw {A} e.

Module Math.

(** [Math.max(a, b)] on two numbers: NaN when either argument is NaN,
    otherwise the larger one, [+0] counting as larger than [-0]. *)
Definition max (a b : float) : float :=
  if (is_nan a || is_nan b)%bool then nan
  else if (a <? b)%float then b
  else if (b <? a)%float then a
  else match classify a with
       | NZero => b
       | _ => a
       end.

(** [Math.PI], the binary64 value nearest to pi. *)
Definition PI : float := 3.141592653589793%float.

(** [Math.sqrt] is the correctly rounded square root. *)
Definition sqrt (a : float) : float := PrimFloat.sqrt a.

End Math.

(** ** Data model ([types.ts]) *)

(** [Category] is a union of string literals; at run time a category is
    whatever string the classification service or the stored closet holds. *)
Definition Category := string.

Module ClothingItem.
Record t : Type := mk {
  id : string;
  imageUrl : string;
  category : Category;
  name : string;
  timestamp : float
}.
End ClothingItem.

(** [PlacedItem extends ClothingItem]: the same five properties followed by
    the four manual adjustments. *)
Module PlacedItem.
Record t : Type := mk {
  id : string;
  imageUrl : string;
  category : Category;
  name : string;
  timestamp : float;
  scale : float;
  rotation : float;
  offsetX : float;
  offsetY : float
}.

(** The [ClothingItem] properties of a placed item. *)
Definition garment (p : t) : ClothingItem.t :=
  ClothingItem.mk (id p) (imageUrl p) (category p) (name p) (timestamp p).
End PlacedItem.

Module VisionTaskResult.
Record landmark : Type := mk {
  x : float;
  y : float;
  z : float;
  visibility : float
}.
End VisionTaskResult.

(** ** Component state

    The [useState] cells that the handlers below read or write.  (The media
    stream, the camera error and the recorded chunks belong to camera
    acquisition and recording and are touched by none of these handlers.) *)
Record AppState : Type := mkApp {
  closet : list ClothingItem.t;
  queue : list ClothingItem.t;
  activeItems : list PlacedItem.t;
  isMenuOpen : bool;
  isProcessing : bool;
  isRecording : bool
}.

(** The object literal [{ ...item, scale: 1.0, rotation: 0, offsetX: 0,
    offsetY: 0 }] of [handleTryOn]. *)
Definition placeWithDefaults (item : ClothingItem.t) : PlacedItem.t :=
  PlacedItem.mk (ClothingItem.id item) (ClothingItem.imageUrl item)
    (ClothingItem.category item) (ClothingItem.name item)
    (ClothingItem.timestamp item)
    1.0%float 0%float 0%float 0%float.

(** [handleTryOn]: [setActiveItems(queue.map(...)); setIsMenuOpen(false)]. *)
Definition handleTryOn (st : AppState) : AppState :=
  let newPlacedItems := map placeWithDefaults (queue st) in
  mkApp (closet st) (queue st) newPlacedItems false
    (isProcessing st) (isRecording st).

(** [clearActive]: [setActiveItems([]); setQueue([])]. *)
Definition clearActive (st : AppState) : AppState :=
  mkApp (closet st) [] [] (isMenuOpen st) (isProcessing st) (isRecording st).

(** The object literal built by [updateItemTransform] for the last item. *)
Definition transformed (item : PlacedItem.t)
    (deltaScale deltaRot deltaX deltaY : float) : PlacedItem.t :=
  PlacedItem.mk (PlacedItem.id item) (PlacedItem.imageUrl item)
    (PlacedItem.category item) (PlacedItem.name item)
    (PlacedItem.timestamp item)
    (Math.max 0.1 (PlacedItem.scale item + deltaScale))%float
    (PlacedItem.rotation item + deltaRot)%float
    (PlacedItem.offsetX item + deltaX)%float
    (PlacedItem.offsetY item + deltaY)%float.

(** [updateItemTransform].  Reading a property of [activeItems[index]]
    would throw if the index were out of range. *)
Definition updateItemTransform (deltaScale deltaRot deltaX deltaY : float)
    (st : AppState) : completion AppState :=
  if (length (activeItems st) =? 0)%nat then Normal st
  else
    let index := (length (activeItems st) - 1)%nat in
    match activeItems st !! index with
    | None => Throw "TypeError"
    | Some item =>
        let updated :=
          <[index := transformed item deltaScale deltaRot deltaX deltaY]>
            (activeItems st) in
        Normal (mkApp (closet st) (queue st) updated (isMenuOpen st)
                  (isProcessing st) (isRecording st))
    end.

(** The remove button of a queued thumbnail:
    [setQueue(queue.filter(i => i.id !== item.id))]. *)
Definition removeFromQueue (itemId : string) (st : AppState) : AppState :=
  mkApp (closet st)
    (List.filter (fun i => negb (String.eqb (ClothingItem.id i) itemId)) (queue st))
    (activeItems st) (isMenuOpen st) (isProcessing st) (isRecording st).

(** Clicking a closet tile:
    [setQueue(prev => [...prev, item]); setIsMenuOpen(false)]. *)
Definition addFromCloset (item : ClothingItem.t) (st : AppState) : AppState :=
  mkApp (closet st) (queue st ++ [item]) (activeItems st) false
    (isProcessing st) (isRecording st).

(** The state updates at the end of [handleFileUpload]'s [onload] callback,
    once the new item has been built:
    [setCloset(prev => [newItem, ...prev]); setQueue(prev => [...prev, newItem]);
     setIsProcessing(false)]. *)
Definition uploadCompleted (newItem : ClothingItem.t) (st : AppState) : AppState :=
  mkApp (newItem :: closet st) (queue st ++ [newItem]) (activeItems st)
    (isMenuOpen st) false (isRecording st).

(** The "Clear All Data" button: [setCloset([])]. *)
Definition clearAllData (st : AppState) : AppState :=
  mkApp [] (queue st) (activeItems st) (isMenuOpen st) (isProcessing st)
    (isRecording st).

(** Every handler of the component that writes one of the cells above. *)
Inductive action : Type :=
| TryOn
| ClearActive
| UpdateItemTransform (deltaScale deltaRot deltaX deltaY : float)
| RemoveFromQueue (itemId : string)
| AddFromCloset (item : ClothingItem.t)
| BeginUpload
| UploadCompleted (newItem : ClothingItem.t)
| ClosetLoaded (saved : list ClothingItem.t)
| ClearAllData
| SetMenuOpen (open : bool)
| SetRecording (recording : bool).

Definition step (a : action) (st : AppState) : completion AppState :=
  match a with
  | TryOn => Normal (handleTryOn st)
  | ClearActive => Normal (clearActive st)
  | UpdateItemTransform dS dR dX dY => updateItemTransform dS dR dX dY st
  | RemoveFromQueue itemId => Normal (removeFromQueue itemId st)
  | AddFromCloset item => Normal (addFromCloset item st)
  | BeginUpload =>
      Normal (mkApp (closet st) (queue st) (activeItems st) (isMenuOpen st)
                true (isRecording st))
  | UploadCompleted newItem => Normal (uploadCompleted newItem st)
  | ClosetLoaded saved =>
      Normal (mkApp saved (queue st) (activeItems st) (isMenuOpen st)
                (isProcessing st) (isRecording st))
  | ClearAllData => Normal (clearAllData st)
  | SetMenuOpen open =>
      Normal (mkApp (closet st) (queue st) (activeItems st) open
                (isProcessing st) (isRecording st))
  | SetRecording recording =>
      Normal (mkApp (closet st) (queue st) (activeItems st) (isMenuOpen st)
                (isProcessing st) recording)
  end.

(** A run of handlers, stopping at the first exception. *)
Fixpoint run (acts : list action) (st : AppState) : completion AppState :=
  match acts with
  | [] => Normal st
  | a :: rest =>
      match step a st with
      | Normal st' => run rest st'
      | Throw e => Throw e
      end
  end.

(** ** The compositor ([renderLoop]) *)

Module HTMLImageElement.
(** What the render loop reads of an image element.  [complete] tells
    whether the browser has finished fetching and decoding [src]; until
    then the natural size is [0] by [0]. *)
Record t : Type := mk {
  src : string;
  complete : bool;
  naturalWidth : float;
  naturalHeight : float
}.

(** [const newImg = new Image(); newImg.src = url]: a fresh element whose
    load has just been started. *)
Definition loading (url : string) : t := mk url false 0%float 0%float.
End HTMLImageElement.

Module Canvas.
Record t : Type := mk {
  width : float;
  height : float
}.
End Canvas.

(** What one tick does to the outside world, in program order: calls on the
    2D context, and image elements created (each creation starts one load). *)
Inductive Effect : Type :=
| NewImage (itemId url : string)
| ctx_save
| ctx_restore
| ctx_translate (tx ty : float)
| ctx_scale (sx sy : float)
| ctx_rotate (angle : float)
| ctx_drawVideo (dw dh : float)
| ctx_drawImage (img : HTMLImageElement.t) (dx dy dw dh : float).

(** The body measurements computed once per tick from the landmarks. *)
Record BodyMetrics : Type := mkBody {
  shoulderWidth : float;
  angleRad : float;
  shoulderCenterX : float;
  shoulderCenterY : float;
  hipCenterX : float;
  hipCenterY : float
}.

Record Anchor : Type := mkAnchor {
  anchorX : float;
  anchorY : float;
  baseScale : float
}.

(** "Determine Anchor Point": the three [let]s and the category branches. *)
Definition determineAnchor (bm : BodyMetrics) (category : Category) : Anchor :=
  let anchorX := shoulderCenterX bm in
  let anchorY := shoulderCenterY bm in
  let baseScale := (shoulderWidth bm * 2.5)%float in
  if String.eqb category "BOTTOM" then
    mkAnchor (hipCenterX bm) (hipCenterY bm) (shoulderWidth bm * 1.8)%float
  else if String.eqb category "DRESS" then
    mkAnchor anchorX
      (shoulderCenterY bm + (hipCenterY bm - shoulderCenterY bm) * 0.2)%float
      baseScale
  else mkAnchor anchorX anchorY baseScale.

(** [screenX] and [screenY]. *)
Definition screenX (canvas : Canvas.t) (a : Anchor) (item : PlacedItem.t) : float :=
  ((1 - anchorX a) * Canvas.width canvas + PlacedItem.offsetX item)%float.

Definition screenY (canvas : Canvas.t) (a : Anchor) (item : PlacedItem.t) : float :=
  (anchorY a * Canvas.height canvas + PlacedItem.offsetY item)%float.

(** The image cache and the effects so far, threaded through [forEach]. *)
Record RenderState : Type := mkRender {
  images : gmap string HTMLImageElement.t;
  effects : list Effect
}.

(** The callback passed to [activeItems.forEach]. *)
Definition drawItem (canvas : Canvas.t) (bm : BodyMetrics)
    (rs : RenderState) (item : PlacedItem.t) : RenderState :=
  match images rs !! PlacedItem.id item with
  | None =>
      let newImg := HTMLImageElement.loading (PlacedItem.imageUrl item) in
      mkRender (<[PlacedItem.id item := newImg]> (images rs))
        (effects rs ++ [NewImage (PlacedItem.id item) (PlacedItem.imageUrl item)])
  | Some img =>
      let a := determineAnchor bm (PlacedItem.category item) in
      let finalWidth := (baseScale a * PlacedItem.scale item)%float in
      let aspectRatio :=
        (HTMLImageElement.naturalWidth img / HTMLImageElement.naturalHeight img)%float in
      let finalHeight := (finalWidth / aspectRatio)%float in
      mkRender (images rs)
        (effects rs ++
           [ctx_save;
            ctx_translate (screenX canvas a item) (screenY canvas a item);
            ctx_rotate (- angleRad bm + (PlacedItem.rotation item * Math.PI / 180))%float;
            ctx_drawImage img (- finalWidth / 2)%float (- finalHeight / 2)%float
              finalWidth finalHeight;
            ctx_restore])
  end.

(** [activeItems.forEach(item => ...)]. *)
Definition drawClothes (canvas : Canvas.t) (bm : BodyMetrics)
    (rs : RenderState) (items : list PlacedItem.t) : RenderState :=
  fold_left (drawItem canvas bm) items rs.

(** The browser finishing the fetch and decode of the image cached under
    [itemId]: the element becomes complete and gets its natural size. *)
Definition decoded (itemId : string) (w h : float)
    (imgs : gmap string HTMLImageElement.t) : gmap string HTMLImageElement.t :=
  alter (fun img => HTMLImageElement.mk (HTMLImageElement.src img) true w h)
    itemId imgs.

(** [handleFileUpload]'s preload:
    [const img = new Image(); img.src = base64;
     activeItemImagesRef.current.set(newItem.id, img)]. *)
Definition preload (newItem : ClothingItem.t)
    (imgs : gmap string HTMLImageElement.t) : gmap string HTMLImageElement.t :=
  <[ClothingItem.id newItem :=
      HTMLImageElement.loading (ClothingItem.imageUrl newItem)]> imgs.

(** What can happen to the image cache over the life of the component:
    a tick of the compositor that reaches [forEach], the browser completing
    a load, or an upload preloading its image. *)
Inductive cacheEvent : Type :=
| Tick (canvas : Canvas.t) (bm : BodyMetrics) (items : list PlacedItem.t)
| Decoded (itemId : string) (w h : float)
| Preloaded (newItem : ClothingItem.t).

Definition cacheStep (rs : RenderState) (ev : cacheEvent) : RenderState :=
  match ev with
  | Tick canvas bm items => drawClothes canvas bm rs items
  | Decoded itemId w h => mkRender (decoded itemId w h (images rs)) (effects rs)
  | Preloaded newItem => mkRender (preload newItem (images rs)) (effects rs)
  end.

Definition cacheRun (rs : RenderState) (evs : list cacheEvent) : RenderState :=
  fold_left cacheStep evs rs.

(** How many loads the compositor started for [itemId] in a list of effects. *)
Definition loadsStarted (itemId : string) (effs : list Effect) : nat :=
  length (List.filter (fun e => match e with
                           | NewImage i _ => String.eqb i itemId
                           | _ => false
                           end) effs).

(** Whether a list of effects contains a [drawImage] of a garment image
    that is not complete. *)
Definition drawsIncomplete (effs : list Effect) : bool :=
  existsb (fun e => match e with
                    | ctx_drawImage img _ _ _ _ => negb (HTMLImageElement.complete img)
                    | _ => false
                    end) effs.

(** What a canvas call puts on the canvas is decided by the browser, not
    by the repository.  The HTML standard's steps for [drawImage] return
    without drawing anything when one of the numeric arguments is infinite
    or NaN, and when the image is not fully decodable; otherwise the image
    is painted.  [paints] is that rule for one call. *)
Definition paints (e : Effect) : bool :=
  match e with
  | ctx_drawImage img dx dy dw dh =>
      HTMLImageElement.complete img
      && is_finite dx && is_finite dy && is_finite dw && is_finite dh
  | _ => false
  end.

(** The garment images a list of effects paints, in order. *)
Definition painted (effs : list Effect) : list HTMLImageElement.t :=
  flat_map (fun e => match e with
                     | ctx_drawImage img _ _ _ _ => if paints e then [img] else []
                     | _ => []
                     end) effs.

Module HTMLVideoElement.
Record t : Type := mk {
  readyState : nat;
  videoWidth : float;
  videoHeight : float
}.
End HTMLVideoElement.

Definition LANDMARK_LEFT_SHOULDER : nat := 11.
Definition LANDMARK_RIGHT_SHOULDER : nat := 12.
Definition LANDMARK_LEFT_HIP : nat := 23.
Definition LANDMARK_RIGHT_HIP : nat := 24.

Section RenderLoop.

(** [Math.pow] and [Math.atan2] are implementation-approximated functions
    of the host; the loop is defined for any such pair. *)
Variable Math_pow : float -> float -> float.
Variable Math_atan2 : float -> float -> float.

(** "Calculate Body Metrics".  A landmark array too short for one of the
    four indices makes the property access throw. *)
Definition bodyMetrics (canvas : Canvas.t)
    (landmarks : list VisionTaskResult.landmark) : completion BodyMetrics :=
  match landmarks !! LANDMARK_LEFT_SHOULDER, landmarks !! LANDMARK_RIGHT_SHOULDER,
        landmarks !! LANDMARK_LEFT_HIP, landmarks !! LANDMARK_RIGHT_HIP with
  | Some leftShoulder, Some rightShoulder, Some leftHip, Some rightHip =>
      let lsx := VisionTaskResult.x leftShoulder in
      let lsy := VisionTaskResult.y leftShoulder in
      let rsx := VisionTaskResult.x rightShoulder in
      let rsy := VisionTaskResult.y rightShoulder in
      Normal
        (mkBody
           (Math.sqrt
              (Math_pow ((lsx - rsx) * Canvas.width canvas) 2 +
               Math_pow ((lsy - rsy) * Canvas.height canvas) 2))%float
           (Math_atan2 (rsy - lsy) (rsx - lsx))%float
           ((lsx + rsx) / 2)%float
           ((lsy + rsy) / 2)%float
           ((VisionTaskResult.x leftHip + VisionTaskResult.x rightHip) / 2)%float
           ((VisionTaskResult.y leftHip + VisionTaskResult.y rightHip) / 2)%float)
  | _, _, _, _ => Throw "TypeError"
  end.

(** One call of [renderLoop].  [video], [canvas] and [poseLandmarker] are
    the current values of the refs and of the hook ([canvas] is [Some] when
    the element exists and yields a 2D context); [detection] is how
    [detectForVideo] ends on this frame.  The result is the canvas, the
    image cache and the effects; the next tick is requested whenever the
    call completes normally. *)
Definition renderLoop (video : option HTMLVideoElement.t)
    (canvas : option Canvas.t) (poseLandmarker : bool)
    (detection : completion (list (list VisionTaskResult.landmark)))
    (activeItems : list PlacedItem.t) (rs : RenderState)
  : completion (option Canvas.t * RenderState) :=
  match video, canvas, poseLandmarker with
  | Some video, Some canvas, true =>
      if ((2 <=? HTMLVideoElement.readyState video)%nat &&
          (0 <? HTMLVideoElement.videoWidth video)%float &&
          (0 <? HTMLVideoElement.videoHeight video)%float)%bool
      then
        let canvas :=
          if negb (Canvas.width canvas =? HTMLVideoElement.videoWidth video)%float
          then Canvas.mk (HTMLVideoElement.videoWidth video)
                 (HTMLVideoElement.videoHeight video)
          else canvas in
        let rs :=
          mkRender (images rs)
            (effects rs ++
               [ctx_save; ctx_translate (Canvas.width canvas) 0%float;
                ctx_scale (-1)%float 1%float;
                ctx_drawVideo (Canvas.width canvas) (Canvas.height canvas);
                ctx_restore]) in
        let result :=
          match detection with
          | Normal landmarks => Some landmarks
          | Throw _ => None
          end in
        match result with
        | Some (landmarks :: _) =>
            match bodyMetrics canvas landmarks with
            | Normal bm => Normal (Some canvas, drawClothes canvas bm rs activeItems)
            | Throw e => Throw e
            end
        | _ => Normal (Some canvas, rs)
        end
      else Normal (Some canvas, rs)
  | _, _, _ => Normal (canvas, rs)
  end.

End RenderLoop.

(** ** The classification service ([services/geminiService.ts]) *)

(** The values [JSON.parse] can produce, with [undefined] for the result of
    reading a property that is not there. *)
Inductive JSValue : Type :=
| JSUndefined
| JSNull
| JSBoolean (b : bool)
| JSNumber (n : float)
| JSString (s : string)
| JSArray (items : list JSValue)
| JSObject (props : list (string * JSValue)).

(** The own property [key] of a parsed object. *)
Fixpoint ownProperty (props : list (string * JSValue)) (key : string) : JSValue :=
  match props with
  | [] => JSUndefined
  | (k, v) :: rest => if String.eqb k key then v else ownProperty rest key
  end.

(** The property read [v.key], for a [key] that no built-in prototype
    defines (such as [category] and [name]): reading from [null] or
    [undefined] throws a [TypeError], a parsed object gives its own
    property, and every other value gives [undefined]. *)
Definition getProperty (v : JSValue) (key : string) : completion JSValue :=
  match v with
  | JSUndefined | JSNull => Throw "TypeError"
  | JSObject props => Normal (ownProperty props key)
  | _ => Normal JSUndefined
  end.

(** The interface [AnalysisResult].  TypeScript erases it: at run time a
    result is whatever value was returned. *)
Record AnalysisResult : Type := mkAnalysis {
  analysisCategory : Category;
  analysisName : string;
  analysisColor : string
}.

(** The object literal [{ category, name, color }]. *)
Definition analysisObject (r : AnalysisResult) : JSValue :=
  JSObject [("category", JSString (analysisCategory r));
            ("name", JSString (analysisName r));
            ("color", JSString (analysisColor r))].

Module DataUrl.

(** The character class [[a-zA-Z+]]. *)
Definition mimeChar (c : ascii) : bool :=
  let n := nat_of_ascii c in
  (Nat.leb 65 n && Nat.leb n 90) || (Nat.leb 97 n && Nat.leb n 122) || Nat.eqb n 43.

(** [s] without the prefix [p], when [s] starts with [p]. *)
Fixpoint dropPrefix (p s : string) : option string :=
  match p, s with
  | EmptyString, _ => Some s
  | String a p', String b s' => if Ascii.eqb a b then dropPrefix p' s' else None
  | String _ _, EmptyString => None
  end.

(** The longest prefix of [mimeChar]s, and what follows it. *)
Fixpoint spanMime (s : string) : string * string :=
  match s with
  | EmptyString => (EmptyString, EmptyString)
  | String c s' =>
      if mimeChar c then let '(run, rest) := spanMime s' in (String c run, rest)
      else (EmptyString, s)
  end.

(** The regular expression [/^data:(image\/[a-zA-Z+]+);base64,/]: the
    captured group and the text after the match.  The class excludes [;],
    so the greedy run is the only way to match. *)
Definition matchHeader (s : string) : option (string * string) :=
  match dropPrefix "data:image/" s with
  | None => None
  | Some afterSlash =>
      match spanMime afterSlash with
      | (EmptyString, _) => None
      | (subtype, afterType) =>
          match dropPrefix ";base64," afterType with
          | None => None
          | Some data => Some (("image/" ++ subtype)%string, data)
          end
      end
  end.

(** [mimeMatch ? mimeMatch[1] : 'image/jpeg']. *)
Definition mimeTypeOf (base64Image : string) : string :=
  match matchHeader base64Image with
  | Some (mime, _) => mime
  | None => "image/jpeg"
  end.

(** [base64Image.replace(/^data:image\/[a-zA-Z+]+;base64,/, '')]. *)
Definition base64DataOf (base64Image : string) : string :=
  match matchHeader base64Image with
  | Some (_, data) => data
  | None => base64Image
  end.

End DataUrl.

(** The response of [ai.models.generateContent]: its [text], if any. *)
Record GenerateContentResponse : Type := mkResponse {
  text : option string
}.

Section GeminiService.

(** The module constant [API_KEY], the remote call (by MIME type and
    base64 payload; it may reject) and [JSON.parse] (it may throw, and
    otherwise returns whatever value the text denotes). *)
Variable API_KEY : string.
Variable generateContent : string -> string -> completion GenerateContentResponse.
Variable JSON_parse : string -> completion JSValue.

(** The body of the [try] block.  The cast [as AnalysisResult] checks
    nothing: the parsed value is returned as it is. *)
Definition requestAnalysis (mimeType base64Data : string) : completion JSValue :=
  match generateContent mimeType base64Data with
  | Throw e => Throw e
  | Normal response =>
      match text response with
      | None => Throw "No response from Gemini"
      | Some EmptyString => Throw "No response from Gemini"
      | Some t => JSON_parse t
      end
  end.

(** [analyzeClothingImage]; the completion is that of the returned promise. *)
Definition analyzeClothingImage (base64Image : string) : completion JSValue :=
  if String.eqb API_KEY "" then
    Normal (analysisObject (mkAnalysis "TOP" "Unidentified Item" "Unknown"))
  else
    let mimeType := DataUrl.mimeTypeOf base64Image in
    let base64Data := DataUrl.base64DataOf base64Image in
    match requestAnalysis mimeType base64Data with
    | Normal result => Normal result
    | Throw _ => Normal (analysisObject (mkAnalysis "TOP" "New Item" "Mixed"))
    end.

End GeminiService.

(** ** Binary64 at the level of its specification

    The primitive operations are specified by [SpecFloat]'s functions on
    sign, mantissa and exponent; these two definitions name what the
    proofs below say about them. *)

(** The scale floor [0.1] as sign, mantissa and exponent. *)
Definition floor_sf : spec_float := S754_finite false 7205759403792794 (-56).

(** The factor [0.2] of the dress anchor as sign, mantissa and exponent. *)
Definition fifth_sf : spec_float := S754_finite false 7205759403792794 (-55).

(** The magnitude of a finite number as a multiple of [2^b], for an
    exponent [b] not above its own; [0] for the zeros. *)
Definition magnitude (b : Z) (r : spec_float) : Z :=
  match r with
  | S754_finite _ m e => (Zpos m * 2 ^ (e - b))%Z
  | _ => 0%Z
  end.

(** The value of a finite number as a signed multiple of [2^emin], the
    spacing of the subnormal numbers: an integer. *)
Definition ulps (r : spec_float) : Z :=
  match r with
  | S754_finite s m e => cond_Zopp s (Zpos m * 2 ^ (e - emin))%Z
  | _ => 0%Z
  end.

(** Zeros and finite numbers, as opposed to infinities and NaN. *)
Definition finite_sf (r : spec_float) : bool :=
  match r with
  | S754_zero _ | S754_finite _ _ _ => true
  | _ => false
  end.

(** [r] is a rounding of the exact value [v], given in multiples of
    [2^emin]: a valid number that, when finite, is not below any finite
    number that [v] is not below, nor above any that [v] is not above; and
    that is finite when [v] lies between two finite numbers. *)
Definition rounds (v : Z) (r : spec_float) : Prop :=
  valid_binary r = true /\
  r <> S754_nan /\
  (forall z, valid_binary z = true -> finite_sf z = true ->
     (ulps z <= v)%Z -> finite_sf r = true -> (ulps z <= ulps r)%Z) /\
  (forall z, valid_binary z = true -> finite_sf z = true ->
     (v <= ulps z)%Z -> finite_sf r = true -> (ulps r <= ulps z)%Z) /\
  (forall z1 z2, valid_binary z1 = true -> finite_sf z1 = true ->
     valid_binary z2 = true -> finite_sf z2 = true ->
     (ulps z1 <= v <= ulps z2)%Z -> finite_sf r = true).

(** [r], when finite, is at least as close to the exact value [v] as any
    finite number on the other side of [v]. *)
Definition nearest (v : Z) (r : spec_float) : Prop :=
  (forall z, valid_binary z = true -> finite_sf z = true -> finite_sf r = true ->
     (ulps z <= v)%Z -> (v < ulps r)%Z -> (2 * (ulps r - v) <= ulps r - ulps z)%Z) /\
  (forall z, valid_binary z = true -> finite_sf z = true -> finite_sf r = true ->
     (v <= ulps z)%Z -> (ulps r < v)%Z -> (2 * (v - ulps r) <= ulps z - ulps r)%Z).

(** What the round and sticky bits of a shift record say about the bits
    shifted out of [M] after [k] shifts: twice the remainder is [2^k] (if
    the round bit is set) plus a sticky part below [2^k], which is zero
    exactly when the sticky bit is clear. *)
Definition shifted_out (M k : Z) (r : shr_record) : Prop :=
  shr_m r = (M / 2 ^ k)%Z /\
  exists t : Z, (2 * (M mod 2 ^ k) = (if shr_r r then 2 ^ k else 0) + t)%Z /\
                (0 <= t < 2 ^ k)%Z /\ (shr_s r = false <-> t = 0%Z).

(** [r] is a number (not NaN) whose sign bit is [sx]. *)
Definition signed_as (sx : bool) (r : spec_float) : Prop :=
  match r with
  | S754_zero s | S754_finite s _ _ | S754_infinity s => s = sx
  | S754_nan => False
  end.

(** A positive finite number (normal or subnormal). *)
Definition finite_positive (x : float) : Prop :=
  exists m e, Prim2SF x = S754_finite false m e.

(** The [deltaScale] arguments of the [updateItemTransform] calls of a run. *)
Definition deltaScales (acts : list action) : list float :=
  flat_map (fun a => match a with
                     | UpdateItemTransform deltaScale _ _ _ => [deltaScale]
                     | _ => []
                     end) acts.

(** Every placed item's scale satisfies [I]. *)
Definition scales_ok (I : float -> Prop) (st : AppState) : Prop :=
  Forall (fun p => I (PlacedItem.scale p)) (activeItems st).

(** One [updateItemTransform(-1, 0, 0, 0)] applied to an item. *)
Definition shrinkByOne (p : PlacedItem.t) : PlacedItem.t :=
  transformed p (-1)%float 0%float 0%float 0%float.

(** [1] while no image element is cached under [itemId], [0] afterwards. *)
Definition absent (itemId : string) (rs : RenderState) : nat :=
  match images rs !! itemId with
  | Some _ => 0
  | None => 1
  end.

(** [x] lies strictly between [a] and [b], whichever of the two is smaller. *)
Definition strictlyBetween (a b x : float) : bool :=
  ((a <? x)%float && (x <? b)%float) || ((b <? x)%float && (x <? a)%float).

(** [x] lies between [a] and [b], ends included, whichever of the two is
    smaller. *)
Definition between (a b x : float) : bool :=
  ((a <=? x)%float && (x <=? b)%float) || ((b <=? x)%float && (x <=? a)%float).

(** ** Sample data *)

Module Sample.

Definition shirt : ClothingItem.t :=
  ClothingItem.mk "g1" "data:image/png;base64,c2hpcnQ=" "TOP" "Blue Shirt" 1000%float.

Definition jeans : ClothingItem.t :=
  ClothingItem.mk "g2" "data:image/png;base64,amVhbnM=" "BOTTOM" "Black Jeans" 2000%float.

Definition dress : ClothingItem.t :=
  ClothingItem.mk "g3" "data:image/png;base64,ZHJlc3M=" "DRESS" "Red Dress" 3000%float.

(** The state of the component when it mounts. *)
Definition initial : AppState := mkApp [] [] [] false false false.

(** Two garments uploaded and waiting in the queue. *)
Definition staged : AppState :=
  mkApp [jeans; shirt] [shirt; jeans] [] true false false.

(** Only the shirt is queued. *)
Definition oneQueued : AppState :=
  mkApp [shirt] [shirt] [] false false false.

(** A frame in which the shoulder line and the hip line are level with each
    other: all four landmarks at height 0.5. *)
Definition levelBody : BodyMetrics :=
  mkBody 200%float 0%float 0.5%float 0.5%float 0.5%float 0.5%float.

(** A standing subject: shoulders at height 0.3, hips at 0.6. *)
Definition standingBody : BodyMetrics :=
  mkBody 200%float 0%float 0.5%float 0.3%float 0.5%float 0.6%float.

(** A subject standing left of centre in the camera image. *)
Definition leftBody : BodyMetrics :=
  mkBody 200%float 0%float 0.3%float 0.4%float 0.3%float 0.7%float.

Definition canvas1000 : Canvas.t := Canvas.mk 1000%float 500%float.

(** The shirt's image, fetched and decoded (400 by 600). *)
Definition shirtImage : HTMLImageElement.t :=
  HTMLImageElement.mk "data:image/png;base64,c2hpcnQ=" true 400%float 600%float.

(** The shirt's image element just after [new Image()] and [src = ...]:
    cached, but not yet decoded. *)
Definition shirtLoading : HTMLImageElement.t :=
  HTMLImageElement.loading "data:image/png;base64,c2hpcnQ=".

Definition cacheReady : RenderState := mkRender {[ "g1" := shirtImage ]} [].

Definition cacheLoading : RenderState := mkRender {[ "g1" := shirtLoading ]} [].

Definition cacheEmpty : RenderState := mkRender ∅ [].

(** A service that is unreachable, and a parser that rejects its input. *)
Definition unreachable (mimeType base64Data : string)
  : completion GenerateContentResponse := Throw "NetworkError".

Definition rejectingParser (t : string) : completion JSValue :=
  Throw "SyntaxError".

(** Services that answer without text, with an empty text, and with a
    fixed text. *)
Definition silent (mimeType base64Data : string)
  : completion GenerateContentResponse := Normal (mkResponse None).

Definition blank (mimeType base64Data : string)
  : completion GenerateContentResponse := Normal (mkResponse (Some "")).

Definition answering (t : string) (mimeType base64Data : string)
  : completion GenerateContentResponse := Normal (mkResponse (Some t)).

(** A JSON string literal: [s] between double quotes (character 34). *)
Definition quoted (s : string) : string :=
  (String "034"%char s ++ String "034"%char EmptyString)%string.

(** The JSON text of an analysis of a red gown. *)
Definition gownText : string :=
  ("{" ++ quoted "category" ++ ":" ++ quoted "DRESS" ++ ","
       ++ quoted "name" ++ ":" ++ quoted "Red Gown" ++ ","
       ++ quoted "color" ++ ":" ++ quoted "Red" ++ "}")%string.

(** [JSON.parse] on the three texts used below: the literal [null], the
    gown's object and a number; any other text is rejected. *)
Definition parser (t : string) : completion JSValue :=
  if String.eqb t "null" then Normal JSNull
  else if String.eqb t gownText then
    Normal (JSObject [("category", JSString "DRESS"); ("name", JSString "Red Gown");
                      ("color", JSString "Red")])
  else if String.eqb t "7" then Normal (JSNumber 7%float)
  else Throw "SyntaxError".

(** Fifty presses of "-" as if each took a whole unit off the scale. *)
Definition fiftyShrinks : list action :=
  repeat (UpdateItemTransform (-1)%float 0%float 0%float 0%float) 50.

End Sample.

(** ** Upload ([handleFileUpload]) *)

(** How a run of the [reader.onload] callback ends. *)
Inductive uploadOutcome : Type :=
| Landed (st : AppState) (imgs : gmap string HTMLImageElement.t)
| Crashed (e : string)
| Untyped (category name : JSValue).

Section Upload.

Variable API_KEY : string.
Variable generateContent : string -> string -> completion GenerateContentResponse.
Variable JSON_parse : string -> completion JSValue.

(** The [reader.onload] callback of [handleFileUpload], run on the state
    current when the file has been read: [base64] is the data URL the
    reader produced, [uuid] the value of [crypto.randomUUID()] and [now]
    that of [Date.now()].  It awaits the analysis, builds the new item
    (reading [analysis.category] and [analysis.name], either of which
    throws when the analysis is [null]), updates closet and queue,
    preloads the image and ends the processing state.  An exception
    leaves the callback before any update: [Crashed].  When the two
    values read are not both strings the callback still completes, with
    an item that [ClothingItem.t] cannot hold: [Untyped] records the two
    values and the model follows that item no further. *)
Definition onFileLoaded (uuid : string) (now : float) (base64 : string)
    (st : AppState) (imgs : gmap string HTMLImageElement.t) : uploadOutcome :=
  match analyzeClothingImage API_KEY generateContent JSON_parse base64 with
  | Throw e => Crashed e
  | Normal analysis =>
      match getProperty analysis "category" with
      | Throw e => Crashed e
      | Normal category =>
          match getProperty analysis "name" with
          | Throw e => Crashed e
          | Normal name =>
              match category, name with
              | JSString category, JSString name =>
                  let newItem := ClothingItem.mk uuid base64 category name now in
                  Landed (uploadCompleted newItem st) (preload newItem imgs)
              | _, _ => Untyped category name
              end
          end
      end
  end.

(** [handleFileUpload] up to the start of the read: without a file it
    returns at once, otherwise it sets [isProcessing]. *)
Definition handleFileUpload (file : bool) (st : AppState) : AppState :=
  if negb file then st
  else mkApp (closet st) (queue st) (activeItems st) (isMenuOpen st) true
         (isRecording st).

End Upload.

(** ** Recording ([toggleRecording]) *)

Module Blob.
Record t : Type := mk {
  size : nat;
  bytes : string
}.
End Blob.

(** A [MediaRecorder] created by [toggleRecording].  Its [onstop] handler
    is a closure created in that call: the [recordedChunks] it mentions is
    the constant of the render in which the button was clicked. *)
Record MediaRecorder : Type := mkRecorder {
  capturedChunks : list Blob.t
}.

Inductive RecorderCall : Type :=
| recorder_start (r : nat)
| recorder_stop (r : nat).

(** The cells and refs of recording: [isRecording], [recordedChunks],
    [mediaRecorderRef.current] (a recorder, by its creation index), every
    recorder created so far, the [start()] and [stop()] calls the component
    made, and the chunk lists offered for download. *)
Record CaptureState : Type := mkCapture {
  capturing : bool;
  recordedChunks : list Blob.t;
  mediaRecorderRef : option nat;
  recorders : list MediaRecorder;
  recorderCalls : list RecorderCall;
  downloads : list (list Blob.t)
}.

(** [toggleRecording]; [canvasRef] tells whether [canvasRef.current] is set. *)
Definition toggleRecording (canvasRef : bool) (cs : CaptureState) : CaptureState :=
  if capturing cs then
    mkCapture false (recordedChunks cs) (mediaRecorderRef cs) (recorders cs)
      (match mediaRecorderRef cs with
       | Some r => recorderCalls cs ++ [recorder_stop r]
       | None => recorderCalls cs
       end)
      (downloads cs)
  else if negb canvasRef then cs
  else
    let r := length (recorders cs) in
    mkCapture true [] (mediaRecorderRef cs)
      (recorders cs ++ [mkRecorder (recordedChunks cs)])
      (recorderCalls cs ++ [recorder_start r])
      (downloads cs).

(** [recorder.ondataavailable]:
    [if (e.data.size > 0) setRecordedChunks(prev => [...prev, e.data])]. *)
Definition ondataavailable (data : Blob.t) (cs : CaptureState) : CaptureState :=
  if (0 <? Blob.size data)%nat then
    mkCapture (capturing cs) (recordedChunks cs ++ [data]) (mediaRecorderRef cs)
      (recorders cs) (recorderCalls cs) (downloads cs)
  else cs.

(** [recorder.onstop] of recorder [r]: a blob of the chunks its closure
    holds is offered for download, then [setRecordedChunks([])]. *)
Definition onstop (r : nat) (cs : CaptureState) : CaptureState :=
  match recorders cs !! r with
  | None => cs
  | Some recorder =>
      mkCapture (capturing cs) [] (mediaRecorderRef cs) (recorders cs)
        (recorderCalls cs) (downloads cs ++ [capturedChunks recorder])
  end.

(** What happens to recording: a click on the record button, or an event
    that the browser delivers to a recorder. *)
Inductive captureEvent : Type :=
| ClickRecord (canvasRef : bool)
| DataAvailable (data : Blob.t)
| RecorderStopped (r : nat).

Definition captureStep (cs : CaptureState) (ev : captureEvent) : CaptureState :=
  match ev with
  | ClickRecord canvasRef => toggleRecording canvasRef cs
  | DataAvailable data => ondataavailable data cs
  | RecorderStopped r => onstop r cs
  end.

Definition captureRun (cs : CaptureState) (evs : list captureEvent) : CaptureState :=
  fold_left captureStep evs cs.

(** The recording state when the component mounts. *)
Definition captureMount : CaptureState := mkCapture false [] None [] [] [].

(** Whether a call is a [stop()]. *)
Definition isStop (c : RecorderCall) : bool :=
  match c with
  | recorder_stop _ => true
  | recorder_start _ => false
  end.

(** ** Reading the effects of a tick *)

(** The depth of the context's state stack after [effs], starting at
    [depth]; [None] when a [restore] has no matching [save] or a transform
    is applied outside every [save]/[restore] pair. *)
Fixpoint bracketDepth (depth : nat) (effs : list Effect) : option nat :=
  match effs with
  | [] => Some depth
  | ctx_save :: rest => bracketDepth (S depth) rest
  | ctx_restore :: rest =>
      match depth with
      | O => None
      | S d => bracketDepth d rest
      end
  | ctx_translate _ _ :: rest | ctx_scale _ _ :: rest | ctx_rotate _ :: rest =>
      match depth with
      | O => None
      | S _ => bracketDepth depth rest
      end
  | _ :: rest => bracketDepth depth rest
  end.

(** The garment images passed to [drawImage], in call order. *)
Fixpoint drawnImages (effs : list Effect) : list HTMLImageElement.t :=
  match effs with
  | [] => []
  | ctx_drawImage img _ _ _ _ :: rest => img :: drawnImages rest
  | _ :: rest => drawnImages rest
  end.

(** The calls that draw the mirrored camera frame. *)
Definition mirroredBackground (canvas : Canvas.t) : list Effect :=
  [ctx_save; ctx_translate (Canvas.width canvas) 0%float;
   ctx_scale (-1)%float 1%float;
   ctx_drawVideo (Canvas.width canvas) (Canvas.height canvas);
   ctx_restore].

(** The readiness test of [renderLoop] on the video element. *)
Definition videoReady (video : HTMLVideoElement.t) : bool :=
  (2 <=? HTMLVideoElement.readyState video)%nat &&
  (0 <? HTMLVideoElement.videoWidth video)%float &&
  (0 <? HTMLVideoElement.videoHeight video)%float.

(** The canvas after the size check of [renderLoop]: resized to the video
    when the widths differ. *)
Definition syncCanvas (video : HTMLVideoElement.t) (canvas : Canvas.t) : Canvas.t :=
  if negb (Canvas.width canvas =? HTMLVideoElement.videoWidth video)%float
  then Canvas.mk (HTMLVideoElement.videoWidth video)
         (HTMLVideoElement.videoHeight video)
  else canvas.

(** Every character of [s] is in the class [[a-zA-Z+]]. *)
Fixpoint allMime (s : string) : bool :=
  match s with
  | EmptyString => true
  | String c s' => DataUrl.mimeChar c && allMime s'
  end.

(** Whether an action is one of the three that write the closet. *)
Definition writesCloset (a : action) : bool :=
  match a with
  | UploadCompleted _ | ClosetLoaded _ | ClearAllData => true
  | _ => false
  end.

(** Whether an action is one of the three that write the placement list. *)
Definition writesPlacements (a : action) : bool :=
  match a with
  | TryOn | ClearActive | UpdateItemTransform _ _ _ _ => true
  | _ => false
  end.

(** Whether an action is a call of [updateItemTransform]. *)
Definition isAdjustment (a : action) : bool :=
  match a with
  | UpdateItemTransform _ _ _ _ => true
  | _ => false
  end.

(** ** More sample data *)

Module Scenario.

(** Stand-ins for the host's [Math.pow] and [Math.atan2] in the examples
    below, none of which depends on the numbers these return: [pow]
    squares its first argument (the loop always passes the exponent 2),
    and [atan2] returns 0 for every direction, which is not the host's
    value (for the poses below the host returns pi). *)
Definition pow (x n : float) : float := (x * x)%float.
Definition atan2 (dy dx : float) : float := 0%float.

(** A camera frame with data, 1280 by 720. *)
Definition readyVideo : HTMLVideoElement.t :=
  HTMLVideoElement.mk 4 1280%float 720%float.

(** The video element before any frame has arrived. *)
Definition emptyVideo : HTMLVideoElement.t :=
  HTMLVideoElement.mk 0 0%float 0%float.

(** A canvas as wide as the video but still 150 high. *)
Definition wideCanvas : Canvas.t := Canvas.mk 1280%float 150%float.

Definition point (px py : float) : VisionTaskResult.landmark :=
  VisionTaskResult.mk px py 0%float 1%float.

(** A full result of 33 landmarks: shoulders at height 0.3, hips at 0.6. *)
Definition fullPose : list VisionTaskResult.landmark :=
  repeat (point 0.5 0.1) 11
  ++ [point 0.6 0.3; point 0.4 0.3]
  ++ repeat (point 0.5 0.45) 10
  ++ [point 0.55 0.6; point 0.45 0.6]
  ++ repeat (point 0.5 0.9) 8.

(** A truncated result: only the first 13 landmarks. *)
Definition shortPose : list VisionTaskResult.landmark := take 13 fullPose.

Definition placedShirt : PlacedItem.t := placeWithDefaults Sample.shirt.
Definition placedJeans : PlacedItem.t := placeWithDefaults Sample.jeans.

Definition chunkA : Blob.t := Blob.mk 2048 "webm-a".
Definition chunkB : Blob.t := Blob.mk 1024 "webm-b".
Definition emptyChunk : Blob.t := Blob.mk 0 "".

End Scenario.

(** * Properties *)

(** ** Placement engine: commit and clear *)

Lemma placeWithDefaults_garment (item : ClothingItem.t) :
  PlacedItem.garment (placeWithDefaults item) = item.
Proof. destruct item; reflexivity. Qed.

Lemma map_garment_placeWithDefaults (q : list ClothingItem.t) :
  map PlacedItem.garment (map placeWithDefaults q) = q.
Proof.
  induction q as [|item q IH]; simpl.
  - reflexivity.
  - rewrite placeWithDefaults_garment, IH. reflexivity.
Qed.

Lemma lookup_map_placeWithDefaults (q : list ClothingItem.t) (i : nat) :
  map placeWithDefaults q !! i = placeWithDefaults <$> (q !! i).
Proof.
  revert i. induction q as [|item q IH]; intros [|i]; simpl; try reflexivity.
  apply IH.
Qed.

(** C3. Committing a staging queue of N garments yields exactly N placed
    items, the i-th one built from the i-th queued garment: it carries that
    garment's record fields and the neutral transform (scale 1.0, rotation
    0, offsets 0, 0).  The result is the same whatever the previous
    placement list was: the new list replaces it, nothing is merged. *)
Theorem handleTryOn_commits_queue (st : AppState) (previous : list PlacedItem.t) :
  length (activeItems (handleTryOn st)) = length (queue st) /\
  map PlacedItem.garment (activeItems (handleTryOn st)) = queue st /\
  (forall i : nat,
     activeItems (handleTryOn st) !! i = placeWithDefaults <$> (queue st !! i)) /\
  Forall (fun p => PlacedItem.scale p = 1.0%float /\
                   PlacedItem.rotation p = 0%float /\
                   PlacedItem.offsetX p = 0%float /\
                   PlacedItem.offsetY p = 0%float)
         (activeItems (handleTryOn st)) /\
  activeItems
    (handleTryOn (mkApp (closet st) (queue st) previous (isMenuOpen st)
                    (isProcessing st) (isRecording st)))
  = activeItems (handleTryOn st).
Proof.
  unfold handleTryOn; simpl. repeat split.
  - apply length_map.
  - apply map_garment_placeWithDefaults.
  - apply lookup_map_placeWithDefaults.
  - induction (queue st) as [|item q IH]; simpl; constructor; auto.
Qed.

(** C4. Clearing the active try-on empties the placement list and the
    staging queue in the same transition, whatever they held before, and
    leaves the other cells alone. *)
Theorem clearActive_empties_both (st : AppState) :
  activeItems (clearActive st) = [] /\
  queue (clearActive st) = [] /\
  closet (clearActive st) = closet st /\
  isMenuOpen (clearActive st) = isMenuOpen st /\
  isProcessing (clearActive st) = isProcessing st /\
  isRecording (clearActive st) = isRecording st.
Proof. repeat split. Qed.

(** Queue [shirt; jeans] with both placed: after clearing, both lists are
    empty. *)
Lemma clearActive_example :
  clearActive (handleTryOn Sample.staged) =
    mkApp [Sample.jeans; Sample.shirt] [] [] false false false.
Proof. reflexivity. Qed.

(** ** Binary64 arithmetic

    Facts about rounding, addition and comparison of binary64 numbers,
    derived from the specification of the primitive operations. *)

Section Binary64.

Local Open Scope Z_scope.

Lemma digits2_pos_log2 (p : positive) :
  Zpos (digits2_pos p) = Z.succ (Z.log2 (Zpos p)).
Proof.
  assert (Hs : forall q, digits2_pos q = Pos.size q).
  { induction q; simpl; congruence. }
  rewrite Hs. destruct p; simpl; try reflexivity; rewrite Pos2Z.inj_succ; reflexivity.
Qed.

Lemma Zdigits2_pos (m : Z) : 0 < m -> Zdigits2 m = Z.succ (Z.log2 m).
Proof. destruct m; try lia. intros _. apply digits2_pos_log2. Qed.

Lemma shr_m_shr_record_of_loc (m : Z) (l : location) :
  shr_m (shr_record_of_loc m l) = m.
Proof. destruct l as [|[ | | ]]; reflexivity. Qed.

Lemma shr_1_div2 (r : shr_record) :
  0 <= shr_m r -> shr_m (shr_1 r) = shr_m r / 2.
Proof.
  destruct r as [m b s]; simpl. intros Hm.
  destruct m as [|[p|p|]|p]; simpl; try lia; try reflexivity.
  - rewrite Pos2Z.inj_xI. apply Z.div_unique with (r := 1); lia.
  - rewrite Pos2Z.inj_xO. apply Z.div_unique with (r := 0); lia.
Qed.

Lemma iter_pos_shr_1 (p : positive) (r : shr_record) :
  0 <= shr_m r ->
  shr_m (@SpecFloat.iter_pos shr_record shr_1 p r) = shr_m r / 2 ^ Zpos p.
Proof.
  assert (Hpow : forall q : positive, 0 < 2 ^ Zpos q) by (intros; apply Z.pow_pos_nonneg; lia).
  revert r. induction p as [p IH|p IH|]; intros r Hr; cbn [SpecFloat.iter_pos].
  - assert (H1 : 0 <= shr_m (shr_1 r)).
    { rewrite shr_1_div2 by exact Hr. apply Z.div_pos; lia. }
    assert (H2 : 0 <= shr_m (@SpecFloat.iter_pos shr_record shr_1 p (shr_1 r))).
    { rewrite IH by exact H1. apply Z.div_pos; [exact H1|apply Hpow]. }
    rewrite IH by exact H2. rewrite IH by exact H1. rewrite shr_1_div2 by exact Hr.
    rewrite !Z.div_div by (try apply Hpow; lia).
    f_equal.
    replace (Z.pos p~1) with (1 + Z.pos p + Z.pos p) by lia.
    rewrite !Z.pow_add_r by lia. lia.
  - assert (H2 : 0 <= shr_m (@SpecFloat.iter_pos shr_record shr_1 p r)).
    { rewrite IH by exact Hr. apply Z.div_pos; [exact Hr|apply Hpow]. }
    rewrite IH by exact H2. rewrite IH by exact Hr.
    rewrite !Z.div_div by (try apply Hpow; lia).
    f_equal.
    replace (Z.pos p~0) with (Z.pos p + Z.pos p) by lia.
    rewrite !Z.pow_add_r by lia. lia.
  - rewrite shr_1_div2 by exact Hr. reflexivity.
Qed.

Lemma shr_fexp_spec (m e : Z) (l : location) :
  0 <= m ->
  shr_m (fst (shr_fexp prec emax m e l)) =
    m / 2 ^ Z.max 0 (fexp prec emax (Zdigits2 m + e) - e) /\
  snd (shr_fexp prec emax m e l) = e + Z.max 0 (fexp prec emax (Zdigits2 m + e) - e).
Proof.
  intros Hm. unfold shr_fexp, shr.
  destruct (fexp prec emax (Zdigits2 m + e) - e) as [|p|p] eqn:Hn; simpl.
  - rewrite shr_m_shr_record_of_loc, Z.div_1_r. split; [reflexivity|lia].
  - rewrite iter_pos_shr_1 by (rewrite shr_m_shr_record_of_loc; exact Hm).
    rewrite shr_m_shr_record_of_loc. split; reflexivity.
  - rewrite shr_m_shr_record_of_loc, Z.div_1_r. split; [reflexivity|lia].
Qed.

Lemma round_nearest_even_bounds (m : Z) (l : location) :
  m <= round_nearest_even m l <= m + 1.
Proof.
  destruct l as [|[ | | ]]; simpl; try lia.
  destruct (Z.even m); lia.
Qed.

Lemma pos_iter_xO (m d : positive) :
  Zpos (Pos.iter xO m d) = Zpos m * 2 ^ Zpos d.
Proof.
  induction d as [|d IH] using Pos.peano_ind.
  - simpl. lia.
  - rewrite Pos.iter_succ, Pos2Z.inj_xO, IH, Pos2Z.inj_succ, Z.pow_succ_r by lia. lia.
Qed.

Lemma shl_align_spec (mx : positive) (ex ex' : Z) :
  let '(mz, ez) := shl_align mx ex ex' in
  ez = Z.min ex ex' /\ Zpos mz = Zpos mx * 2 ^ (ex - ez).
Proof.
  unfold shl_align. destruct (ex' - ex) as [|d|d] eqn:Hd.
  - split; [lia|]. rewrite Z.sub_diag. simpl. lia.
  - split; [lia|]. rewrite Z.sub_diag. simpl. lia.
  - split; [lia|]. rewrite pos_iter_xO. f_equal. f_equal. lia.
Qed.

Lemma log2_shift (a b : Z) : 0 < a -> 0 <= b -> Z.log2 (a * 2 ^ b) = Z.log2 a + b.
Proof. intros. rewrite Z.log2_mul_pow2 by lia. lia. Qed.

Lemma binary_round_aux_spec (sx : bool) (mx ex : Z) (lx : location) :
  0 <= mx ->
  let e1 := ex + Z.max 0 (fexp prec emax (Zdigits2 mx + ex) - ex) in
  exists m1 : Z,
    mx / 2 ^ (e1 - ex) <= m1 <= mx / 2 ^ (e1 - ex) + 1 /\
    signed_as sx (binary_round_aux prec emax sx mx ex lx) /\
    (binary_round_aux prec emax sx mx ex lx = S754_infinity sx ->
     emax - prec < e1 + Z.max 0 (fexp prec emax (Zdigits2 m1 + e1) - e1)).
Proof.
  intros Hmx e1. unfold binary_round_aux.
  destruct (shr_fexp_spec mx ex lx Hmx) as [Hm1 He1].
  destruct (shr_fexp prec emax mx ex lx) as [mrs' e'] eqn:H1. simpl in Hm1, He1.
  set (m1 := round_nearest_even (shr_m mrs') (loc_of_shr_record mrs')).
  pose proof (round_nearest_even_bounds (shr_m mrs') (loc_of_shr_record mrs')) as Hr.
  fold m1 in Hr.
  assert (Hdiv : 0 <= shr_m mrs').
  { rewrite Hm1. apply Z.div_pos; [exact Hmx|]. apply Z.pow_pos_nonneg; lia. }
  assert (Hm1pos : 0 <= m1) by lia.
  destruct (shr_fexp_spec m1 e' loc_Exact Hm1pos) as [Hm2 He2].
  destruct (shr_fexp prec emax m1 e' loc_Exact) as [mrs'' e''] eqn:H2. simpl in Hm2, He2.
  exists m1. subst e1.
  replace (ex + Z.max 0 (fexp prec emax (Zdigits2 mx + ex) - ex) - ex)
    with (Z.max 0 (fexp prec emax (Zdigits2 mx + ex) - ex)) by lia.
  rewrite <- Hm1, <- He1. split; [exact Hr|].
  assert (Hm2pos : 0 <= shr_m mrs'').
  { rewrite Hm2. apply Z.div_pos; [exact Hm1pos|]. apply Z.pow_pos_nonneg; lia. }
  destruct (shr_m mrs'') as [|p|p]; try lia.
  - split; [reflexivity|discriminate].
  - destruct (e'' <=? emax - prec) eqn:Hle.
    + split; [reflexivity|discriminate].
    + split; [reflexivity|]. intros _. apply Z.leb_gt in Hle. lia.
Qed.

Lemma fexp_le (a b : Z) : a <= b -> fexp prec emax a <= fexp prec emax b.
Proof. unfold fexp. lia. Qed.

(** Rounding a positive integer multiple of [2^e0] that lies below a
    representable number does not overflow. *)
Lemma binary_round_below (sx : bool) (M : positive) (e0 : Z) (ms : positive) (es : Z) :
  bounded prec emax ms es = true ->
  e0 <= es ->
  Zpos M < Zpos ms * 2 ^ (es - e0) ->
  signed_as sx (binary_round prec emax sx M e0) /\
  binary_round prec emax sx M e0 <> S754_infinity sx.
Proof.
  intros Hb He0 Hlt. unfold bounded, canonical_mantissa in Hb.
  apply andb_prop in Hb. destruct Hb as [Hcan Hemax].
  apply Z.eqb_eq in Hcan. apply Z.leb_le in Hemax.
  unfold binary_round.
  pose proof (shl_align_spec M e0 (fexp prec emax (Zpos (digits2_pos M) + e0))) as Hal.
  destruct (shl_align M e0 (fexp prec emax (Zpos (digits2_pos M) + e0))) as [mz ez].
  destruct Hal as [Hez Hmz].
  rewrite !digits2_pos_log2 in *.
  set (D := Z.succ (Z.log2 (Zpos M)) + e0) in *.
  set (f := fexp prec emax D) in *.
  assert (Hlog : Z.log2 (Zpos mz) = Z.log2 (Zpos M) + (e0 - ez)).
  { rewrite Hmz. apply log2_shift; lia. }
  assert (HD : Zdigits2 (Zpos mz) + ez = D).
  { rewrite Zdigits2_pos by lia. subst D. lia. }
  destruct (binary_round_aux_spec sx (Zpos mz) ez loc_Exact ltac:(lia)) as (m1 & Hm1 & Hsign & Hinf).
  rewrite HD in *. fold f in Hm1, Hinf.
  split; [exact Hsign|]. intros Heq. specialize (Hinf Heq).
  (* f <= es *)
  assert (Hpow : 0 < 2 ^ (es - e0)) by (apply Z.pow_pos_nonneg; lia).
  assert (HlogM : Z.log2 (Zpos M) <= Z.log2 (Zpos ms) + (es - e0)).
  { rewrite <- log2_shift by lia. apply Z.log2_le_mono. lia. }
  assert (Hf : f <= es).
  { rewrite <- Hcan. apply fexp_le. subst D. lia. }
  assert (Hezf : ez <= f) by lia.
  replace (ez + Z.max 0 (f - ez)) with f in * by lia.
  (* m1 <= ms * 2^(es - f) *)
  assert (Hm1le : m1 <= Zpos ms * 2 ^ (es - f)).
  { assert (Zpos mz / 2 ^ (f - ez) < Zpos ms * 2 ^ (es - f)).
    { apply Z.div_lt_upper_bound; [apply Z.pow_pos_nonneg; lia|].
      rewrite Hmz.
      replace (2 ^ (f - ez) * (Zpos ms * 2 ^ (es - f)))
        with (Zpos ms * 2 ^ (es - e0) * 2 ^ (e0 - ez)).
      - apply Z.mul_lt_mono_pos_r; [apply Z.pow_pos_nonneg; lia|exact Hlt].
      - assert (Hp1 : 2 ^ (es - e0) * 2 ^ (e0 - ez) = 2 ^ (es - ez))
          by (rewrite <- Z.pow_add_r by lia; f_equal; lia).
        assert (Hp2 : 2 ^ (f - ez) * 2 ^ (es - f) = 2 ^ (es - ez))
          by (rewrite <- Z.pow_add_r by lia; f_equal; lia).
        nia. }
    lia. }
  assert (Hfexp2 : fexp prec emax (Zdigits2 m1 + f) <= es).
  { rewrite <- Hcan. apply fexp_le.
    destruct (Z.eq_dec m1 0) as [->|Hne].
    - change (Zdigits2 0) with 0. pose proof (Z.log2_nonneg (Zpos ms)). lia.
    - assert (0 <= Zpos mz / 2 ^ (f - ez)) by (apply Z.div_pos; [lia|apply Z.pow_pos_nonneg; lia]).
      rewrite Zdigits2_pos by lia.
      assert (Z.log2 m1 <= Z.log2 (Zpos ms) + (es - f)).
      { rewrite <- log2_shift by lia. apply Z.log2_le_mono. exact Hm1le. }
      lia. }
  lia.
Qed.

Lemma binary_round_signed (sx : bool) (M : positive) (e0 : Z) :
  signed_as sx (binary_round prec emax sx M e0).
Proof.
  unfold binary_round.
  destruct (shl_align M e0 (fexp prec emax (Zpos (digits2_pos M) + e0))) as [mz ez].
  destruct (binary_round_aux_spec sx (Zpos mz) ez loc_Exact ltac:(lia)) as (m1 & _ & Hsign & _).
  exact Hsign.
Qed.

Lemma signed_as_not_nan (sx : bool) (r : spec_float) : signed_as sx r -> r <> S754_nan.
Proof. intros H ->. exact H. Qed.

(** The sum of two finite numbers is a number. *)
Lemma SF64add_finite_not_nan (sx : bool) (mx : positive) (ex : Z)
    (sy : bool) (my : positive) (ey : Z) :
  SF64add (S754_finite sx mx ex) (S754_finite sy my ey) <> S754_nan.
Proof.
  unfold SF64add, SFadd, binary_normalize.
  destruct (cond_Zopp sx (Zpos (fst (shl_align mx ex (Z.min ex ey)))) +
            cond_Zopp sy (Zpos (fst (shl_align my ey (Z.min ex ey))))) as [|p|p].
  - discriminate.
  - apply (signed_as_not_nan false), binary_round_signed.
  - apply (signed_as_not_nan true), binary_round_signed.
Qed.

(** Adding a negative finite number to a positive finite one yields a
    number that is not [+infinity]. *)
Lemma SF64add_pos_neg (mx : positive) (ex : Z) (my : positive) (ey : Z) :
  bounded prec emax mx ex = true ->
  SF64add (S754_finite false mx ex) (S754_finite true my ey) <> S754_infinity false.
Proof.
  intros Hb. unfold SF64add, SFadd, binary_normalize.
  pose proof (shl_align_spec mx ex (Z.min ex ey)) as Hx.
  destruct (shl_align mx ex (Z.min ex ey)) as [Mx ez]. destruct Hx as [Hez HMx].
  cbn [fst cond_Zopp].
  destruct (Zpos Mx + - Zpos (fst (shl_align my ey (Z.min ex ey)))) as [|p|p] eqn:Hsum.
  - discriminate.
  - apply (binary_round_below false p (Z.min ex ey) mx ex Hb); [lia|].
    replace (Z.min ex ey) with ez by lia. lia.
  - pose proof (binary_round_signed true p (Z.min ex ey)) as Hs.
    intros Heq. rewrite Heq in Hs. discriminate Hs.
Qed.

Lemma SFcompare_antisym (f1 f2 : spec_float) :
  SFcompare f2 f1 = option_map CompOpp (SFcompare f1 f2).
Proof.
  destruct f1 as [s1|s1| |s1 m1 e1], f2 as [s2|s2| |s2 m2 e2]; simpl;
    try reflexivity; try (destruct s1; reflexivity); try (destruct s2; reflexivity);
    try (destruct s1, s2; reflexivity).
  destruct s1, s2; simpl; try reflexivity;
    rewrite (Z.compare_antisym e1 e2); destruct (e1 ?= e2)%Z; simpl; try reflexivity;
    rewrite (Pos.compare_cont_antisym m1 m2 Eq); simpl;
    try rewrite CompOpp_involutive; reflexivity.
Qed.

Lemma is_nan_spec (x : float) :
  is_nan x = match Prim2SF x with S754_nan => true | _ => false end.
Proof.
  unfold is_nan. rewrite eqb_spec. unfold SFeqb.
  destruct (Prim2SF x) as [s|s| |s m e]; simpl; try reflexivity; try (destruct s; reflexivity).
  destruct s; rewrite Z.compare_refl, Pos.compare_cont_refl; reflexivity.
Qed.


Lemma SFcompare_nan_r (f1 f2 : spec_float) :
  f1 <> S754_nan ->
  SFcompare f1 f2 = None <-> f2 = S754_nan.
Proof.
  intros H1.
  destruct f1 as [s1|s1| |s1 m1 e1], f2 as [s2|s2| |s2 m2 e2]; simpl;
    split; intros H; try discriminate H; try reflexivity; try congruence.
Qed.

Lemma Prim2SF_floor : Prim2SF 0.1 = floor_sf.
Proof. reflexivity. Qed.

Lemma floor_sf_not_nan : floor_sf <> S754_nan.
Proof. discriminate. Qed.

Lemma max_floor_spec (x : float) :
  Math.max 0.1 x =
  match SFcompare floor_sf (Prim2SF x) with
  | None => nan
  | Some Lt => x
  | Some _ => 0.1%float
  end.
Proof.
  unfold Math.max.
  change (is_nan 0.1) with false. rewrite orb_false_l.
  change (classify 0.1) with PNormal.
  rewrite is_nan_spec, !ltb_spec. unfold SFltb.
  rewrite (SFcompare_antisym (Prim2SF 0.1) (Prim2SF x)), Prim2SF_floor.
  pose proof (SFcompare_nan_r floor_sf (Prim2SF x) floor_sf_not_nan) as Hnan.
  destruct (SFcompare floor_sf (Prim2SF x)) as [[ | | ]|] eqn:Hc; simpl.
  - destruct (Prim2SF x); try reflexivity. destruct Hnan as [_ Hn]. discriminate (Hn eq_refl).
  - destruct (Prim2SF x); try reflexivity. destruct Hnan as [_ Hn]. discriminate (Hn eq_refl).
  - destruct (Prim2SF x); try reflexivity. destruct Hnan as [_ Hn]. discriminate (Hn eq_refl).
  - destruct Hnan as [Hn _]. rewrite (Hn eq_refl). reflexivity.
Qed.

Lemma leb_floor_spec (x : float) :
  (0.1 <=? x)%float =
  match SFcompare floor_sf (Prim2SF x) with
  | Some Lt | Some Eq => true
  | _ => false
  end.
Proof. rewrite leb_spec, Prim2SF_floor. reflexivity. Qed.

Lemma ltb_floor_spec (x : float) :
  (x <? 0.1)%float =
  match SFcompare floor_sf (Prim2SF x) with
  | Some Gt => true
  | _ => false
  end.
Proof.
  rewrite ltb_spec, Prim2SF_floor. unfold SFltb.
  rewrite (SFcompare_antisym floor_sf (Prim2SF x)).
  destruct (SFcompare floor_sf (Prim2SF x)) as [[ | | ]|]; reflexivity.
Qed.

(* never below the floor *)
Lemma max_floor_not_below (x : float) : (Math.max 0.1 x <? 0.1)%float = false.
Proof.
  rewrite max_floor_spec.
  destruct (SFcompare floor_sf (Prim2SF x)) as [[ | | ]|] eqn:Hc; try reflexivity.
  rewrite ltb_floor_spec, Hc. reflexivity.
Qed.

Lemma max_floor_at_least (x : float) :
  is_nan x = false -> (0.1 <=? Math.max 0.1 x)%float = true.
Proof.
  intros Hx. rewrite max_floor_spec.
  destruct (SFcompare floor_sf (Prim2SF x)) as [[ | | ]|] eqn:Hc; try reflexivity.
  - rewrite leb_floor_spec, Hc. reflexivity.
  - apply SFcompare_nan_r in Hc; [|exact floor_sf_not_nan].
    rewrite is_nan_spec, Hc in Hx. discriminate.
Qed.

(** *** Rounding is monotone and to nearest *)

Lemma shr_1_exact (r : shr_record) :
  0 <= shr_m r -> shr_r r = false -> shr_s r = false -> Z.even (shr_m r) = true ->
  shr_r (shr_1 r) = false /\ shr_s (shr_1 r) = false.
Proof.
  destruct r as [m b s]; simpl. intros Hm -> -> Hev.
  destruct m as [|[p|p|]|p]; simpl in *; try discriminate; try lia; split; reflexivity.
Qed.

Lemma pow2_pos (n : Z) : 0 <= n -> 0 < 2 ^ n.
Proof. intros. apply Z.pow_pos_nonneg; lia. Qed.

Lemma iter_pos_shr_1_exact (p : positive) (r : shr_record) (k : Z) :
  0 <= shr_m r -> shr_r r = false -> shr_s r = false ->
  shr_m r = k * 2 ^ Zpos p ->
  shr_r (@SpecFloat.iter_pos shr_record shr_1 p r) = false /\
  shr_s (@SpecFloat.iter_pos shr_record shr_1 p r) = false.
Proof.
  revert r k. induction p as [p IH|p IH|]; intros r k Hm Hr Hs Hk; cbn [SpecFloat.iter_pos].
  - assert (Hp : 0 < 2 ^ Zpos p) by (apply pow2_pos; lia).
    assert (Hk' : shr_m r = 2 * (k * 2 ^ Zpos p * 2 ^ Zpos p)).
    { rewrite Hk. replace (Z.pos p~1) with (1 + Z.pos p + Z.pos p) by lia.
      rewrite !Z.pow_add_r by lia. lia. }
    assert (Hev : Z.even (shr_m r) = true) by (rewrite Hk'; apply Z.even_mul).
    destruct (shr_1_exact r Hm Hr Hs Hev) as [Hr1 Hs1].
    assert (Hm1 : shr_m (shr_1 r) = k * 2 ^ Zpos p * 2 ^ Zpos p).
    { rewrite shr_1_div2 by exact Hm. rewrite Hk'. rewrite Z.mul_comm, Z.div_mul; lia. }
    assert (H1 : 0 <= shr_m (shr_1 r)) by (rewrite shr_1_div2 by exact Hm; apply Z.div_pos; lia).
    destruct (IH (shr_1 r) (k * 2 ^ Zpos p) H1 Hr1 Hs1 Hm1) as [Hr2 Hs2].
    assert (Hm2 : shr_m (@SpecFloat.iter_pos shr_record shr_1 p (shr_1 r)) = k * 2 ^ Zpos p).
    { rewrite iter_pos_shr_1 by exact H1. rewrite Hm1. apply Z.div_mul. lia. }
    assert (H2 : 0 <= shr_m (@SpecFloat.iter_pos shr_record shr_1 p (shr_1 r))).
    { rewrite iter_pos_shr_1 by exact H1. apply Z.div_pos; lia. }
    exact (IH _ k H2 Hr2 Hs2 Hm2).
  - assert (Hp : 0 < 2 ^ Zpos p) by (apply pow2_pos; lia).
    assert (Hk' : shr_m r = k * 2 ^ Zpos p * 2 ^ Zpos p).
    { rewrite Hk. replace (Z.pos p~0) with (Z.pos p + Z.pos p) by lia.
      rewrite !Z.pow_add_r by lia. lia. }
    destruct (IH r (k * 2 ^ Zpos p) Hm Hr Hs Hk') as [Hr2 Hs2].
    assert (Hm2 : shr_m (@SpecFloat.iter_pos shr_record shr_1 p r) = k * 2 ^ Zpos p).
    { rewrite iter_pos_shr_1 by exact Hm. rewrite Hk'. apply Z.div_mul. lia. }
    assert (H2 : 0 <= shr_m (@SpecFloat.iter_pos shr_record shr_1 p r)).
    { rewrite iter_pos_shr_1 by exact Hm. apply Z.div_pos; lia. }
    exact (IH _ k H2 Hr2 Hs2 Hm2).
  - apply shr_1_exact; try assumption. rewrite Hk. 
    change (2 ^ 1) with 2. rewrite Z.even_mul. apply Bool.orb_true_r.
Qed.

(** The first shift of [binary_round_aux] on an exact input: when nothing
    nonzero is shifted out, the location stays exact. *)
Lemma shr_fexp_exact (m e : Z) (k : Z) :
  0 <= m ->
  m = k * 2 ^ Z.max 0 (fexp prec emax (Zdigits2 m + e) - e) ->
  loc_of_shr_record (fst (shr_fexp prec emax m e loc_Exact)) = loc_Exact.
Proof.
  intros Hm Hk. unfold shr_fexp, shr.
  destruct (fexp prec emax (Zdigits2 m + e) - e) as [|p|p] eqn:Hn; simpl; try reflexivity.
  replace (Z.max 0 (Z.pos p)) with (Z.pos p) in Hk by lia.
  destruct (iter_pos_shr_1_exact p {| shr_m := m; shr_r := false; shr_s := false |} k
              Hm eq_refl eq_refl Hk) as [Hr Hs].
  destruct (SpecFloat.iter_pos shr_1 p _) as [m' r' s']. simpl in *. subst. reflexivity.
Qed.

Lemma round_nearest_even_exact (m : Z) : round_nearest_even m loc_Exact = m.
Proof. reflexivity. Qed.


Lemma shifted_out_start (M : Z) :
  shifted_out M 0 {| shr_m := M; shr_r := false; shr_s := false |}.
Proof.
  split; [simpl; rewrite Z.div_1_r; reflexivity|].
  exists 0. simpl. rewrite Z.mod_1_r. repeat split; lia.
Qed.

Lemma shr_1_flags (r : shr_record) :
  0 <= shr_m r ->
  shr_r (shr_1 r) = Z.odd (shr_m r) /\ shr_s (shr_1 r) = (shr_r r || shr_s r)%bool.
Proof.
  destruct r as [m b s]; simpl. intros Hm.
  destruct m as [|[p|p|]|p]; simpl; try lia; split; reflexivity.
Qed.

Lemma shifted_out_step (M k : Z) (r : shr_record) :
  0 <= M -> 0 <= k -> shifted_out M k r -> shifted_out M (k + 1) (shr_1 r).
Proof.
  intros HM Hk [Hm (t & Ht & Hbound & Hs)].
  assert (Hp : 0 < 2 ^ k) by (apply Z.pow_pos_nonneg; lia).
  assert (Hmr : 0 <= shr_m r) by (rewrite Hm; apply Z.div_pos; lia).
  destruct (shr_1_flags r Hmr) as [Hr1 Hs1].
  assert (Hpk : 2 ^ (k + 1) = 2 ^ k * 2) by (rewrite Z.pow_add_r by lia; reflexivity).
  split.
  - rewrite shr_1_div2 by exact Hmr. rewrite Hm, Hpk, Z.div_div by lia. reflexivity.
  - assert (Hmod : M mod 2 ^ (k + 1) = M mod 2 ^ k + 2 ^ k * ((M / 2 ^ k) mod 2)).
    { rewrite Hpk. apply Z.rem_mul_r; lia. }
    exists (2 * (M mod 2 ^ k)).
    pose proof (Z.mod_pos_bound M (2 ^ k) Hp) as Hb.
    rewrite Hr1, Hs1, Hm, Hmod.
    assert (Hodd : (M / 2 ^ k) mod 2 = if Z.odd (M / 2 ^ k) then 1 else 0).
    { rewrite Zmod_odd. reflexivity. }
    rewrite Hodd. split; [|split].
    + destruct (Z.odd (M / 2 ^ k)); lia.
    + lia.
    + rewrite Ht. destruct (shr_r r), (shr_s r); simpl; split; intros H; try discriminate;
        try reflexivity; lia.
Qed.

Lemma shifted_out_iter (p : positive) (M k : Z) (r : shr_record) :
  0 <= M -> 0 <= k -> shifted_out M k r ->
  shifted_out M (k + Zpos p) (@SpecFloat.iter_pos shr_record shr_1 p r).
Proof.
  intros HM. revert k r.
  induction p as [p IH|p IH|]; intros k r Hk Hinv; cbn [SpecFloat.iter_pos].
  - replace (k + Z.pos p~1) with (k + 1 + Z.pos p + Z.pos p) by lia.
    apply IH; [lia|]. apply IH; [lia|]. apply shifted_out_step; assumption.
  - replace (k + Z.pos p~0) with (k + Z.pos p + Z.pos p) by lia.
    apply IH; [lia|]. apply IH; assumption.
  - apply shifted_out_step; assumption.
Qed.

(** The first shift of [binary_round_aux]: what the location says about
    the part cut off.  Rounding to nearest even goes up only when at least
    half a unit was cut off, and stays only when at most half was. *)
Lemma shr_fexp_direction (m e : Z) :
  0 <= m ->
  let n := Z.max 0 (fexp prec emax (Zdigits2 m + e) - e) in
  let mrs := fst (shr_fexp prec emax m e loc_Exact) in
  (round_nearest_even (shr_m mrs) (loc_of_shr_record mrs) = shr_m mrs ->
   2 * (m mod 2 ^ n) <= 2 ^ n) /\
  (round_nearest_even (shr_m mrs) (loc_of_shr_record mrs) <> shr_m mrs ->
   2 ^ n <= 2 * (m mod 2 ^ n)).
Proof.
  intros Hm n mrs.
  assert (Hinv : shifted_out m n mrs).
  { subst n mrs. unfold shr_fexp, shr.
    destruct (fexp prec emax (Zdigits2 m + e) - e) as [|p|p] eqn:Hn; cbn [fst].
    - apply shifted_out_start.
    - replace (Z.max 0 (Z.pos p)) with (0 + Z.pos p) by lia.
      apply shifted_out_iter; [exact Hm|lia|apply shifted_out_start].
    - apply shifted_out_start. }
  destruct Hinv as [_ (t & Ht & Hb & Hs)].
  destruct mrs as [m' r' s']. cbn [shr_m shr_r shr_s loc_of_shr_record] in *.
  destruct r', s'; cbn [round_nearest_even]; split; intros H; lia.
Qed.

Lemma prec_pos : 0 < prec.
Proof. reflexivity. Qed.

Lemma fexp_ge_emin (e : Z) : emin <= fexp prec emax e.
Proof. unfold fexp. lia. Qed.

Lemma lt_pow2_digits (m : Z) : 0 < m -> m < 2 ^ Zdigits2 m.
Proof.
  intros Hm. rewrite Zdigits2_pos by exact Hm.
  apply Z.log2_spec. exact Hm.
Qed.

Lemma pow2_digits_le (m : Z) : 0 < m -> 2 ^ (Zdigits2 m - 1) <= m.
Proof.
  intros Hm. rewrite Zdigits2_pos by exact Hm.
  replace (Z.succ (Z.log2 m) - 1) with (Z.log2 m) by lia.
  apply Z.log2_spec. exact Hm.
Qed.

Lemma pow2_le (a b : Z) : 0 <= a <= b -> 2 ^ a <= 2 ^ b.
Proof. intros. apply Z.pow_le_mono_r; lia. Qed.

Lemma pow2_lt (a b : Z) : 0 <= a < b -> 2 ^ a < 2 ^ b.
Proof. intros. apply Z.pow_lt_mono_r; lia. Qed.

Lemma pow2_add (a b : Z) : 0 <= a -> 0 <= b -> 2 ^ (a + b) = 2 ^ a * 2 ^ b.
Proof. intros. apply Z.pow_add_r; lia. Qed.

(** The result of [binary_round_aux] on an exact positive input whose
    exponent is not above the target exponent [f]: the mantissa is
    truncated to [f], rounded to [m1'] (up by at most one, and not at all
    when nothing was cut off), and renormalised when the rounding carried
    into a new binade. *)
Lemma binary_round_aux_value (sx : bool) (M E : Z) :
  0 < M ->
  E <= fexp prec emax (Zdigits2 M + E) ->
  exists m1' : Z,
    M / 2 ^ (fexp prec emax (Zdigits2 M + E) - E) <= m1'
      <= M / 2 ^ (fexp prec emax (Zdigits2 M + E) - E) + 1 /\
    ((exists k, M = k * 2 ^ (fexp prec emax (Zdigits2 M + E) - E)) ->
     m1' = M / 2 ^ (fexp prec emax (Zdigits2 M + E) - E)) /\
    (m1' = M / 2 ^ (fexp prec emax (Zdigits2 M + E) - E) ->
     2 * (M mod 2 ^ (fexp prec emax (Zdigits2 M + E) - E))
       <= 2 ^ (fexp prec emax (Zdigits2 M + E) - E)) /\
    (m1' <> M / 2 ^ (fexp prec emax (Zdigits2 M + E) - E) ->
     2 ^ (fexp prec emax (Zdigits2 M + E) - E)
       <= 2 * (M mod 2 ^ (fexp prec emax (Zdigits2 M + E) - E))) /\
    m1' <= 2 ^ prec /\
    binary_round_aux prec emax sx M E loc_Exact =
      if m1' =? 0 then S754_zero sx
      else if m1' =? 2 ^ prec then
        if fexp prec emax (Zdigits2 M + E) + 1 <=? emax - prec
        then S754_finite sx (Z.to_pos (2 ^ (prec - 1)))
               (fexp prec emax (Zdigits2 M + E) + 1)
        else S754_infinity sx
      else
        if fexp prec emax (Zdigits2 M + E) <=? emax - prec
        then S754_finite sx (Z.to_pos m1') (fexp prec emax (Zdigits2 M + E))
        else S754_infinity sx.
Proof.
  intros HM. set (f := fexp prec emax (Zdigits2 M + E)). intros HEf.
  pose proof prec_pos as Hprec.
  assert (Hfemin : emin <= f) by apply fexp_ge_emin.
  unfold binary_round_aux.
  destruct (shr_fexp_spec M E loc_Exact ltac:(lia)) as [Hm1 He1].
  pose proof (shr_fexp_exact M E) as Hexact.
  pose proof (shr_fexp_direction M E ltac:(lia)) as Hdir. cbv zeta in Hdir.
  fold f in Hm1, He1, Hexact, Hdir.
  replace (Z.max 0 (f - E)) with (f - E) in * by lia.
  destruct (shr_fexp prec emax M E loc_Exact) as [mrs' e'] eqn:H1.
  simpl in Hm1, He1, Hexact, Hdir.
  replace (E + (f - E)) with f in He1 by lia. subst e'.
  set (m1' := round_nearest_even (shr_m mrs') (loc_of_shr_record mrs')).
  pose proof (round_nearest_even_bounds (shr_m mrs') (loc_of_shr_record mrs')) as Hr.
  fold m1' in Hr. rewrite Hm1 in Hr.
  assert (Hpf : 0 < 2 ^ (f - E)) by (apply pow2_pos; lia).
  assert (Hdiv : 0 <= M / 2 ^ (f - E)) by (apply Z.div_pos; lia).
  assert (Hlt : M / 2 ^ (f - E) < 2 ^ prec).
  { apply Z.div_lt_upper_bound; [exact Hpf|].
    rewrite <- pow2_add by lia.
    apply Z.lt_le_trans with (2 ^ Zdigits2 M); [apply lt_pow2_digits; exact HM|].
    apply pow2_le. split.
    - rewrite Zdigits2_pos by exact HM. pose proof (Z.log2_nonneg M). lia.
    - subst f. unfold fexp. lia. }
  exists m1'. split; [exact Hr|]. split; [|split; [|split; [|split; [lia|]]]].
  { intros [k Hk]. unfold m1'. rewrite (Hexact k ltac:(lia) Hk). simpl. exact Hm1. }
  { intros Heq. apply Hdir. fold m1'. rewrite Hm1. exact Heq. }
  { intros Hne. apply Hdir. fold m1'. rewrite Hm1. exact Hne. }
  assert (Hm1pos : 0 <= m1') by lia.
  destruct (shr_fexp_spec m1' f loc_Exact Hm1pos) as [Hm2 He2].
  destruct (shr_fexp prec emax m1' f loc_Exact) as [mrs'' e''] eqn:H2. simpl in Hm2, He2.
  destruct (Z.eqb_spec m1' 0) as [H0|H0].
  - rewrite H0 in Hm2. rewrite Z.div_0_l in Hm2 by (apply Z.neq_sym, Z.lt_neq, pow2_pos; lia).
    rewrite Hm2. reflexivity.
  - destruct (Z.eqb_spec m1' (2 ^ prec)) as [Hc|Hc].
    + assert (Hd : Zdigits2 m1' = prec + 1).
      { rewrite Zdigits2_pos by lia. rewrite Hc, Z.log2_pow2 by lia. lia. }
      rewrite Hd in Hm2, He2.
      assert (Hn : Z.max 0 (fexp prec emax (prec + 1 + f) - f) = 1) by (unfold fexp; lia).
      rewrite Hn in Hm2, He2. subst e''.
      assert (Hhalf : m1' / 2 ^ 1 = 2 ^ (prec - 1)).
      { rewrite Hc. replace prec with (prec - 1 + 1) at 1 by lia.
        rewrite pow2_add by lia. apply Z.div_mul. discriminate. }
      rewrite Hhalf in Hm2. rewrite Hm2.
      pose proof (pow2_pos (prec - 1) ltac:(lia)) as Hpp.
      destruct (2 ^ (prec - 1)) as [|p|p] eqn:Hp2; try lia.
      reflexivity.
    + assert (Hd : Zdigits2 m1' <= prec).
      { rewrite Zdigits2_pos by lia.
        assert (Z.log2 m1' < prec) by (apply Z.log2_lt_pow2; lia). lia. }
      assert (Hn : Z.max 0 (fexp prec emax (Zdigits2 m1' + f) - f) = 0) by (unfold fexp; lia).
      rewrite Hn in Hm2, He2. rewrite Z.div_1_r in Hm2.
      replace (f + 0) with f in He2 by lia. subst e''. rewrite Hm2.
      destruct m1' as [|p|p]; try lia. reflexivity.
Qed.


Lemma pow2_split (a b c : Z) : c <= b <= a -> 2 ^ (a - c) = 2 ^ (a - b) * 2 ^ (b - c).
Proof. intros. rewrite <- pow2_add by lia. f_equal. lia. Qed.

Lemma bounded_spec (m : positive) (e : Z) :
  bounded prec emax m e = true ->
  fexp prec emax (Zdigits2 (Zpos m) + e) = e /\ e <= emax - prec /\
  emin <= e /\ Zdigits2 (Zpos m) <= prec /\
  (emin < e -> Zdigits2 (Zpos m) = prec).
Proof.
  unfold bounded, canonical_mantissa. intros Hb.
  apply andb_prop in Hb. destruct Hb as [Hcan Hemax].
  apply Z.eqb_eq in Hcan. apply Z.leb_le in Hemax.
  change (Z.pos (digits2_pos m)) with (Zdigits2 (Zpos m)) in Hcan.
  split; [exact Hcan|]. split; [exact Hemax|].
  unfold fexp in Hcan. lia.
Qed.

(** Comparing digit counts of two scaled positive integers. *)
Lemma digits_le_of_le (m1 e1 m2 e2 b : Z) :
  0 < m1 -> 0 < m2 -> b <= e1 -> b <= e2 ->
  m1 * 2 ^ (e1 - b) <= m2 * 2 ^ (e2 - b) ->
  Zdigits2 m1 + e1 <= Zdigits2 m2 + e2.
Proof.
  intros H1 H2 Hb1 Hb2 Hle.
  rewrite !Zdigits2_pos by assumption.
  assert (Z.log2 (m1 * 2 ^ (e1 - b)) <= Z.log2 (m2 * 2 ^ (e2 - b)))
    by (apply Z.log2_le_mono; exact Hle).
  rewrite !log2_shift in H by lia. lia.
Qed.

Lemma round_aux_monotone (sx : bool) (M E b : Z) :
  0 < M ->
  E <= fexp prec emax (Zdigits2 M + E) ->
  b <= E -> b <= emin ->
  (forall (mz : positive) (ez : Z),
     bounded prec emax mz ez = true ->
     Zpos mz * 2 ^ (ez - b) <= M * 2 ^ (E - b) ->
     binary_round_aux prec emax sx M E loc_Exact = S754_infinity sx \/
     Zpos mz * 2 ^ (ez - b) <= magnitude b (binary_round_aux prec emax sx M E loc_Exact)) /\
  (forall (mz : positive) (ez : Z),
     bounded prec emax mz ez = true ->
     M * 2 ^ (E - b) <= Zpos mz * 2 ^ (ez - b) ->
     binary_round_aux prec emax sx M E loc_Exact <> S754_infinity sx /\
     magnitude b (binary_round_aux prec emax sx M E loc_Exact) <= Zpos mz * 2 ^ (ez - b)) /\
  (binary_round_aux prec emax sx M E loc_Exact = S754_zero sx \/
   binary_round_aux prec emax sx M E loc_Exact = S754_infinity sx \/
   exists m e, binary_round_aux prec emax sx M E loc_Exact = S754_finite sx m e /\
               bounded prec emax m e = true).
Proof.
  intros HM HEf HbE Hbemin.
  destruct (binary_round_aux_value sx M E HM HEf) as (m1' & Hr & Hexact & _ & _ & Hm1le & Hres).
  set (f := fexp prec emax (Zdigits2 M + E)) in *.
  set (q := 2 ^ (f - E)) in *.
  pose proof prec_pos as Hprec.
  assert (Hfemin : emin <= f) by apply fexp_ge_emin.
  assert (Hq : 0 < q) by (apply pow2_pos; lia).
  assert (Hfb : 2 ^ (f - b) = q * 2 ^ (E - b)) by (apply pow2_split; lia).
  assert (HEb : 0 < 2 ^ (E - b)) by (apply pow2_pos; lia).
  assert (Hfb' : 0 < 2 ^ (f - b)) by (apply pow2_pos; lia).
  pose proof (Z.div_mod M q ltac:(lia)) as Hdm.
  pose proof (Z.mod_pos_bound M q Hq) as Hmod.
  set (m1 := M / q) in *.
  assert (Hm1 : 0 <= m1) by (apply Z.div_pos; lia).
  (* the magnitude of the result *)
  assert (Hmag : binary_round_aux prec emax sx M E loc_Exact = S754_infinity sx \/
                 magnitude b (binary_round_aux prec emax sx M E loc_Exact) = m1' * 2 ^ (f - b)).
  { rewrite Hres. destruct (Z.eqb_spec m1' 0) as [H0|H0]; [right; cbn [magnitude]; lia|].
    destruct (Z.eqb_spec m1' (2 ^ prec)) as [Hc|Hc].
    - destruct (f + 1 <=? emax - prec); [right|left; reflexivity].
      cbn [magnitude]. rewrite Z2Pos.id by (apply pow2_pos; lia). rewrite Hc.
      replace (f + 1 - b) with (1 + (f - b)) by lia.
      rewrite (pow2_add 1 (f - b)) by lia.
      replace prec with ((prec - 1) + 1) at 2 by lia.
      rewrite (pow2_add (prec - 1) 1) by lia. lia.
    - destruct (f <=? emax - prec); [right|left; reflexivity].
      cbn [magnitude]. rewrite Z2Pos.id by lia. reflexivity. }
  split; [|split].
  - (* below *)
    intros mz ez Hb Hle.
    destruct (bounded_spec mz ez Hb) as (Hcan & Hemax & Hemin & Hdz & Hnorm).
    assert (Hdig : Zdigits2 (Zpos mz) + ez <= Zdigits2 M + E)
      by (apply (digits_le_of_le (Zpos mz) ez M E b); lia).
    assert (Hezf : ez <= f) by (rewrite <- Hcan; apply fexp_le; exact Hdig).
    assert (Hclaim : Zpos mz * 2 ^ (ez - b) <= m1 * 2 ^ (f - b)).
    { destruct (Z.eq_dec ez f) as [->|Hne].
      - apply Z.mul_le_mono_nonneg_r; [lia|].
        apply Z.div_le_lower_bound; [exact Hq|].
        rewrite Hfb in Hle. nia.
      - assert (Hf : f = Zdigits2 M + E - prec) by (subst f; unfold fexp in *; lia).
        assert (Hzlt : Zpos mz < 2 ^ prec).
        { apply Z.lt_le_trans with (2 ^ Zdigits2 (Zpos mz)); [apply lt_pow2_digits; lia|].
          apply pow2_le. pose proof (Zdigits2_pos (Zpos mz) ltac:(lia)).
          pose proof (Z.log2_nonneg (Zpos mz)). lia. }
        assert (Hm1ge : 2 ^ (prec - 1) <= m1).
        { apply Z.div_le_lower_bound; [exact Hq|].
          unfold q. rewrite <- pow2_add by lia.
          replace (f - E + (prec - 1)) with (Zdigits2 M - 1) by lia.
          apply pow2_digits_le. exact HM. }
        assert (Hez : 2 ^ (f - b) = 2 * 2 ^ (f - 1 - b)).
        { replace (f - b) with (1 + (f - 1 - b)) by lia. rewrite pow2_add by lia. reflexivity. }
        assert (Hezb : 2 ^ (ez - b) <= 2 ^ (f - 1 - b)) by (apply pow2_le; lia).
        assert (Hpp : 2 ^ prec = 2 * 2 ^ (prec - 1)).
        { replace prec with (1 + (prec - 1)) at 1 by lia. rewrite pow2_add by lia. reflexivity. }
        assert (0 < 2 ^ (ez - b)) by (apply pow2_pos; lia).
        assert (0 < 2 ^ (prec - 1)) by (apply pow2_pos; lia).
        rewrite Hez. 
        apply Z.le_trans with (2 ^ prec * 2 ^ (f - 1 - b)); [|nia].
        apply Z.le_trans with (2 ^ prec * 2 ^ (ez - b)); [nia|].
        apply Z.mul_le_mono_nonneg_l; lia. }
    destruct Hmag as [Hinf|Hmag]; [left; exact Hinf|right].
    rewrite Hmag. apply Z.le_trans with (1 := Hclaim).
    apply Z.mul_le_mono_nonneg_r; lia.
  - (* above *)
    intros mz ez Hb Hle.
    destruct (bounded_spec mz ez Hb) as (Hcan & Hemax & Hemin & Hdz & Hnorm).
    assert (Hdig : Zdigits2 M + E <= Zdigits2 (Zpos mz) + ez)
      by (apply (digits_le_of_le M E (Zpos mz) ez b); lia).
    assert (Hfez : f <= ez) by (rewrite <- Hcan; apply fexp_le; exact Hdig).
    set (K := Zpos mz * 2 ^ (ez - f)).
    assert (Hezf : 0 < 2 ^ (ez - f)) by (apply pow2_pos; lia).
    assert (HK : Zpos mz * 2 ^ (ez - b) = K * 2 ^ (f - b)).
    { unfold K. rewrite (pow2_split ez f b) by lia. lia. }
    assert (HMK : M <= K * q).
    { rewrite HK, Hfb in Hle. nia. }
    assert (Hm1K : m1' <= K).
    { destruct (Z.eq_dec (M mod q) 0) as [Hz|Hnz].
      - rewrite Hexact by (exists m1; lia). fold m1. nia.
      - assert (m1 < K) by nia. lia. }
    assert (Hzlt : Zpos mz < 2 ^ prec).
    { apply Z.lt_le_trans with (2 ^ Zdigits2 (Zpos mz)); [apply lt_pow2_digits; lia|].
      apply pow2_le. pose proof (Zdigits2_pos (Zpos mz) ltac:(lia)).
          pose proof (Z.log2_nonneg (Zpos mz)). lia. }
    split.
    + rewrite Hres. destruct (Z.eqb_spec m1' 0) as [H0|H0]; [discriminate|].
      destruct (Z.eqb_spec m1' (2 ^ prec)) as [Hc|Hc].
      * assert (f < ez).
        { destruct (Z.eq_dec f ez) as [Heq|Hne]; [|lia].
          exfalso. unfold K in Hm1K. rewrite Heq, Z.sub_diag, Z.pow_0_r in Hm1K. lia. }
        destruct (Z.leb_spec (f + 1) (emax - prec)); [discriminate|lia].
      * destruct (Z.leb_spec f (emax - prec)); [discriminate|lia].
    + destruct Hmag as [Hinf|Hmag].
      * rewrite Hinf. cbn [magnitude]. rewrite HK. nia.
      * rewrite Hmag, HK. apply Z.mul_le_mono_nonneg_r; lia.
  - rewrite Hres. destruct (Z.eqb_spec m1' 0) as [H0|H0]; [left; reflexivity|right].
    assert (Hm1'pos : 0 < m1') by lia.
    destruct (Z.eqb_spec m1' (2 ^ prec)) as [Hc|Hc].
    + destruct (Z.leb_spec (f + 1) (emax - prec)) as [Hle|Hgt]; [right|left; reflexivity].
      eexists. eexists. split; [reflexivity|].
      unfold bounded, canonical_mantissa.
      change (Z.pos (digits2_pos ?p)) with (Zdigits2 (Zpos p)).
      rewrite Z2Pos.id by (apply pow2_pos; lia).
      rewrite Zdigits2_pos by (apply pow2_pos; lia).
      rewrite Z.log2_pow2 by lia.
      apply andb_true_intro. split; [apply Z.eqb_eq; unfold fexp; lia|apply Z.leb_le; lia].
    + destruct (Z.leb_spec f (emax - prec)) as [Hle|Hgt]; [right|left; reflexivity].
      eexists. eexists. split; [reflexivity|].
      unfold bounded, canonical_mantissa.
      change (Z.pos (digits2_pos ?p)) with (Zdigits2 (Zpos p)).
      rewrite Z2Pos.id by lia.
      apply andb_true_intro. split; [|apply Z.leb_le; lia].
      apply Z.eqb_eq.
      assert (Hlog : Z.log2 m1' < prec) by (apply Z.log2_lt_pow2; lia).
      rewrite Zdigits2_pos by lia.
      destruct (Z.eq_dec f (emin)) as [Hfe|Hfe]; [unfold fexp; lia|].
      assert (Hf : f = Zdigits2 M + E - prec) by (subst f; unfold fexp in *; lia).
      assert (Hm1ge : 2 ^ (prec - 1) <= m1).
      { apply Z.div_le_lower_bound; [exact Hq|].
        unfold q. rewrite <- pow2_add by lia.
        replace (f - E + (prec - 1)) with (Zdigits2 M - 1) by lia.
        apply pow2_digits_le. exact HM. }
      assert (prec - 1 <= Z.log2 m1').
      { apply Z.log2_le_pow2; lia. }
      unfold fexp. lia.
Qed.

(** Rounding is to nearest: the result is at least as close to the exact
    value as any representable number on the other side of it. *)
Lemma round_aux_nearest (sx : bool) (M E b : Z) :
  0 < M ->
  E <= fexp prec emax (Zdigits2 M + E) ->
  b <= E -> b <= emin ->
  (forall (mz : positive) (ez : Z),
     bounded prec emax mz ez = true ->
     Zpos mz * 2 ^ (ez - b) <= M * 2 ^ (E - b) ->
     M * 2 ^ (E - b) < magnitude b (binary_round_aux prec emax sx M E loc_Exact) ->
     2 * (magnitude b (binary_round_aux prec emax sx M E loc_Exact) - M * 2 ^ (E - b))
     <= magnitude b (binary_round_aux prec emax sx M E loc_Exact) - Zpos mz * 2 ^ (ez - b)) /\
  (M * 2 ^ (E - b) < magnitude b (binary_round_aux prec emax sx M E loc_Exact) ->
   magnitude b (binary_round_aux prec emax sx M E loc_Exact) <= 2 * (M * 2 ^ (E - b))) /\
  (forall (mz : positive) (ez : Z),
     bounded prec emax mz ez = true ->
     M * 2 ^ (E - b) <= Zpos mz * 2 ^ (ez - b) ->
     magnitude b (binary_round_aux prec emax sx M E loc_Exact) < M * 2 ^ (E - b) ->
     2 * (M * 2 ^ (E - b) - magnitude b (binary_round_aux prec emax sx M E loc_Exact))
     <= Zpos mz * 2 ^ (ez - b) - magnitude b (binary_round_aux prec emax sx M E loc_Exact)).
Proof.
  intros HM HEf HbE Hbemin.
  destruct (round_aux_monotone sx M E b HM HEf HbE Hbemin) as (_ & Hhi & _).
  destruct (binary_round_aux_value sx M E HM HEf)
    as (m1' & Hr & Hexact & Hstay & Hup & Hm1le & Hres).
  set (f := fexp prec emax (Zdigits2 M + E)) in *.
  set (q := 2 ^ (f - E)) in *.
  pose proof prec_pos as Hprec.
  assert (Hfemin : emin <= f) by apply fexp_ge_emin.
  assert (Hq : 0 < q) by (apply pow2_pos; lia).
  assert (Hfb : 2 ^ (f - b) = q * 2 ^ (E - b)) by (apply pow2_split; lia).
  assert (HEb : 0 < 2 ^ (E - b)) by (apply pow2_pos; lia).
  assert (Hfb' : 0 < 2 ^ (f - b)) by (apply pow2_pos; lia).
  pose proof (Z.div_mod M q ltac:(lia)) as Hdm.
  pose proof (Z.mod_pos_bound M q Hq) as Hmod.
  set (m1 := M / q) in *. set (rem := M mod q) in *.
  assert (Hm1 : 0 <= m1) by (apply Z.div_pos; lia).
  set (E2 := 2 ^ (E - b)) in *. set (U := 2 ^ (f - b)) in *.
  assert (Hmag : binary_round_aux prec emax sx M E loc_Exact = S754_infinity sx \/
                 magnitude b (binary_round_aux prec emax sx M E loc_Exact) = m1' * U).
  { rewrite Hres. destruct (Z.eqb_spec m1' 0) as [H0|H0]; [right; cbn [magnitude]; lia|].
    destruct (Z.eqb_spec m1' (2 ^ prec)) as [Hc|Hc].
    - destruct (f + 1 <=? emax - prec); [right|left; reflexivity].
      cbn [magnitude]. rewrite Z2Pos.id by (apply pow2_pos; lia). rewrite Hc.
      replace (f + 1 - b) with (1 + (f - b)) by lia.
      rewrite (pow2_add 1 (f - b)) by lia.
      replace prec with ((prec - 1) + 1) at 2 by lia.
      rewrite (pow2_add (prec - 1) 1) by lia. fold U. lia.
    - destruct (f <=? emax - prec); [right|left; reflexivity].
      cbn [magnitude]. rewrite Z2Pos.id by lia. reflexivity. }
  assert (HV : M * E2 = (q * m1 + rem) * E2) by (rewrite <- Hdm; reflexivity).
  assert (Hupcase : M * E2 < m1' * U -> m1' = m1 + 1 /\ q <= 2 * rem).
  { intros Hlt. rewrite HV, Hfb in Hlt.
    assert (Hne : m1' <> m1) by (intros ->; nia).
    split; [lia|apply Hup; exact Hne]. }
  split; [|split].
  - intros mz ez Hb Hle Hlt.
    destruct Hmag as [Hinf|Hmag];
      [rewrite Hinf in Hlt; cbn [magnitude] in Hlt; nia|].
    rewrite Hmag in *. destruct (Hupcase Hlt) as [Hm1' Hhalf].
    (* the number below is at most the truncation *)
    destruct (bounded_spec mz ez Hb) as (Hcan & Hemax & Hemin & Hdz & Hnorm).
    assert (Hdig : Zdigits2 (Zpos mz) + ez <= Zdigits2 M + E)
      by (apply (digits_le_of_le (Zpos mz) ez M E b); lia).
    assert (Hezf : ez <= f) by (rewrite <- Hcan; apply fexp_le; exact Hdig).
    assert (Hclaim : Zpos mz * 2 ^ (ez - b) <= m1 * U).
    { destruct (Z.eq_dec ez f) as [->|Hne].
      - apply Z.mul_le_mono_nonneg_r; [unfold U; lia|].
        apply Z.div_le_lower_bound; [exact Hq|].
        change (2 ^ (f - b)) with U in Hle. rewrite Hfb in Hle. nia.
      - assert (Hf : f = Zdigits2 M + E - prec) by (subst f; unfold fexp in *; lia).
        assert (Hzlt : Zpos mz < 2 ^ prec).
        { apply Z.lt_le_trans with (2 ^ Zdigits2 (Zpos mz)); [apply lt_pow2_digits; lia|].
          apply pow2_le. pose proof (Zdigits2_pos (Zpos mz) ltac:(lia)).
          pose proof (Z.log2_nonneg (Zpos mz)). lia. }
        assert (Hm1ge : 2 ^ (prec - 1) <= m1).
        { apply Z.div_le_lower_bound; [exact Hq|].
          unfold q. rewrite <- pow2_add by lia.
          replace (f - E + (prec - 1)) with (Zdigits2 M - 1) by lia.
          apply pow2_digits_le. exact HM. }
        assert (Hez : U = 2 * 2 ^ (f - 1 - b)).
        { unfold U. replace (f - b) with (1 + (f - 1 - b)) by lia.
          rewrite pow2_add by lia. reflexivity. }
        assert (Hezb : 2 ^ (ez - b) <= 2 ^ (f - 1 - b)) by (apply pow2_le; lia).
        assert (Hpp : 2 ^ prec = 2 * 2 ^ (prec - 1)).
        { replace prec with (1 + (prec - 1)) at 1 by lia. rewrite pow2_add by lia. reflexivity. }
        assert (0 < 2 ^ (ez - b)) by (apply pow2_pos; lia).
        assert (0 < 2 ^ (prec - 1)) by (apply pow2_pos; lia).
        rewrite Hez.
        apply Z.le_trans with (2 ^ prec * 2 ^ (f - 1 - b)); [|nia].
        apply Z.le_trans with (2 ^ prec * 2 ^ (ez - b)); [nia|].
        apply Z.mul_le_mono_nonneg_l; lia. }
    rewrite HV. subst m1'. rewrite Hfb in Hclaim |- *. nia.
  - intros Hlt.
    destruct Hmag as [Hinf|Hmag];
      [rewrite Hinf in Hlt; cbn [magnitude] in Hlt; nia|].
    rewrite Hmag in *. destruct (Hupcase Hlt) as [Hm1' Hhalf].
    rewrite HV, Hfb. subst m1'. nia.
  - intros mz ez Hb Hle Hlt.
    destruct (Hhi mz ez Hb Hle) as [Hninf _].
    destruct Hmag as [Hinf|Hmag]; [contradiction|].
    rewrite Hmag in *.
    destruct (bounded_spec mz ez Hb) as (Hcan & Hemax & Hemin & Hdz & Hnorm).
    assert (Hdig : Zdigits2 M + E <= Zdigits2 (Zpos mz) + ez)
      by (apply (digits_le_of_le M E (Zpos mz) ez b); lia).
    assert (Hfez : f <= ez) by (rewrite <- Hcan; apply fexp_le; exact Hdig).
    set (K := Zpos mz * 2 ^ (ez - f)).
    assert (Hezf : 0 < 2 ^ (ez - f)) by (apply pow2_pos; lia).
    assert (HK : Zpos mz * 2 ^ (ez - b) = K * U).
    { unfold K, U. rewrite (pow2_split ez f b) by lia. lia. }
    rewrite HK in Hle |- *. rewrite HV in Hle, Hlt |- *. rewrite Hfb in Hle, Hlt |- *.
    assert (Hm1' : m1' = m1) by nia.
    assert (Hrem : 0 < rem) by nia.
    pose proof (Hstay Hm1') as Hhalf. fold q rem in Hhalf.
    assert (HK1 : m1 + 1 <= K) by nia.
    subst m1'. nia.
Qed.




Lemma rounds_exact (r : spec_float) :
  valid_binary r = true -> finite_sf r = true -> rounds (ulps r) r.
Proof.
  intros Hv Hf. split; [exact Hv|]. split; [destruct r; discriminate|].
  split; [|split]; auto.
Qed.

Lemma ulps_pos (m : positive) (e : Z) :
  bounded prec emax m e = true -> 0 < Zpos m * 2 ^ (e - emin).
Proof.
  intros Hb. destruct (bounded_spec m e Hb) as (_ & _ & Hemin & _).
  apply Z.mul_pos_pos; [lia|apply pow2_pos; lia].
Qed.

Lemma binary_round_monotone (sx : bool) (M : positive) (e0 : Z) :
  emin <= e0 ->
  (forall (mz : positive) (ez : Z),
     bounded prec emax mz ez = true ->
     Zpos mz * 2 ^ (ez - emin) <= Zpos M * 2 ^ (e0 - emin) ->
     binary_round prec emax sx M e0 = S754_infinity sx \/
     Zpos mz * 2 ^ (ez - emin) <= magnitude emin (binary_round prec emax sx M e0)) /\
  (forall (mz : positive) (ez : Z),
     bounded prec emax mz ez = true ->
     Zpos M * 2 ^ (e0 - emin) <= Zpos mz * 2 ^ (ez - emin) ->
     binary_round prec emax sx M e0 <> S754_infinity sx /\
     magnitude emin (binary_round prec emax sx M e0) <= Zpos mz * 2 ^ (ez - emin)) /\
  (binary_round prec emax sx M e0 = S754_zero sx \/
   binary_round prec emax sx M e0 = S754_infinity sx \/
   exists m e, binary_round prec emax sx M e0 = S754_finite sx m e /\
               bounded prec emax m e = true).
Proof.
  intros He0. unfold binary_round.
  pose proof (shl_align_spec M e0 (fexp prec emax (Zpos (digits2_pos M) + e0))) as Hal.
  destruct (shl_align M e0 (fexp prec emax (Zpos (digits2_pos M) + e0))) as [mz ez].
  destruct Hal as [Hez Hmz].
  change (Z.pos (digits2_pos M)) with (Zdigits2 (Zpos M)) in *.
  pose proof (fexp_ge_emin (Zdigits2 (Zpos M) + e0)) as Hf.
  assert (HD : Zdigits2 (Zpos mz) + ez = Zdigits2 (Zpos M) + e0).
  { rewrite !Zdigits2_pos by lia. rewrite Hmz, log2_shift by lia. lia. }
  assert (Hval : Zpos mz * 2 ^ (ez - emin) = Zpos M * 2 ^ (e0 - emin)).
  { rewrite Hmz, (pow2_split e0 ez emin) by lia. lia. }
  rewrite <- Hval.
  apply round_aux_monotone; try lia.
  rewrite HD. lia.
Qed.

Lemma binary_normalize_rounds (N e0 : Z) (szero : bool) :
  emin <= e0 ->
  rounds (N * 2 ^ (e0 - emin)) (binary_normalize prec emax N e0 szero).
Proof.
  intros He0.
  assert (Hp : 0 < 2 ^ (e0 - emin)) by (apply pow2_pos; lia).
  destruct N as [|M|M]; unfold binary_normalize.
  - apply (rounds_exact (S754_zero szero)); reflexivity.
  - destruct (binary_round_monotone false M e0 He0) as (Hlo & Hhi & Hshape).
    set (r := binary_round prec emax false M e0) in *.
    assert (Hr0 : finite_sf r = true -> ulps r = magnitude emin r /\ 0 <= ulps r).
    { destruct Hshape as [Hr|[Hr|(m & e & Hr & Hb)]]; rewrite Hr;
        cbn [finite_sf ulps magnitude cond_Zopp]; intros; lia. }
    split; [|split; [|split; [|split]]].
    + destruct Hshape as [Hr|[Hr|(m & e & Hr & Hb)]]; rewrite Hr; try reflexivity. exact Hb.
    + destruct Hshape as [Hr|[Hr|(m & e & Hr & Hb)]]; rewrite Hr; discriminate.
    + intros z Hv Hfz Hle Hfr. destruct (Hr0 Hfr) as [Hu Hnn].
      destruct z as [s|s| |s mz ez]; try discriminate; cbn [ulps] in *; try lia.
      destruct s; cbn [cond_Zopp] in *.
      * pose proof (ulps_pos mz ez Hv). lia.
      * destruct (Hlo mz ez Hv Hle) as [Hinf|Hm]; [rewrite Hinf in Hfr; discriminate|lia].
    + intros z Hv Hfz Hle Hfr. destruct (Hr0 Hfr) as [Hu Hnn].
      destruct z as [s|s| |s mz ez]; try discriminate; cbn [ulps] in *; try lia.
      destruct s; cbn [cond_Zopp] in *.
      * pose proof (ulps_pos mz ez Hv). lia.
      * destruct (Hhi mz ez Hv Hle) as [_ Hm]. lia.
    + intros z1 z2 Hv1 Hf1 Hv2 Hf2 [Hle1 Hle2].
      destruct z2 as [s|s| |s mz ez]; try discriminate; cbn [ulps] in *; try lia.
      destruct s; cbn [cond_Zopp] in *.
      * pose proof (ulps_pos mz ez Hv2). lia.
      * destruct (Hhi mz ez Hv2 Hle2) as [Hni _].
        destruct Hshape as [Hr|[Hr|(m & e & Hr & Hb)]]; rewrite Hr in *; try reflexivity.
        congruence.
  - destruct (binary_round_monotone true M e0 He0) as (Hlo & Hhi & Hshape).
    set (r := binary_round prec emax true M e0) in *.
    assert (Hr0 : finite_sf r = true -> ulps r = - magnitude emin r /\ ulps r <= 0).
    { destruct Hshape as [Hr|[Hr|(m & e & Hr & Hb)]]; rewrite Hr;
        cbn [finite_sf ulps magnitude cond_Zopp]; intros; lia. }
    split; [|split; [|split; [|split]]].
    + destruct Hshape as [Hr|[Hr|(m & e & Hr & Hb)]]; rewrite Hr; try reflexivity. exact Hb.
    + destruct Hshape as [Hr|[Hr|(m & e & Hr & Hb)]]; rewrite Hr; discriminate.
    + intros z Hv Hfz Hle Hfr. destruct (Hr0 Hfr) as [Hu Hnn].
      destruct z as [s|s| |s mz ez]; try discriminate; cbn [ulps] in *; try lia.
      destruct s; cbn [cond_Zopp] in *.
      * assert (Hle' : Z.pos M * 2 ^ (e0 - emin) <= Z.pos mz * 2 ^ (ez - emin)) by lia.
        destruct (Hhi mz ez Hv Hle') as [_ Hm]. lia.
      * pose proof (ulps_pos mz ez Hv). lia.
    + intros z Hv Hfz Hle Hfr. destruct (Hr0 Hfr) as [Hu Hnn].
      destruct z as [s|s| |s mz ez]; try discriminate; cbn [ulps] in *; try lia.
      destruct s; cbn [cond_Zopp] in *.
      * assert (Hle' : Z.pos mz * 2 ^ (ez - emin) <= Z.pos M * 2 ^ (e0 - emin)) by lia.
        destruct (Hlo mz ez Hv Hle') as [Hinf|Hm]; [rewrite Hinf in Hfr; discriminate|lia].
      * pose proof (ulps_pos mz ez Hv). lia.
    + intros z1 z2 Hv1 Hf1 Hv2 Hf2 [Hle1 Hle2].
      destruct z1 as [s|s| |s mz ez]; try discriminate; cbn [ulps] in *; try lia.
      destruct s; cbn [cond_Zopp] in *.
      * assert (Hle' : Z.pos M * 2 ^ (e0 - emin) <= Z.pos mz * 2 ^ (ez - emin)) by lia.
        destruct (Hhi mz ez Hv1 Hle') as [Hni _].
        destruct Hshape as [Hr|[Hr|(m & e & Hr & Hb)]]; rewrite Hr in *; try reflexivity.
        congruence.
      * pose proof (ulps_pos mz ez Hv1). lia.
Qed.

Lemma cond_Zopp_mul (s : bool) (a b : Z) : cond_Zopp s a * b = cond_Zopp s (a * b).
Proof. destruct s; simpl; lia. Qed.

Lemma aligned_ulps (s : bool) (m : positive) (e ez : Z) :
  emin <= ez -> ez <= e ->
  cond_Zopp s (Zpos (fst (shl_align m e ez))) * 2 ^ (ez - emin)
    = ulps (S754_finite s m e).
Proof.
  intros H1 H2. pose proof (shl_align_spec m e ez) as Hal.
  destruct (shl_align m e ez) as [mz ez']. destruct Hal as [Hez Hmz].
  cbn [fst ulps]. rewrite cond_Zopp_mul. f_equal.
  rewrite Hmz. replace ez' with ez by lia.
  rewrite (pow2_split e ez emin) by lia. lia.
Qed.

Lemma finite_emin (s : bool) (m : positive) (e : Z) :
  valid_binary (S754_finite s m e) = true -> emin <= e.
Proof. intros Hv. apply (bounded_spec m e Hv). Qed.

Lemma SFadd_rounds (x y : spec_float) :
  valid_binary x = true -> valid_binary y = true ->
  finite_sf x = true -> finite_sf y = true ->
  rounds (ulps x + ulps y) (SF64add x y).
Proof.
  intros Hvx Hvy Hfx Hfy.
  destruct x as [sx|sx| |sx mx ex], y as [sy|sy| |sy my ey]; try discriminate.
  - destruct sx, sy; apply (rounds_exact (S754_zero _)); reflexivity.
  - rewrite Z.add_0_l. apply (rounds_exact (S754_finite sy my ey)); assumption.
  - rewrite Z.add_0_r. apply (rounds_exact (S754_finite sx mx ex)); assumption.
  - pose proof (finite_emin sx mx ex Hvx). pose proof (finite_emin sy my ey Hvy).
    unfold SF64add, SFadd.
    rewrite <- (aligned_ulps sx mx ex (Z.min ex ey)) by lia.
    rewrite <- (aligned_ulps sy my ey (Z.min ex ey)) by lia.
    rewrite <- Z.mul_add_distr_r.
    apply binary_normalize_rounds. lia.
Qed.

Lemma SFsub_rounds (x y : spec_float) :
  valid_binary x = true -> valid_binary y = true ->
  finite_sf x = true -> finite_sf y = true ->
  rounds (ulps x - ulps y) (SF64sub x y).
Proof.
  intros Hvx Hvy Hfx Hfy.
  destruct x as [sx|sx| |sx mx ex], y as [sy|sy| |sy my ey]; try discriminate.
  - destruct sx, sy; apply (rounds_exact (S754_zero _)); reflexivity.
  - replace (ulps (S754_zero sx) - ulps (S754_finite sy my ey))
      with (ulps (S754_finite (negb sy) my ey))
      by (cbn [ulps]; destruct sy; cbn [negb cond_Zopp]; lia).
    apply (rounds_exact (S754_finite (negb sy) my ey)); [exact Hvy|reflexivity].
  - rewrite Z.sub_0_r. apply (rounds_exact (S754_finite sx mx ex)); assumption.
  - pose proof (finite_emin sx mx ex Hvx). pose proof (finite_emin sy my ey Hvy).
    unfold SF64sub, SFsub.
    rewrite <- (aligned_ulps sx mx ex (Z.min ex ey)) by lia.
    rewrite <- (aligned_ulps sy my ey (Z.min ex ey)) by lia.
    rewrite <- Z.mul_sub_distr_r.
    apply binary_normalize_rounds. lia.
Qed.

(** Comparison of finite numbers is comparison of their values. *)
Lemma SFcompare_ulps (x y : spec_float) :
  valid_binary x = true -> valid_binary y = true ->
  finite_sf x = true -> finite_sf y = true ->
  SFcompare x y = Some (ulps x ?= ulps y).
Proof.
  intros Hvx Hvy Hfx Hfy.
  assert (Hmag : forall m1 e1 m2 e2,
             bounded prec emax m1 e1 = true -> bounded prec emax m2 e2 = true ->
             match e1 ?= e2 with
             | Eq => Pos.compare_cont Eq m1 m2
             | Lt => Lt
             | Gt => Gt
             end = (Zpos m1 * 2 ^ (e1 - emin) ?= Zpos m2 * 2 ^ (e2 - emin))).
  { intros m1 e1 m2 e2 Hb1 Hb2.
    destruct (bounded_spec m1 e1 Hb1) as (_ & _ & Hemin1 & Hd1 & Hn1).
    destruct (bounded_spec m2 e2 Hb2) as (_ & _ & Hemin2 & Hd2 & Hn2).
    pose proof prec_pos.
    assert (Hlt : forall ma ea mb eb,
               emin <= ea -> ea < eb -> Zdigits2 (Zpos ma) <= prec ->
               Zdigits2 (Zpos mb) = prec ->
               Zpos ma * 2 ^ (ea - emin) < Zpos mb * 2 ^ (eb - emin)).
    { intros ma ea mb eb Ha Hab Hda Hdb.
      assert (Zpos ma < 2 ^ prec).
      { apply Z.lt_le_trans with (2 ^ Zdigits2 (Zpos ma)); [apply lt_pow2_digits; lia|].
        apply pow2_le. pose proof (Zdigits2_pos (Zpos ma) ltac:(lia)).
        pose proof (Z.log2_nonneg (Zpos ma)). lia. }
      assert (2 ^ (prec - 1) <= Zpos mb).
      { rewrite <- Hdb. apply pow2_digits_le. lia. }
      assert (Hpp : 2 ^ prec = 2 * 2 ^ (prec - 1)).
      { replace prec with (1 + (prec - 1)) at 1 by lia. rewrite pow2_add by lia. reflexivity. }
      assert (Heb : 2 ^ (eb - emin) = 2 ^ (eb - ea - 1) * 2 * 2 ^ (ea - emin)).
      { replace (eb - emin) with ((eb - ea - 1) + 1 + (ea - emin)) by lia.
        rewrite !pow2_add by lia. reflexivity. }
      assert (0 < 2 ^ (eb - ea - 1)) by (apply pow2_pos; lia).
      assert (0 < 2 ^ (ea - emin)) by (apply pow2_pos; lia).
      assert (0 < 2 ^ (prec - 1)) by (apply pow2_pos; lia).
      rewrite Heb.
      apply Z.lt_le_trans with (2 ^ prec * 2 ^ (ea - emin)); [nia|].
      rewrite Hpp.
      apply Z.le_trans with (Zpos mb * 2 * 2 ^ (ea - emin)); [nia|].
      assert (Zpos mb * 2 * 2 ^ (ea - emin) * 1
              <= Zpos mb * 2 * 2 ^ (ea - emin) * 2 ^ (eb - ea - 1)).
      { apply Z.mul_le_mono_nonneg_l; nia. }
      nia. }
    destruct (Z.compare_spec e1 e2) as [Heq|Hl|Hg].
    - subst e2. change (Pos.compare_cont Eq m1 m2) with (Pos.compare m1 m2).
      assert (0 < 2 ^ (e1 - emin)) by (apply pow2_pos; lia).
      destruct (Pos.compare_spec m1 m2) as [Hm|Hm|Hm]; symmetry.
      + subst m2. apply Z.compare_refl.
      + apply Z.compare_lt_iff. nia.
      + apply Z.compare_gt_iff. nia.
    - symmetry. apply Z.compare_lt_iff. apply Hlt; lia.
    - symmetry. apply Z.compare_gt_iff. apply Hlt; lia. }
  destruct x as [sx|sx| |sx mx ex], y as [sy|sy| |sy my ey]; try discriminate.
  - reflexivity.
  - pose proof (ulps_pos my ey Hvy). cbn [SFcompare ulps].
    destruct sy; cbn [cond_Zopp]; f_equal; symmetry;
      [apply Z.compare_gt_iff|apply Z.compare_lt_iff]; lia.
  - pose proof (ulps_pos mx ex Hvx). cbn [SFcompare ulps].
    destruct sx; cbn [cond_Zopp]; f_equal; symmetry;
      [apply Z.compare_lt_iff|apply Z.compare_gt_iff]; lia.
  - pose proof (ulps_pos mx ex Hvx). pose proof (ulps_pos my ey Hvy).
    cbn [SFcompare ulps].
    destruct sx, sy; cbn [cond_Zopp]; f_equal.
    + rewrite Z.compare_opp, <- (Hmag my ey mx ex Hvy Hvx), (Z.compare_antisym ex ey).
      destruct (ex ?= ey); simpl; try reflexivity.
      rewrite (Pos.compare_cont_antisym mx my Eq). reflexivity.
    + symmetry. apply Z.compare_lt_iff. lia.
    + symmetry. apply Z.compare_gt_iff. lia.
    + apply Hmag; assumption.
Qed.


Lemma nearest_exact (r : spec_float) : nearest (ulps r) r.
Proof. split; intros; lia. Qed.

Lemma binary_round_nearest (sx : bool) (M : positive) (e0 : Z) :
  emin <= e0 ->
  (forall (mz : positive) (ez : Z),
     bounded prec emax mz ez = true ->
     Zpos mz * 2 ^ (ez - emin) <= Zpos M * 2 ^ (e0 - emin) ->
     Zpos M * 2 ^ (e0 - emin) < magnitude emin (binary_round prec emax sx M e0) ->
     2 * (magnitude emin (binary_round prec emax sx M e0) - Zpos M * 2 ^ (e0 - emin))
     <= magnitude emin (binary_round prec emax sx M e0) - Zpos mz * 2 ^ (ez - emin)) /\
  (Zpos M * 2 ^ (e0 - emin) < magnitude emin (binary_round prec emax sx M e0) ->
   magnitude emin (binary_round prec emax sx M e0) <= 2 * (Zpos M * 2 ^ (e0 - emin))) /\
  (forall (mz : positive) (ez : Z),
     bounded prec emax mz ez = true ->
     Zpos M * 2 ^ (e0 - emin) <= Zpos mz * 2 ^ (ez - emin) ->
     magnitude emin (binary_round prec emax sx M e0) < Zpos M * 2 ^ (e0 - emin) ->
     2 * (Zpos M * 2 ^ (e0 - emin) - magnitude emin (binary_round prec emax sx M e0))
     <= Zpos mz * 2 ^ (ez - emin) - magnitude emin (binary_round prec emax sx M e0)).
Proof.
  intros He0. unfold binary_round.
  pose proof (shl_align_spec M e0 (fexp prec emax (Zpos (digits2_pos M) + e0))) as Hal.
  destruct (shl_align M e0 (fexp prec emax (Zpos (digits2_pos M) + e0))) as [mz ez].
  destruct Hal as [Hez Hmz].
  change (Z.pos (digits2_pos M)) with (Zdigits2 (Zpos M)) in *.
  pose proof (fexp_ge_emin (Zdigits2 (Zpos M) + e0)) as Hf.
  assert (HD : Zdigits2 (Zpos mz) + ez = Zdigits2 (Zpos M) + e0).
  { rewrite !Zdigits2_pos by lia. rewrite Hmz, log2_shift by lia. lia. }
  assert (Hval : Zpos mz * 2 ^ (ez - emin) = Zpos M * 2 ^ (e0 - emin)).
  { rewrite Hmz, (pow2_split e0 ez emin) by lia. lia. }
  rewrite <- Hval.
  apply round_aux_nearest; try lia.
  rewrite HD. lia.
Qed.

Lemma binary_normalize_nearest (N e0 : Z) (szero : bool) :
  emin <= e0 ->
  nearest (N * 2 ^ (e0 - emin)) (binary_normalize prec emax N e0 szero).
Proof.
  intros He0.
  assert (Hp : 0 < 2 ^ (e0 - emin)) by (apply pow2_pos; lia).
  destruct N as [|M|M]; unfold binary_normalize.
  - split; cbn [ulps]; intros; lia.
  - destruct (binary_round_monotone false M e0 He0) as (_ & _ & Hshape).
    destruct (binary_round_nearest false M e0 He0) as (Hup & Hdbl & Hdown).
    set (r := binary_round prec emax false M e0) in *.
    assert (Hr0 : finite_sf r = true -> ulps r = magnitude emin r /\ 0 <= ulps r).
    { destruct Hshape as [Hr|[Hr|(m & e & Hr & Hb)]]; rewrite Hr;
        cbn [finite_sf ulps magnitude cond_Zopp]; intros; lia. }
    split.
    + intros z Hv Hfz Hfr Hle Hlt. destruct (Hr0 Hfr) as [Hu Hnn]. rewrite Hu in *.
      specialize (Hdbl Hlt).
      destruct z as [s|s| |s mz ez]; try discriminate; cbn [ulps] in *; try lia.
      destruct s; cbn [cond_Zopp] in *.
      * pose proof (ulps_pos mz ez Hv). lia.
      * apply (Hup mz ez Hv Hle Hlt).
    + intros z Hv Hfz Hfr Hle Hlt. destruct (Hr0 Hfr) as [Hu Hnn]. rewrite Hu in *.
      destruct z as [s|s| |s mz ez]; try discriminate; cbn [ulps] in *; try lia.
      destruct s; cbn [cond_Zopp] in *.
      * pose proof (ulps_pos mz ez Hv). lia.
      * apply (Hdown mz ez Hv Hle Hlt).
  - destruct (binary_round_monotone true M e0 He0) as (_ & _ & Hshape).
    destruct (binary_round_nearest true M e0 He0) as (Hup & Hdbl & Hdown).
    set (r := binary_round prec emax true M e0) in *.
    assert (Hr0 : finite_sf r = true -> ulps r = - magnitude emin r /\ ulps r <= 0).
    { destruct Hshape as [Hr|[Hr|(m & e & Hr & Hb)]]; rewrite Hr;
        cbn [finite_sf ulps magnitude cond_Zopp]; intros; lia. }
    split.
    + intros z Hv Hfz Hfr Hle Hlt. destruct (Hr0 Hfr) as [Hu Hnn]. rewrite Hu in *.
      destruct z as [s|s| |s mz ez]; try discriminate; cbn [ulps] in *; try lia.
      destruct s; cbn [cond_Zopp] in *.
      * assert (Hle' : Z.pos M * 2 ^ (e0 - emin) <= Z.pos mz * 2 ^ (ez - emin)) by lia.
        assert (Hlt' : magnitude emin r < Z.pos M * 2 ^ (e0 - emin)) by lia.
        pose proof (Hdown mz ez Hv Hle' Hlt'). lia.
      * pose proof (ulps_pos mz ez Hv). lia.
    + intros z Hv Hfz Hfr Hle Hlt. destruct (Hr0 Hfr) as [Hu Hnn]. rewrite Hu in *.
      assert (Hlt' : Z.pos M * 2 ^ (e0 - emin) < magnitude emin r) by lia.
      specialize (Hdbl Hlt').
      destruct z as [s|s| |s mz ez]; try discriminate; cbn [ulps] in *; try lia.
      destruct s; cbn [cond_Zopp] in *.
      * assert (Hle' : Z.pos mz * 2 ^ (ez - emin) <= Z.pos M * 2 ^ (e0 - emin)) by lia.
        pose proof (Hup mz ez Hv Hle' Hlt'). lia.
      * pose proof (ulps_pos mz ez Hv). lia.
Qed.

Lemma SFadd_nearest (x y : spec_float) :
  valid_binary x = true -> valid_binary y = true ->
  finite_sf x = true -> finite_sf y = true ->
  nearest (ulps x + ulps y) (SF64add x y).
Proof.
  intros Hvx Hvy Hfx Hfy.
  destruct x as [sx|sx| |sx mx ex], y as [sy|sy| |sy my ey]; try discriminate.
  - destruct sx, sy; apply (nearest_exact (S754_zero _)).
  - rewrite Z.add_0_l. apply (nearest_exact (S754_finite sy my ey)).
  - rewrite Z.add_0_r. apply (nearest_exact (S754_finite sx mx ex)).
  - pose proof (finite_emin sx mx ex Hvx). pose proof (finite_emin sy my ey Hvy).
    unfold SF64add, SFadd.
    rewrite <- (aligned_ulps sx mx ex (Z.min ex ey)) by lia.
    rewrite <- (aligned_ulps sy my ey (Z.min ex ey)) by lia.
    rewrite <- Z.mul_add_distr_r.
    apply binary_normalize_nearest. lia.
Qed.


Lemma Prim2SF_fifth : Prim2SF 0.2 = fifth_sf.
Proof. reflexivity. Qed.

Lemma emin_le_top : emin <= emax - prec.
Proof. discriminate. Qed.

(** Every integer below [2^prec] is the value, in ulps, of a finite
    number, and so is its opposite. *)
Lemma small_representable (k : Z) (s : bool) :
  0 <= k < 2 ^ prec ->
  exists z, valid_binary z = true /\ finite_sf z = true /\ ulps z = cond_Zopp s k.
Proof.
  intros [Hk0 Hk]. destruct (Z.eq_dec k 0) as [->|Hne].
  - exists (S754_zero s). repeat split. destruct s; reflexivity.
  - exists (S754_finite s (Z.to_pos k) emin). split; [|split; [reflexivity|]].
    + unfold valid_binary, bounded, canonical_mantissa.
      change (Z.pos (digits2_pos ?p)) with (Zdigits2 (Zpos p)).
      rewrite Z2Pos.id by lia.
      apply andb_true_intro. split; [|apply Z.leb_le, emin_le_top].
      apply Z.eqb_eq. rewrite Zdigits2_pos by lia.
      assert (Z.log2 k < prec) by (apply Z.log2_lt_pow2; lia).
      unfold fexp. lia.
    + cbn [ulps]. rewrite Z2Pos.id by lia. rewrite Z.sub_diag, Z.pow_0_r, Z.mul_1_r.
      reflexivity.
Qed.

Lemma mantissa_lt (m : positive) (e : Z) :
  bounded prec emax m e = true -> Zpos m < 2 ^ prec.
Proof.
  intros Hb. destruct (bounded_spec m e Hb) as (_ & _ & _ & Hd & _).
  apply Z.lt_le_trans with (2 ^ Zdigits2 (Zpos m)); [apply lt_pow2_digits; lia|].
  apply pow2_le. pose proof (Zdigits2_pos (Zpos m) ltac:(lia)).
  pose proof (Z.log2_nonneg (Zpos m)). lia.
Qed.

Lemma halved_bounded (m : positive) (e : Z) :
  bounded prec emax m e = true -> emin < e -> bounded prec emax m (e - 1) = true.
Proof.
  intros Hb He. destruct (bounded_spec m e Hb) as (Hcan & Hemax & Hemin & Hd & Hn).
  unfold bounded, canonical_mantissa.
  change (Z.pos (digits2_pos m)) with (Zdigits2 (Zpos m)).
  apply andb_true_intro. split; [apply Z.eqb_eq|apply Z.leb_le; lia].
  rewrite (Hn He). unfold fexp. lia.
Qed.

(** A finite rounding [d] of [X] has the sign of [X], and some finite
    number [z] between 0 and [X] is at least half of it. *)
Lemma rounds_half (X : Z) (d : spec_float) :
  rounds X d -> finite_sf d = true ->
  exists z, valid_binary z = true /\ finite_sf z = true /\
            (0 <= X -> 0 <= ulps z <= X /\ 0 <= ulps d) /\
            (X <= 0 -> X <= ulps z <= 0 /\ ulps d <= 0) /\
            Z.abs (ulps d) <= 2 * Z.abs (ulps z).
Proof.
  intros (Hv & Hnan & Hlo & Hhi & Hfin) Hf.
  assert (Hzero : forall b, valid_binary (S754_zero b) = true /\ finite_sf (S754_zero b) = true)
    by (intros; split; reflexivity).
  destruct d as [sd|sd| |sd md ed]; try discriminate.
  - exists (S754_zero false). cbn [ulps]. repeat split; try reflexivity; lia.
  - pose proof (ulps_pos md ed Hv) as Hpos.
    pose proof (mantissa_lt md ed Hv) as Hmlt.
    destruct (bounded_spec md ed Hv) as (_ & _ & Hemin & _ & _).
    destruct sd.
    + (* negative *)
      assert (HX : X < 0).
      { destruct (Z_lt_le_dec X 0) as [Hl|Hg]; [exact Hl|exfalso].
        pose proof (Hlo (S754_zero false) eq_refl eq_refl Hg Hf) as H. cbn [ulps cond_Zopp] in H. lia. }
      destruct (Z.eq_dec ed emin) as [He|He].
      * exists (S754_finite true md ed). split; [exact Hv|]. split; [reflexivity|].
        assert (Hle : X <= ulps (S754_finite true md ed)).
        { destruct (Z_le_gt_dec X (ulps (S754_finite true md ed))) as [Hl|Hg]; [exact Hl|exfalso].
          cbn [ulps cond_Zopp] in Hg. rewrite He, Z.sub_diag, Z.pow_0_r, Z.mul_1_r in Hg.
          destruct (small_representable (Zpos md - 1) true ltac:(lia)) as (z & Hvz & Hfz & Hz).
          cbn [cond_Zopp] in Hz.
          pose proof (Hlo z Hvz Hfz ltac:(lia) Hf) as H. cbn [ulps cond_Zopp] in H.
          rewrite He, Z.sub_diag, Z.pow_0_r, Z.mul_1_r in H. lia. }
        cbn [ulps cond_Zopp] in *. repeat split; lia.
      * exists (S754_finite true md (ed - 1)).
        pose proof (halved_bounded md ed Hv ltac:(lia)) as Hvz.
        split; [exact Hvz|]. split; [reflexivity|].
        assert (Hdbl : 2 ^ (ed - emin) = 2 * 2 ^ (ed - 1 - emin)).
        { replace (ed - emin) with (1 + (ed - 1 - emin)) by lia. rewrite pow2_add by lia. reflexivity. }
        assert (Hle : X <= ulps (S754_finite true md (ed - 1))).
        { destruct (Z_le_gt_dec X (ulps (S754_finite true md (ed - 1)))) as [Hl|Hg];
            [exact Hl|exfalso].
          pose proof (Hlo (S754_finite true md (ed - 1)) Hvz eq_refl ltac:(lia) Hf) as H.
          cbn [ulps cond_Zopp] in H. lia. }
        cbn [ulps cond_Zopp] in *. repeat split; lia.
    + (* positive *)
      assert (HX : 0 < X).
      { destruct (Z_lt_le_dec 0 X) as [Hl|Hg]; [exact Hl|exfalso].
        pose proof (Hhi (S754_zero false) eq_refl eq_refl Hg Hf) as H. cbn [ulps cond_Zopp] in H. lia. }
      destruct (Z.eq_dec ed emin) as [He|He].
      * exists (S754_finite false md ed). split; [exact Hv|]. split; [reflexivity|].
        assert (Hle : ulps (S754_finite false md ed) <= X).
        { destruct (Z_le_gt_dec (ulps (S754_finite false md ed)) X) as [Hl|Hg]; [exact Hl|exfalso].
          cbn [ulps cond_Zopp] in Hg. rewrite He, Z.sub_diag, Z.pow_0_r, Z.mul_1_r in Hg.
          destruct (small_representable (Zpos md - 1) false ltac:(lia)) as (z & Hvz & Hfz & Hz).
          cbn [cond_Zopp] in Hz.
          pose proof (Hhi z Hvz Hfz ltac:(lia) Hf) as H. cbn [ulps cond_Zopp] in H.
          rewrite He, Z.sub_diag, Z.pow_0_r, Z.mul_1_r in H. lia. }
        cbn [ulps cond_Zopp] in *. repeat split; lia.
      * exists (S754_finite false md (ed - 1)).
        pose proof (halved_bounded md ed Hv ltac:(lia)) as Hvz.
        split; [exact Hvz|]. split; [reflexivity|].
        assert (Hdbl : 2 ^ (ed - emin) = 2 * 2 ^ (ed - 1 - emin)).
        { replace (ed - emin) with (1 + (ed - 1 - emin)) by lia. rewrite pow2_add by lia. reflexivity. }
        assert (Hle : ulps (S754_finite false md (ed - 1)) <= X).
        { destruct (Z_le_gt_dec (ulps (S754_finite false md (ed - 1))) X) as [Hl|Hg];
            [exact Hl|exfalso].
          pose proof (Hhi (S754_finite false md (ed - 1)) Hvz eq_refl ltac:(lia) Hf) as H.
          cbn [ulps cond_Zopp] in H. lia. }
        cbn [ulps cond_Zopp] in *. repeat split; lia.
Qed.

(** A fifth of [d], rounded, is no larger than any finite [z] that is at
    least half of [d], and has the sign of [d]. *)
Lemma SFmul_fifth_le (d z : spec_float) :
  valid_binary d = true -> finite_sf d = true ->
  valid_binary z = true -> finite_sf z = true ->
  Z.abs (ulps d) <= 2 * Z.abs (ulps z) ->
  valid_binary (SF64mul d fifth_sf) = true /\
  finite_sf (SF64mul d fifth_sf) = true /\
  Z.abs (ulps (SF64mul d fifth_sf)) <= Z.abs (ulps z) /\
  (0 <= ulps d -> 0 <= ulps (SF64mul d fifth_sf)) /\
  (ulps d <= 0 -> ulps (SF64mul d fifth_sf) <= 0).
Proof.
  intros Hvd Hfd Hvz Hfz Hle.
  destruct d as [sd|sd| |sd md ed]; try discriminate.
  - cbn. repeat split; try reflexivity; lia.
  - pose proof (ulps_pos md ed Hvd) as Hdpos.
    destruct (bounded_spec md ed Hvd) as (_ & _ & Hemin & _ & _).
    destruct z as [sz|sz| |sz mz ez]; try discriminate.
    { exfalso. cbn [ulps] in Hle. destruct sd; cbn [cond_Zopp] in Hle; lia. }
    pose proof (ulps_pos mz ez Hvz) as Hzpos.
    destruct (bounded_spec mz ez Hvz) as (_ & _ & Hzmin & _ & _).
    unfold SF64mul, SFmul, fifth_sf.
    set (m2 := 7205759403792794%positive).
    set (r := binary_round_aux prec emax (xorb sd false) (Z.pos (md * m2))
                (ed + -55) loc_Exact).
    assert (Hm2 : 2 * Zpos m2 <= 2 ^ 55) by (vm_compute; discriminate).
    assert (Hlog2 : Z.log2 (Zpos m2) = 52) by reflexivity.
    assert (Hdig : prec <= Zdigits2 (Zpos (md * m2))).
    { rewrite Zdigits2_pos by lia.
      assert (Z.log2 (Zpos m2) <= Z.log2 (Zpos (md * m2))).
      { apply Z.log2_le_mono. rewrite Pos2Z.inj_mul. nia. }
      change prec with 53. lia. }
    destruct (round_aux_monotone (xorb sd false) (Zpos (md * m2)) (ed + -55) (emin - 55))
      as (_ & Hhi & Hshape); try lia.
    { unfold fexp. lia. }
    fold r in Hhi, Hshape.
    assert (Hprod : Zpos (md * m2) * 2 ^ (ed + -55 - (emin - 55))
                    <= Zpos mz * 2 ^ (ez - (emin - 55))).
    { replace (ed + -55 - (emin - 55)) with (ed - emin) by lia.
      replace (ez - (emin - 55)) with ((ez - emin) + 55) by lia.
      rewrite pow2_add by lia. rewrite Pos2Z.inj_mul.
      assert (Hd : Zpos md * 2 ^ (ed - emin) <= 2 * (Zpos mz * 2 ^ (ez - emin))).
      { cbn [ulps] in Hle. destruct sd, sz; cbn [cond_Zopp] in Hle; lia. }
      nia. }
    destruct (Hhi mz ez Hvz Hprod) as [Hninf Hmag].
    assert (Habs : Z.abs (ulps (S754_finite sz mz ez)) = Zpos mz * 2 ^ (ez - emin)).
    { cbn [ulps]. destruct sz; cbn [cond_Zopp]; lia. }
    rewrite Habs.
    destruct Hshape as [Hr|[Hr|(m & e & Hr & Hb)]]; [| congruence |].
    + rewrite Hr. cbn. repeat split; try reflexivity; lia.
    + rewrite Hr in *. pose proof (ulps_pos m e Hb) as Hppos.
      destruct (bounded_spec m e Hb) as (_ & _ & Hpmin & _ & _).
      cbn [magnitude] in Hmag.
      replace (e - (emin - 55)) with ((e - emin) + 55) in Hmag by lia.
      replace (ez - (emin - 55)) with ((ez - emin) + 55) in Hmag by lia.
      rewrite !pow2_add in Hmag by lia.
      assert (H55 : 0 < 2 ^ 55) by (apply pow2_pos; lia).
      assert (Hple : Zpos m * 2 ^ (e - emin) <= Zpos mz * 2 ^ (ez - emin)) by nia.
      split; [exact Hb|]. split; [reflexivity|].
      cbn [ulps]. destruct sd; cbn [xorb cond_Zopp]; repeat split; lia.
Qed.

(** Shoulders, hips and the anchor of a dress at the level of the
    specification. *)
Lemma dress_height_between_sf (s h : spec_float) :
  valid_binary s = true -> valid_binary h = true ->
  finite_sf s = true -> finite_sf h = true ->
  finite_sf (SF64sub h s) = true ->
  valid_binary (SF64add s (SF64mul (SF64sub h s) fifth_sf)) = true /\
  finite_sf (SF64add s (SF64mul (SF64sub h s) fifth_sf)) = true /\
  (ulps s <= ulps h ->
   ulps s <= ulps (SF64add s (SF64mul (SF64sub h s) fifth_sf)) <= ulps h) /\
  (ulps h <= ulps s ->
   ulps h <= ulps (SF64add s (SF64mul (SF64sub h s) fifth_sf)) <= ulps s).
Proof.
  intros Hvs Hvh Hfs Hfh Hfd.
  pose proof (SFsub_rounds h s Hvh Hvs Hfh Hfs) as Hd.
  destruct (rounds_half _ _ Hd Hfd) as (z & Hvz & Hfz & Hpos & Hneg & Hhalf).
  destruct Hd as (Hvd & _).
  destruct (SFmul_fifth_le _ z Hvd Hfd Hvz Hfz Hhalf) as (Hvp & Hfp & Hple & Hppos & Hpneg).
  set (p := SF64mul (SF64sub h s) fifth_sf) in *.
  destruct (SFadd_rounds s p Hvs Hvp Hfs Hfp) as (Hva & _ & Hlo & Hhi & Hfin).
  set (a := SF64add s p) in *.
  assert (Hbetween : (ulps s <= ulps s + ulps p <= ulps h) \/
                     (ulps h <= ulps s + ulps p <= ulps s)).
  { destruct (Z_le_gt_dec (ulps s) (ulps h)) as [Hle|Hgt].
    - left. destruct (Hpos ltac:(lia)) as [Hz Hd0]. specialize (Hppos Hd0). lia.
    - right. destruct (Hneg ltac:(lia)) as [Hz Hd0]. specialize (Hpneg Hd0). lia. }
  assert (Hfa : finite_sf a = true).
  { destruct Hbetween as [Hb|Hb].
    - apply (Hfin s h); assumption.
    - apply (Hfin h s); assumption. }
  split; [exact Hva|]. split; [exact Hfa|]. split.
  - intros Hle. destruct (Hpos ltac:(lia)) as [Hz Hd0]. specialize (Hppos Hd0).
    split; [apply (Hlo s)|apply (Hhi h)]; try assumption; lia.
  - intros Hle. destruct (Hneg ltac:(lia)) as [Hz Hd0]. specialize (Hpneg Hd0).
    split; [apply (Hlo h)|apply (Hhi s)]; try assumption; lia.
Qed.

Lemma is_finite_sf (x : float) : is_finite x = finite_sf (Prim2SF x).
Proof.
  unfold is_finite, is_infinity. rewrite is_nan_spec, eqb_spec, abs_spec.
  change (Prim2SF infinity) with (S754_infinity false).
  destruct (Prim2SF x) as [s|s| |s m e]; reflexivity.
Qed.

Lemma leb_ulps (x y : float) :
  is_finite x = true -> is_finite y = true ->
  (x <=? y)%float = (ulps (Prim2SF x) <=? ulps (Prim2SF y)).
Proof.
  intros Hx Hy. rewrite is_finite_sf in Hx, Hy.
  rewrite leb_spec. unfold SFleb.
  rewrite (SFcompare_ulps _ _ (Prim2SF_valid x) (Prim2SF_valid y) Hx Hy).
  unfold Z.leb. destruct (ulps (Prim2SF x) ?= ulps (Prim2SF y)); reflexivity.
Qed.

Lemma dress_height_between (s h : float) :
  is_finite s = true -> is_finite h = true -> is_finite (h - s) = true ->
  is_finite (s + (h - s) * 0.2) = true /\
  ((s <=? h)%float = true ->
   (s <=? s + (h - s) * 0.2)%float = true /\ (s + (h - s) * 0.2 <=? h)%float = true) /\
  ((h <=? s)%float = true ->
   (h <=? s + (h - s) * 0.2)%float = true /\ (s + (h - s) * 0.2 <=? s)%float = true).
Proof.
  intros Hs Hh Hd.
  assert (Ha : Prim2SF (s + (h - s) * 0.2)
               = SF64add (Prim2SF s) (SF64mul (SF64sub (Prim2SF h) (Prim2SF s)) fifth_sf)).
  { rewrite add_spec, mul_spec, sub_spec, Prim2SF_fifth. reflexivity. }
  pose proof Hs as Hs'. pose proof Hh as Hh'.
  rewrite is_finite_sf in Hs', Hh'. rewrite is_finite_sf, sub_spec in Hd.
  destruct (dress_height_between_sf (Prim2SF s) (Prim2SF h) (Prim2SF_valid s)
              (Prim2SF_valid h) Hs' Hh' Hd) as (_ & Hfa & Hup & Hdown).
  rewrite <- Ha in Hfa, Hup, Hdown.
  assert (Hfa' : is_finite (s + (h - s) * 0.2) = true) by (rewrite is_finite_sf; exact Hfa).
  split; [exact Hfa'|]. split.
  - intros Hle. rewrite leb_ulps in Hle by assumption. apply Z.leb_le in Hle.
    rewrite !leb_ulps by assumption. split; apply Z.leb_le; apply Hup; exact Hle.
  - intros Hle. rewrite leb_ulps in Hle by assumption. apply Z.leb_le in Hle.
    rewrite !leb_ulps by assumption. split; apply Z.leb_le; apply Hdown; exact Hle.
Qed.

(** A finite rounding [d] of [X] is zero only if [X] is, has the sign of
    [X], and is less than twice [X] in magnitude. *)
Lemma rounds_size (X : Z) (sd : bool) (md : positive) (ed : Z) :
  rounds X (S754_finite sd md ed) ->
  (if sd then X < 0 else 0 < X) /\
  Zpos md * 2 ^ (ed - emin) < 2 * Z.abs X /\
  (ed = emin -> Zpos md <= Z.abs X).
Proof.
  intros (Hv & Hnan & Hlo & Hhi & Hfin).
  pose proof (ulps_pos md ed Hv) as Hpos.
  pose proof (mantissa_lt md ed Hv) as Hmlt.
  destruct (bounded_spec md ed Hv) as (_ & _ & Hemin & _ & _).
  assert (Hsign : if sd then X < 0 else 0 < X).
  { destruct sd.
    - destruct (Z_lt_le_dec X 0) as [Hl|Hg]; [exact Hl|exfalso].
      pose proof (Hlo (S754_zero false) eq_refl eq_refl Hg eq_refl) as H.
      cbn [ulps cond_Zopp] in H. lia.
    - destruct (Z_lt_le_dec 0 X) as [Hl|Hg]; [exact Hl|exfalso].
      pose proof (Hhi (S754_zero false) eq_refl eq_refl Hg eq_refl) as H.
      cbn [ulps cond_Zopp] in H. lia. }
  split; [exact Hsign|].
  assert (Hlow : ed = emin -> Zpos md <= Z.abs X).
  { intros He. subst ed. rewrite Z.sub_diag, Z.pow_0_r, Z.mul_1_r in *.
    destruct sd.
    + destruct (small_representable (Zpos md - 1) true ltac:(lia)) as (z & Hvz & Hfz & Hz).
      cbn [cond_Zopp] in Hz.
      destruct (Z_le_gt_dec X (- Zpos md)) as [Hl|Hg]; [lia|exfalso].
      pose proof (Hlo z Hvz Hfz ltac:(lia) eq_refl) as H. cbn [ulps cond_Zopp] in H.
      rewrite Z.sub_diag, Z.pow_0_r, Z.mul_1_r in H. lia.
    + destruct (small_representable (Zpos md - 1) false ltac:(lia)) as (z & Hvz & Hfz & Hz).
      cbn [cond_Zopp] in Hz.
      destruct (Z_le_gt_dec (Zpos md) X) as [Hl|Hg]; [lia|exfalso].
      pose proof (Hhi z Hvz Hfz ltac:(lia) eq_refl) as H. cbn [ulps cond_Zopp] in H.
      rewrite Z.sub_diag, Z.pow_0_r, Z.mul_1_r in H. lia. }
  split; [|exact Hlow].
  destruct (Z.eq_dec ed emin) as [He|He].
  - specialize (Hlow He). subst ed. rewrite Z.sub_diag, Z.pow_0_r, Z.mul_1_r. lia.
  - pose proof (halved_bounded md ed Hv ltac:(lia)) as Hvz.
    assert (Hdbl : 2 ^ (ed - emin) = 2 * 2 ^ (ed - 1 - emin)).
    { replace (ed - emin) with (1 + (ed - 1 - emin)) by lia. rewrite pow2_add by lia. reflexivity. }
    pose proof (ulps_pos md (ed - 1) Hvz) as Hzpos.
    destruct sd.
    + destruct (Z_le_gt_dec X (ulps (S754_finite true md (ed - 1)))) as [Hl|Hg].
      * cbn [ulps cond_Zopp] in Hl.
        destruct (Z.eq_dec (- (Zpos md * 2 ^ (ed - 1 - emin))) X) as [Heq|Hne]; [exfalso|lia].
        pose proof (Hlo (S754_finite true md (ed - 1)) Hvz eq_refl ltac:(cbn [ulps cond_Zopp]; lia)
                      eq_refl) as H.
        cbn [ulps cond_Zopp] in H. lia.
      * exfalso.
        pose proof (Hlo (S754_finite true md (ed - 1)) Hvz eq_refl ltac:(lia) eq_refl) as H.
        cbn [ulps cond_Zopp] in H. lia.
    + destruct (Z_le_gt_dec (ulps (S754_finite false md (ed - 1))) X) as [Hl|Hg].
      * cbn [ulps cond_Zopp] in Hl.
        destruct (Z.eq_dec (Zpos md * 2 ^ (ed - 1 - emin)) X) as [Heq|Hne]; [exfalso|lia].
        pose proof (Hhi (S754_finite false md (ed - 1)) Hvz eq_refl ltac:(cbn [ulps cond_Zopp]; lia)
                      eq_refl) as H.
        cbn [ulps cond_Zopp] in H. lia.
      * exfalso.
        pose proof (Hhi (S754_finite false md (ed - 1)) Hvz eq_refl ltac:(lia) eq_refl) as H.
        cbn [ulps cond_Zopp] in H. lia.
Qed.

(** The product of a finite [d] by [0.2], rounded, is no larger in
    magnitude than any finite [z] above the exact product, and has the sign
    of [d]. *)
Lemma SFmul_fifth_bound (d z : spec_float) :
  valid_binary d = true -> finite_sf d = true ->
  valid_binary z = true -> finite_sf z = true ->
  Z.abs (ulps d) * 7205759403792794 <= Z.abs (ulps z) * 2 ^ 55 ->
  Z.abs (ulps (SF64mul d fifth_sf)) <= Z.abs (ulps z).
Proof.
  intros Hvd Hfd Hvz Hfz Hle.
  destruct d as [sd|sd| |sd md ed]; try discriminate.
  - cbn. lia.
  - pose proof (ulps_pos md ed Hvd) as Hdpos.
    destruct (bounded_spec md ed Hvd) as (_ & _ & Hemin & _ & _).
    destruct z as [sz|sz| |sz mz ez]; try discriminate.
    { exfalso. cbn [ulps] in Hle. destruct sd; cbn [cond_Zopp] in Hle; lia. }
    pose proof (ulps_pos mz ez Hvz) as Hzpos.
    destruct (bounded_spec mz ez Hvz) as (_ & _ & Hzmin & _ & _).
    unfold SF64mul, SFmul, fifth_sf.
    set (m2 := 7205759403792794%positive) in *.
    set (r := binary_round_aux prec emax (xorb sd false) (Z.pos (md * m2))
                (ed + -55) loc_Exact).
    assert (Hlog2 : Z.log2 (Zpos m2) = 52) by reflexivity.
    assert (Hdig : prec <= Zdigits2 (Zpos (md * m2))).
    { rewrite Zdigits2_pos by lia.
      assert (Z.log2 (Zpos m2) <= Z.log2 (Zpos (md * m2))).
      { apply Z.log2_le_mono. rewrite Pos2Z.inj_mul. nia. }
      change prec with 53. lia. }
    destruct (round_aux_monotone (xorb sd false) (Zpos (md * m2)) (ed + -55) (emin - 55))
      as (_ & Hhi & Hshape); try lia.
    { unfold fexp. lia. }
    fold r in Hhi, Hshape.
    assert (Hprod : Zpos (md * m2) * 2 ^ (ed + -55 - (emin - 55))
                    <= Zpos mz * 2 ^ (ez - (emin - 55))).
    { replace (ed + -55 - (emin - 55)) with (ed - emin) by lia.
      replace (ez - (emin - 55)) with ((ez - emin) + 55) by lia.
      rewrite pow2_add by lia. rewrite Pos2Z.inj_mul.
      cbn [ulps] in Hle. destruct sd, sz; cbn [cond_Zopp] in Hle;
        rewrite ?Z.abs_opp, !Z.abs_eq in Hle by lia;
        change (Zpos m2) with 7205759403792794; nia. }
    destruct (Hhi mz ez Hvz Hprod) as [Hninf Hmag].
    assert (Habs : Z.abs (ulps (S754_finite sz mz ez)) = Zpos mz * 2 ^ (ez - emin)).
    { cbn [ulps]. destruct sz; cbn [cond_Zopp]; lia. }
    rewrite Habs.
    destruct Hshape as [Hr|[Hr|(m & e & Hr & Hb)]]; [| congruence |].
    + rewrite Hr. cbn [ulps]. lia.
    + rewrite Hr in *. pose proof (ulps_pos m e Hb) as Hppos.
      destruct (bounded_spec m e Hb) as (_ & _ & Hpmin & _ & _).
      cbn [magnitude] in Hmag.
      replace (e - (emin - 55)) with ((e - emin) + 55) in Hmag by lia.
      replace (ez - (emin - 55)) with ((ez - emin) + 55) in Hmag by lia.
      rewrite !pow2_add in Hmag by lia.
      assert (H55 : 0 < 2 ^ 55) by (apply pow2_pos; lia).
      assert (Hple : Zpos m * 2 ^ (e - emin) <= Zpos mz * 2 ^ (ez - emin)) by nia.
      cbn [ulps]. destruct (xorb sd false); cbn [cond_Zopp]; lia.
Qed.

(** A fifth of a subnormal of at most 25 ulps. *)
Lemma tiny_fifth (sd : bool) (md : positive) :
  Zpos md <= 25 ->
  2 * Z.abs (ulps (SF64mul (S754_finite sd md emin) fifth_sf)) < Zpos md.
Proof.
  intros Hle.
  repeat match goal with
         | p : positive |- _ => destruct p as [p|p|]; try (exfalso; lia)
         end;
    destruct sd; vm_compute; reflexivity.
Qed.

(** The 20% step is less than half the difference it was computed from. *)
Lemma fifth_step_small (X : Z) (d : spec_float) :
  rounds X d -> finite_sf d = true -> X <> 0 ->
  2 * Z.abs (ulps (SF64mul d fifth_sf)) < Z.abs X.
Proof.
  intros Hd Hfd HX.
  destruct d as [sd|sd| |sd md ed]; try discriminate.
  - cbn. lia.
  - destruct (rounds_size X sd md ed Hd) as (Hsign & Hsz & Hlow).
    destruct Hd as (Hv & _).
    pose proof (ulps_pos md ed Hv) as Hpos.
    pose proof (mantissa_lt md ed Hv) as Hmlt.
    destruct (bounded_spec md ed Hv) as (_ & _ & Hemin & Hdig & Hnorm).
    assert (Habs : Z.abs (ulps (S754_finite sd md ed)) = Zpos md * 2 ^ (ed - emin)).
    { cbn [ulps]. destruct sd; cbn [cond_Zopp]; lia. }
    assert (H55 : 2 ^ 55 = 36028797018963968) by reflexivity.
    destruct (Z_le_gt_dec (emin + 2) ed) as [Hbig|Hsmall].
    + (* a quarter of [d] is representable *)
      pose proof (halved_bounded md ed Hv ltac:(lia)) as Hv1.
      pose proof (halved_bounded md (ed - 1) Hv1 ltac:(lia)) as Hv2.
      replace (ed - 1 - 1) with (ed - 2) in Hv2 by lia.
      pose proof (ulps_pos md (ed - 2) Hv2) as Hqpos.
      assert (Hquarter : 2 ^ (ed - emin) = 4 * 2 ^ (ed - 2 - emin)).
      { replace (ed - emin) with (2 + (ed - 2 - emin)) by lia.
        rewrite pow2_add by lia. reflexivity. }
      assert (Hzabs : Z.abs (ulps (S754_finite sd md (ed - 2))) = Zpos md * 2 ^ (ed - 2 - emin)).
      { cbn [ulps]. destruct sd; cbn [cond_Zopp]; lia. }
      pose proof (SFmul_fifth_bound (S754_finite sd md ed) (S754_finite sd md (ed - 2))
                    Hv eq_refl Hv2 eq_refl) as Hp.
      rewrite Habs, Hzabs, H55 in Hp.
      assert (Hple : Z.abs (ulps (SF64mul (S754_finite sd md ed) fifth_sf))
                     <= Zpos md * 2 ^ (ed - 2 - emin)) by (apply Hp; nia).
      nia.
    + (* [d] is below [2^(prec+1)] ulps *)
      set (D := Zpos md * 2 ^ (ed - emin)) in *.
      assert (HD : D < 2 ^ (prec + 1)).
      { unfold D. assert (Hp1 : 2 ^ (ed - emin) <= 2 ^ 1) by (apply pow2_le; lia).
        change (2 ^ 1) with 2 in Hp1.
        replace (2 ^ (prec + 1)) with (2 ^ prec * 2) by reflexivity.
        apply Z.le_lt_trans with (Zpos md * 2); [apply Z.mul_le_mono_nonneg_l; lia|lia]. }
      change (2 ^ (prec + 1)) with 18014398509481984 in HD.
      destruct (Z_le_gt_dec 26 D) as [Hge|Hlt].
      * set (k := 27 * D / 128 + 1).
        pose proof (Z.mul_div_le (27 * D) 128 ltac:(lia)) as Hk1.
        pose proof (Z.mul_succ_div_gt (27 * D) 128 ltac:(lia)) as Hk2.
        assert (Hk : 0 <= k < 2 ^ prec).
        { change (2 ^ prec) with 9007199254740992. unfold k. lia. }
        destruct (small_representable k false Hk) as (z & Hvz & Hfz & Hz).
        cbn [cond_Zopp] in Hz.
        pose proof (SFmul_fifth_bound (S754_finite sd md ed) z Hv eq_refl Hvz Hfz) as Hp.
        rewrite Habs, Hz, H55 in Hp. fold D in Hp.
        assert (Hple : Z.abs (ulps (SF64mul (S754_finite sd md ed) fifth_sf)) <= Z.abs k)
          by (apply Hp; unfold k; lia).
        unfold k in Hple. lia.
      * assert (He : ed = emin).
        { destruct (Z.eq_dec ed emin) as [He|He]; [exact He|exfalso].
          assert (Hd53 : Zdigits2 (Zpos md) = prec) by (apply Hnorm; lia).
          pose proof (pow2_digits_le (Zpos md) ltac:(lia)) as Hge.
          rewrite Hd53 in Hge. change (2 ^ (prec - 1)) with 4503599627370496 in Hge.
          assert (1 <= 2 ^ (ed - emin)) by (pose proof (pow2_pos (ed - emin) ltac:(lia)); lia).
          unfold D in Hlt. nia. }
        specialize (Hlow He). subst ed.
        unfold D in Hlt. rewrite Z.sub_diag, Z.pow_0_r, Z.mul_1_r in Hlt.
        pose proof (tiny_fifth sd md ltac:(lia)). lia.
Qed.

(** Adding the 20% step to [s] never reaches [h], unless [h] is [s]. *)
Lemma dress_height_strict_sf (s h : spec_float) :
  valid_binary s = true -> valid_binary h = true ->
  finite_sf s = true -> finite_sf h = true ->
  finite_sf (SF64sub h s) = true ->
  (ulps s < ulps h ->
   ulps (SF64add s (SF64mul (SF64sub h s) fifth_sf)) < ulps h) /\
  (ulps h < ulps s ->
   ulps h < ulps (SF64add s (SF64mul (SF64sub h s) fifth_sf))).
Proof.
  intros Hvs Hvh Hfs Hfh Hfd.
  destruct (dress_height_between_sf s h Hvs Hvh Hfs Hfh Hfd) as (Hva & Hfa & Hup & Hdown).
  pose proof (SFsub_rounds h s Hvh Hvs Hfh Hfs) as Hd.
  pose proof (fifth_step_small _ _ Hd Hfd) as Hsmall.
  destruct (rounds_half _ _ Hd Hfd) as (z & Hvz & Hfz & Hpos & Hneg & Hhalf).
  destruct Hd as (Hvd & _).
  destruct (SFmul_fifth_le _ z Hvd Hfd Hvz Hfz Hhalf) as (Hvp & Hfp & Hple & Hppos & Hpneg).
  set (p := SF64mul (SF64sub h s) fifth_sf) in *.
  destruct (SFadd_nearest s p Hvs Hvp Hfs Hfp) as (Hnup & Hndown).
  set (a := SF64add s p) in *.
  split.
  - intros Hlt. specialize (Hsmall ltac:(lia)).
    destruct (Hpos ltac:(lia)) as [_ Hd0]. specialize (Hppos Hd0).
    destruct (Hup ltac:(lia)) as [Hlo Hhi].
    destruct (Z.eq_dec (ulps a) (ulps h)) as [Heq|Hne]; [exfalso|lia].
    pose proof (Hnup s Hvs Hfs Hfa ltac:(lia) ltac:(lia)). lia.
  - intros Hlt. specialize (Hsmall ltac:(lia)).
    destruct (Hneg ltac:(lia)) as [_ Hd0]. specialize (Hpneg Hd0).
    destruct (Hdown ltac:(lia)) as [Hlo Hhi].
    destruct (Z.eq_dec (ulps a) (ulps h)) as [Heq|Hne]; [exfalso|lia].
    pose proof (Hndown s Hvs Hfs Hfa ltac:(lia) ltac:(lia)). lia.
Qed.

Lemma ltb_ulps (x y : float) :
  is_finite x = true -> is_finite y = true ->
  (x <? y)%float = (ulps (Prim2SF x) <? ulps (Prim2SF y)).
Proof.
  intros Hx Hy. rewrite is_finite_sf in Hx, Hy.
  rewrite ltb_spec. unfold SFltb.
  rewrite (SFcompare_ulps _ _ (Prim2SF_valid x) (Prim2SF_valid y) Hx Hy).
  unfold Z.ltb. destruct (ulps (Prim2SF x) ?= ulps (Prim2SF y)); reflexivity.
Qed.

Lemma eqb_ulps (x y : float) :
  is_finite x = true -> is_finite y = true ->
  (x =? y)%float = (ulps (Prim2SF x) =? ulps (Prim2SF y)).
Proof.
  intros Hx Hy. rewrite is_finite_sf in Hx, Hy.
  rewrite eqb_spec. unfold SFeqb.
  rewrite (SFcompare_ulps _ _ (Prim2SF_valid x) (Prim2SF_valid y) Hx Hy).
  unfold Z.eqb.
  destruct (Z.compare_spec (ulps (Prim2SF x)) (ulps (Prim2SF y))) as [H|H|H].
  - rewrite H. destruct (ulps (Prim2SF y)); simpl;
      rewrite ?Pos.eqb_refl; reflexivity.
  - destruct (ulps (Prim2SF x)), (ulps (Prim2SF y)); try reflexivity; try lia;
      symmetry; apply Pos.eqb_neq; lia.
  - destruct (ulps (Prim2SF x)), (ulps (Prim2SF y)); try reflexivity; try lia;
      symmetry; apply Pos.eqb_neq; lia.
Qed.

(** The dress anchor's height never reaches the hip centre's, unless the
    hip centre is at the shoulder centre's height. *)
Lemma dress_height_strict (s h : float) :
  is_finite s = true -> is_finite h = true -> is_finite (h - s) = true ->
  ((s <? h)%float = true -> (s + (h - s) * 0.2 <? h)%float = true) /\
  ((h <? s)%float = true -> (h <? s + (h - s) * 0.2)%float = true).
Proof.
  intros Hs Hh Hd.
  destruct (dress_height_between s h Hs Hh Hd) as (Hfa & _).
  assert (Ha : Prim2SF (s + (h - s) * 0.2)
               = SF64add (Prim2SF s) (SF64mul (SF64sub (Prim2SF h) (Prim2SF s)) fifth_sf)).
  { rewrite add_spec, mul_spec, sub_spec, Prim2SF_fifth. reflexivity. }
  pose proof Hs as Hs'. pose proof Hh as Hh'.
  rewrite is_finite_sf in Hs', Hh'. rewrite is_finite_sf, sub_spec in Hd.
  destruct (dress_height_strict_sf (Prim2SF s) (Prim2SF h) (Prim2SF_valid s)
              (Prim2SF_valid h) Hs' Hh' Hd) as (Hup & Hdown).
  rewrite <- Ha in Hup, Hdown.
  split; intros Hlt; rewrite ltb_ulps in Hlt by assumption; apply Z.ltb_lt in Hlt;
    rewrite ltb_ulps by assumption; apply Z.ltb_lt; auto.
Qed.

(** The dress anchor's height is strictly between the two centres'
    heights exactly when it is not the shoulder centre's. *)
Lemma dress_height_strictly_between (s h : float) :
  is_finite s = true -> is_finite h = true -> is_finite (h - s) = true ->
  strictlyBetween s h (s + (h - s) * 0.2) = negb (s + (h - s) * 0.2 =? s)%float.
Proof.
  intros Hs Hh Hd.
  destruct (dress_height_between s h Hs Hh Hd) as (Ha & Hup & Hdown).
  destruct (dress_height_strict s h Hs Hh Hd) as (Hsup & Hsdown).
  unfold strictlyBetween.
  rewrite !leb_ulps in Hup, Hdown by assumption.
  rewrite !ltb_ulps in Hsup, Hsdown by assumption.
  rewrite !ltb_ulps, eqb_ulps by assumption.
  set (S := ulps (Prim2SF s)) in *. set (H := ulps (Prim2SF h)) in *.
  set (A := ulps (Prim2SF (s + (h - s) * 0.2))) in *.
  rewrite !Z.leb_le in Hup, Hdown. rewrite !Z.ltb_lt in Hsup, Hsdown.
  destruct (Z.ltb_spec S A), (Z.ltb_spec A H), (Z.ltb_spec H A), (Z.ltb_spec A S),
    (Z.eqb_spec A S); simpl; try reflexivity; exfalso; lia.
Qed.

Lemma leb_total (x y : float) :
  is_finite x = true -> is_finite y = true ->
  (x <=? y)%float = true \/ (y <=? x)%float = true.
Proof.
  intros Hx Hy. rewrite !leb_ulps by assumption.
  destruct (Z.le_ge_cases (ulps (Prim2SF x)) (ulps (Prim2SF y))) as [H|H];
    [left|right]; apply Z.leb_le; exact H.
Qed.

End Binary64.

(** ** The scale floor of [updateItemTransform] *)

Lemma negative_cases (d : float) :
  (d <? 0)%float = true ->
  Prim2SF d = S754_infinity true \/ exists m e, Prim2SF d = S754_finite true m e.
Proof.
  rewrite ltb_spec. change (Prim2SF 0) with (S754_zero false). unfold SFltb.
  destruct (Prim2SF d) as [s|s| |s m e]; simpl; try discriminate.
  - destruct s; [left; reflexivity|discriminate].
  - destruct s; [right; eauto|discriminate].
Qed.

Lemma is_finite_cases (d : float) :
  is_finite d = true ->
  (exists s, Prim2SF d = S754_zero s) \/ exists s m e, Prim2SF d = S754_finite s m e.
Proof.
  unfold is_finite, is_infinity. rewrite is_nan_spec, eqb_spec, abs_spec.
  change (Prim2SF infinity) with (S754_infinity false).
  destruct (Prim2SF d) as [s|s| |s m e]; simpl; try discriminate; eauto 6.
Qed.

Lemma at_least_floor_cases (s : float) :
  (0.1 <=? s)%float = true ->
  Prim2SF s = S754_infinity false \/ finite_positive s.
Proof.
  rewrite leb_floor_spec. unfold finite_positive, floor_sf.
  destruct (Prim2SF s) as [b|b| |b m e]; simpl; try discriminate.
  - destruct b; [discriminate|left; reflexivity].
  - destruct b; [discriminate|right; eauto].
Qed.

Lemma compare_floor_Lt_cases (x : float) :
  SFcompare floor_sf (Prim2SF x) = Some Lt ->
  Prim2SF x = S754_infinity false \/ finite_positive x.
Proof.
  intros H. apply at_least_floor_cases. rewrite leb_floor_spec, H. reflexivity.
Qed.

(** One adjustment by a negative delta keeps a positive finite scale
    positive, finite and at least [0.1]. *)
Lemma floor_step_negative (s d : float) :
  finite_positive s -> (d <? 0)%float = true ->
  finite_positive (Math.max 0.1 (s + d)) /\
  (0.1 <=? Math.max 0.1 (s + d))%float = true.
Proof.
  intros (ms & es & Hs) Hd.
  assert (Hfloor : finite_positive 0.1)
    by (exists 7205759403792794%positive, (-56)%Z; reflexivity).
  assert (Hsum : Prim2SF (s + d) <> S754_nan /\ Prim2SF (s + d) <> S754_infinity false).
  { rewrite add_spec, Hs.
    destruct (negative_cases d Hd) as [Hinf|(md & ed & Hfin)].
    - rewrite Hinf. simpl. split; discriminate.
    - rewrite Hfin. split.
      + apply SF64add_finite_not_nan.
      + apply SF64add_pos_neg.
        pose proof (Prim2SF_valid s) as Hv. rewrite Hs in Hv. exact Hv. }
  destruct Hsum as [Hnan Hinf].
  rewrite max_floor_spec.
  destruct (SFcompare floor_sf (Prim2SF (s + d))) as [[ | | ]|] eqn:Hc.
  - split; [exact Hfloor|reflexivity].
  - split.
    + destruct (compare_floor_Lt_cases _ Hc) as [H|H]; [contradiction|exact H].
    + rewrite leb_floor_spec, Hc. reflexivity.
  - split; [exact Hfloor|reflexivity].
  - apply SFcompare_nan_r in Hc; [contradiction|exact floor_sf_not_nan].
Qed.

(** One adjustment by a finite delta keeps a scale of at least [0.1] at
    least [0.1]. *)
Lemma floor_step_finite (s d : float) :
  (0.1 <=? s)%float = true -> is_finite d = true ->
  (0.1 <=? Math.max 0.1 (s + d))%float = true.
Proof.
  intros Hs Hd. apply max_floor_at_least.
  rewrite is_nan_spec, add_spec.
  destruct (at_least_floor_cases s Hs) as [Hinf|(ms & es & Hfin)];
    destruct (is_finite_cases d Hd) as [(sd & Hz)|(sd & md & ed & Hf)];
    rewrite ?Hinf, ?Hfin, ?Hz, ?Hf; try reflexivity.
  pose proof (SF64add_finite_not_nan false ms es sd md ed) as Hn.
  destruct (SF64add (S754_finite false ms es) (S754_finite sd md ed)); congruence.
Qed.

Lemma updateItemTransform_nil (dS dR dX dY : float) (st : AppState) :
  activeItems st = [] -> updateItemTransform dS dR dX dY st = Normal st.
Proof. intros H. unfold updateItemTransform. rewrite H. reflexivity. Qed.

Lemma updateItemTransform_snoc (dS dR dX dY : float) (st : AppState)
    (earlier : list PlacedItem.t) (item : PlacedItem.t) :
  activeItems st = earlier ++ [item] ->
  updateItemTransform dS dR dX dY st =
  Normal (mkApp (closet st) (queue st)
            (earlier ++ [transformed item dS dR dX dY])
            (isMenuOpen st) (isProcessing st) (isRecording st)).
Proof.
  intros H. unfold updateItemTransform. rewrite H.
  rewrite length_app. simpl length.
  replace (length earlier + 1 =? 0)%nat with false
    by (symmetry; apply Nat.eqb_neq; lia).
  replace (length earlier + 1 - 1)%nat with (length earlier + 0)%nat by lia.
  rewrite lookup_app_r by lia.
  replace (length earlier + 0 - length earlier)%nat with 0%nat by lia.
  simpl. rewrite insert_app_r_alt by lia.
  replace (length earlier + 0 - length earlier)%nat with 0%nat by lia.
  reflexivity.
Qed.

Lemma list_nil_or_snoc {A : Type} (l : list A) :
  l = [] \/ exists earlier x, l = earlier ++ [x].
Proof.
  induction l as [|x l IH] using rev_ind; [left; reflexivity|right; eauto].
Qed.

(** [updateItemTransform] never throws. *)
Lemma updateItemTransform_total (dS dR dX dY : float) (st : AppState) :
  exists st', updateItemTransform dS dR dX dY st = Normal st'.
Proof.
  destruct (list_nil_or_snoc (activeItems st)) as [H|(earlier & item & H)].
  - rewrite (updateItemTransform_nil _ _ _ _ _ H). eauto.
  - rewrite (updateItemTransform_snoc _ _ _ _ _ _ _ H). eauto.
Qed.

Lemma run_total (acts : list action) (st : AppState) :
  exists st', run acts st = Normal st'.
Proof.
  revert st. induction acts as [|a acts IH]; intros st; simpl; [eauto|].
  destruct a; simpl; try apply IH.
  destruct (updateItemTransform_total deltaScale deltaRot deltaX deltaY st) as [st1 H1].
  rewrite H1. apply IH.
Qed.

Section ScaleInvariant.

(** A property [I] of scales that holds of the default scale and is kept
    by one adjustment whose delta satisfies [D]. *)
Variable I : float -> Prop.
Variable D : float -> Prop.
Hypothesis I_default : I 1.0%float.
Hypothesis I_adjust : forall s d : float, I s -> D d -> I (Math.max 0.1 (s + d))%float.

Lemma handleTryOn_scales_ok (st : AppState) : scales_ok I (handleTryOn st).
Proof.
  unfold scales_ok, handleTryOn; simpl.
  induction (queue st) as [|item q IH]; simpl; constructor; auto.
Qed.

Lemma updateItemTransform_scales_ok (dS dR dX dY : float) (st st' : AppState) :
  D dS -> scales_ok I st ->
  updateItemTransform dS dR dX dY st = Normal st' ->
  scales_ok I st'.
Proof.
  intros Hd Hok Hrun.
  destruct (list_nil_or_snoc (activeItems st)) as [H|(earlier & item & H)].
  - rewrite (updateItemTransform_nil _ _ _ _ _ H) in Hrun. congruence.
  - rewrite (updateItemTransform_snoc _ _ _ _ _ _ _ H) in Hrun.
    injection Hrun as <-. unfold scales_ok in *; simpl. rewrite H in Hok.
    apply Forall_app in Hok. destruct Hok as [Hearlier Hitem].
    apply Forall_app. split; [exact Hearlier|].
    constructor; [|constructor]. simpl. apply I_adjust; [|exact Hd].
    inversion Hitem; assumption.
Qed.

Lemma run_scales_ok (acts : list action) (st st' : AppState) :
  Forall D (deltaScales acts) -> scales_ok I st ->
  run acts st = Normal st' ->
  scales_ok I st'.
Proof.
  revert st. induction acts as [|a acts IH]; intros st HD Hok Hrun; simpl in *.
  - congruence.
  - destruct a; simpl in *;
      try (apply (IH _ HD) in Hrun; [exact Hrun|exact Hok]).
    + apply (IH _ HD) in Hrun; [exact Hrun|apply handleTryOn_scales_ok].
    + apply (IH _ HD) in Hrun; [exact Hrun|constructor].
    + apply Forall_cons in HD. destruct HD as [Hd HD].
      destruct (updateItemTransform deltaScale deltaRot deltaX deltaY st) as [st1|e] eqn:H1;
        [|discriminate].
      apply (IH _ HD) in Hrun; [exact Hrun|].
      eapply updateItemTransform_scales_ok; eauto.
Qed.

End ScaleInvariant.

Lemma run_shrinks (n : nat) (st : AppState)
    (earlier : list PlacedItem.t) (item : PlacedItem.t) :
  activeItems st = earlier ++ [item] ->
  exists st',
    run (repeat (UpdateItemTransform (-1)%float 0%float 0%float 0%float) n) st
      = Normal st' /\
    activeItems st' = earlier ++ [Nat.iter n shrinkByOne item].
Proof.
  revert st item. induction n as [|n IH]; intros st item H; simpl.
  - eauto.
  - rewrite (updateItemTransform_snoc _ _ _ _ _ _ _ H).
    destruct (IH (mkApp (closet st) (queue st) (earlier ++ [shrinkByOne item])
                    (isMenuOpen st) (isProcessing st) (isRecording st))
                 (shrinkByOne item) eq_refl) as (st' & Hrun & Hact).
    exists st'. split; [exact Hrun|]. rewrite Hact.
    do 2 f_equal. clear. induction n as [|n IHn]; simpl; [reflexivity|].
    rewrite IHn. reflexivity.
Qed.

Lemma scale_shrinkByOne (p : PlacedItem.t) :
  PlacedItem.scale (shrinkByOne p) = Math.max 0.1 (PlacedItem.scale p + -1)%float.
Proof. reflexivity. Qed.

Lemma shrinkByOne_at_floor (n : nat) (p : PlacedItem.t) :
  PlacedItem.scale p = 1.0%float \/ PlacedItem.scale p = 0.1%float ->
  PlacedItem.scale (Nat.iter (S n) shrinkByOne p) = 0.1%float.
Proof.
  intros Hp. induction n as [|n IH].
  - change (Nat.iter 1 shrinkByOne p) with (shrinkByOne p).
    rewrite scale_shrinkByOne. destruct Hp as [-> | ->]; reflexivity.
  - change (Nat.iter (S (S n)) shrinkByOne p)
      with (shrinkByOne (Nat.iter (S n) shrinkByOne p)).
    rewrite scale_shrinkByOne, IH. reflexivity.
Qed.

(** C2. From the moment the component mounts (no placements), whatever
    handlers run and in whatever order, the run completes and no placed
    item's scale is below 0.1; when the [deltaScale] arguments are all
    negative (minus infinity included) or all finite, every scale is at
    least 0.1.  Commit creates items at scale 1.0 and [updateItemTransform]
    floors the sum at 0.1: committing a queue that ends with a garment and
    then calling [updateItemTransform(-1, 0, 0, 0)] fifty times leaves that
    garment's scale equal to 0.1. *)
Theorem scale_never_below_floor (acts : list action) (st : AppState) :
  activeItems st = [] ->
  exists st',
    run acts st = Normal st' /\
    Forall (fun p => (PlacedItem.scale p <? 0.1)%float = false) (activeItems st') /\
    (Forall (fun d => (d <? 0)%float = true) (deltaScales acts) \/
     Forall (fun d => is_finite d = true) (deltaScales acts) ->
     Forall (fun p => (0.1 <=? PlacedItem.scale p)%float = true) (activeItems st')) /\
    (forall (st0 : AppState) (q : list ClothingItem.t) (g : ClothingItem.t),
       queue st0 = q ++ [g] ->
       exists st1 p,
         run (TryOn :: Sample.fiftyShrinks) st0 = Normal st1 /\
         activeItems st1 = map placeWithDefaults q ++ [p] /\
         PlacedItem.garment p = g /\
         PlacedItem.scale p = 0.1%float).
Proof.
  intros Hempty. destruct (run_total acts st) as [st' Hrun].
  exists st'. split; [exact Hrun|]. split; [|split].
  - apply (run_scales_ok (fun s => (s <? 0.1)%float = false) (fun _ => True))
      with (acts := acts) (st := st); try exact Hrun.
    + reflexivity.
    + intros s d _ _. apply max_floor_not_below.
    + clear. induction (deltaScales acts); constructor; auto.
    + unfold scales_ok. rewrite Hempty. constructor.
  - intros [Hneg|Hfin].
    + assert (Hok : scales_ok (fun s => finite_positive s /\ (0.1 <=? s)%float = true) st').
      { apply (run_scales_ok _ (fun d => (d <? 0)%float = true))
          with (acts := acts) (st := st); try exact Hrun; try exact Hneg.
        - split; [|reflexivity].
          exists 4503599627370496%positive, (-52)%Z. reflexivity.
        - intros s d [Hs _] Hd. apply floor_step_negative; assumption.
        - unfold scales_ok. rewrite Hempty. constructor. }
      unfold scales_ok in Hok. eapply Forall_impl; [exact Hok|].
      intros p [_ Hp]. exact Hp.
    + apply (run_scales_ok (fun s => (0.1 <=? s)%float = true)
               (fun d => is_finite d = true))
        with (acts := acts) (st := st); try exact Hrun; try exact Hfin.
      * reflexivity.
      * intros s d. apply floor_step_finite.
      * unfold scales_ok. rewrite Hempty. constructor.
  - intros st0 q g Hq.
    destruct (run_shrinks 50 (handleTryOn st0) (map placeWithDefaults q)
                (placeWithDefaults g)) as (st1 & Hrun1 & Hact1).
    { unfold handleTryOn; simpl. rewrite Hq, map_app. reflexivity. }
    exists st1, (Nat.iter 50 shrinkByOne (placeWithDefaults g)).
    split; [exact Hrun1|]. split; [exact Hact1|]. split.
    + destruct g; reflexivity.
    + apply (shrinkByOne_at_floor 49). left. reflexivity.
Qed.

(** The invariant on a concrete run: two garments committed, then fifty
    adjustments by -1. *)
Lemma scale_never_below_floor_witness :
  activeItems Sample.staged = [] /\
  exists st',
    run (TryOn :: Sample.fiftyShrinks) Sample.staged = Normal st' /\
    Forall (fun p => (0.1 <=? PlacedItem.scale p)%float = true) (activeItems st').
Proof.
  split; [reflexivity|].
  destruct (scale_never_below_floor (TryOn :: Sample.fiftyShrinks) Sample.staged eq_refl)
    as (st' & Hrun & _ & Hfloor & _).
  exists st'. split; [exact Hrun|]. apply Hfloor. left.
  simpl. repeat constructor.
Defined.

(** ** Interaction layer: what one adjustment changes *)

Lemma SFcompare_finite_Eq (s : bool) (m : positive) (e : Z) (y : spec_float) :
  SFcompare (S754_finite s m e) y = Some Eq -> y = S754_finite s m e.
Proof.
  destruct y as [b|b| |b m' e']; simpl; try discriminate.
  - destruct s; discriminate.
  - destruct s, b; discriminate.
  - destruct s, b; try discriminate;
      destruct (e ?= e')%Z eqn:He; try discriminate;
      apply Z.compare_eq in He; subst e'; intros H.
    + injection H as H. destruct (Pos.compare_cont Eq m m') eqn:Hm; try discriminate.
      apply Pos.compare_eq in Hm. subst m'. reflexivity.
    + injection H as H. apply Pos.compare_eq in H. subst m'. reflexivity.
Qed.

(** At or above the floor, [Math.max(0.1, x)] is [x] itself. *)
Lemma max_floor_id (x : float) :
  (0.1 <=? x)%float = true -> Math.max 0.1 x = x.
Proof.
  rewrite leb_floor_spec, max_floor_spec.
  destruct (SFcompare floor_sf (Prim2SF x)) as [[ | | ]|] eqn:Hc; try discriminate.
  - intros _. apply SFcompare_finite_Eq in Hc.
    apply Prim2SF_inj. rewrite Hc. reflexivity.
  - reflexivity.
Qed.

(** C5 (as amended). Whatever the deltas, [updateItemTransform] on an empty
    placement list returns the state unchanged; on a non-empty list it
    completes normally and replaces only the last entry, keeping its
    garment fields, adding [deltaRot], [deltaX] and [deltaY] to rotation,
    offsetX and offsetY, and storing as scale the sum [scale + deltaScale]
    floored at 0.1, which is the plain sum whenever that sum is at least
    0.1.  Earlier entries and every other cell are untouched. *)
Theorem updateItemTransform_effect (deltaScale deltaRot deltaX deltaY : float)
    (st : AppState) :
  (activeItems st = [] ->
   updateItemTransform deltaScale deltaRot deltaX deltaY st = Normal st) /\
  (forall (earlier : list PlacedItem.t) (item : PlacedItem.t),
     activeItems st = earlier ++ [item] ->
     exists item',
       updateItemTransform deltaScale deltaRot deltaX deltaY st =
         Normal (mkApp (closet st) (queue st) (earlier ++ [item'])
                   (isMenuOpen st) (isProcessing st) (isRecording st)) /\
       PlacedItem.garment item' = PlacedItem.garment item /\
       PlacedItem.rotation item' = (PlacedItem.rotation item + deltaRot)%float /\
       PlacedItem.offsetX item' = (PlacedItem.offsetX item + deltaX)%float /\
       PlacedItem.offsetY item' = (PlacedItem.offsetY item + deltaY)%float /\
       PlacedItem.scale item' =
         Math.max 0.1 (PlacedItem.scale item + deltaScale)%float /\
       ((0.1 <=? PlacedItem.scale item + deltaScale)%float = true ->
        PlacedItem.scale item' = (PlacedItem.scale item + deltaScale)%float)).
Proof.
  split.
  - apply updateItemTransform_nil.
  - intros earlier item H.
    exists (transformed item deltaScale deltaRot deltaX deltaY).
    split; [apply updateItemTransform_snoc; exact H|].
    repeat split. simpl. apply max_floor_id.
Qed.

(** Both cases on concrete states: nothing placed, and two garments placed
    with the second one adjusted. *)
Lemma updateItemTransform_effect_witness :
  activeItems Sample.initial = [] /\
  updateItemTransform 0.1 5 10 (-10) Sample.initial = Normal Sample.initial /\
  activeItems (handleTryOn Sample.staged) =
    [placeWithDefaults Sample.shirt] ++ [placeWithDefaults Sample.jeans] /\
  exists item',
    updateItemTransform 0.1 5 10 (-10) (handleTryOn Sample.staged) =
      Normal (mkApp [Sample.jeans; Sample.shirt] [Sample.shirt; Sample.jeans]
                ([placeWithDefaults Sample.shirt] ++ [item']) false false false) /\
    PlacedItem.scale item' = 1.1%float.
Proof.
  split; [reflexivity|].
  split; [exact (proj1 (updateItemTransform_effect 0.1 5 10 (-10) Sample.initial) eq_refl)|].
  split; [reflexivity|].
  destruct (proj2 (updateItemTransform_effect 0.1 5 10 (-10) (handleTryOn Sample.staged))
              [placeWithDefaults Sample.shirt] (placeWithDefaults Sample.jeans) eq_refl)
    as (item' & Hrun & _ & _ & _ & _ & _ & Hsum).
  exists item'. split; [exact Hrun|]. rewrite Hsum; reflexivity.
Defined.

(** C5, the claim as stated fails: after committing the shirt (scale 1.0),
    [updateItemTransform(-1, 0, 0, 0)] stores scale 0.1, although the sum
    of the old scale and the delta is 0. *)
Lemma updateItemTransform_floors_the_sum :
  updateItemTransform (-1) 0 0 0 (handleTryOn Sample.oneQueued) =
    Normal (mkApp [Sample.shirt] [Sample.shirt]
              [PlacedItem.mk "g1" "data:image/png;base64,c2hpcnQ=" "TOP"
                 "Blue Shirt" 1000 0.1 0 0 0]
              false false false) /\
  (PlacedItem.scale (placeWithDefaults Sample.shirt) + -1)%float = 0%float /\
  (0.1 =? 0)%float = false.
Proof. repeat split. Qed.

(** ** The staging queue across the handlers *)

Lemma updateItemTransform_queue (dS dR dX dY : float) (st st' : AppState) :
  updateItemTransform dS dR dX dY st = Normal st' -> queue st' = queue st.
Proof.
  intros Hrun.
  destruct (list_nil_or_snoc (activeItems st)) as [H|(earlier & item & H)].
  - rewrite (updateItemTransform_nil _ _ _ _ _ H) in Hrun. congruence.
  - rewrite (updateItemTransform_snoc _ _ _ _ _ _ _ H) in Hrun.
    injection Hrun as <-. reflexivity.
Qed.

Lemma filter_other_ids_nil (itemId : string) (q : list ClothingItem.t) :
  List.filter (fun i => negb (String.eqb (ClothingItem.id i) itemId)) q = [] ->
  Forall (fun i => ClothingItem.id i = itemId) q.
Proof.
  induction q as [|i q IH]; simpl; intros H; [constructor|].
  destruct (String.eqb (ClothingItem.id i) itemId) eqn:Hid; simpl in H.
  - constructor; [apply String.eqb_eq; exact Hid|apply IH; exact H].
  - discriminate.
Qed.

(** C10 (as amended). Committing leaves the staging queue exactly as it
    was (same records, same order), and the closet too; clearing always
    empties the queue.  A handler that completes with an empty queue after
    starting from a non-empty one is either the clear operation or the
    remove button of a thumbnail whose id every queued record shares: no
    other handler empties the queue. *)
Theorem queue_frame (st : AppState) :
  queue (handleTryOn st) = queue st /\
  closet (handleTryOn st) = closet st /\
  queue (clearActive st) = [] /\
  (forall (a : action) (st' : AppState),
     step a st = Normal st' -> queue st <> [] -> queue st' = [] ->
     a = ClearActive \/
     exists itemId : string,
       a = RemoveFromQueue itemId /\
       Forall (fun i => ClothingItem.id i = itemId) (queue st)).
Proof.
  repeat split.
  intros a st' Hstep Hne Hnil.
  destruct a; simpl in Hstep;
    try (injection Hstep as <-; simpl in Hnil; try contradiction;
         try (apply app_eq_nil in Hnil; destruct Hnil; discriminate)).
  - left; reflexivity.
  - apply updateItemTransform_queue in Hstep. congruence.
  - right. exists itemId. split; [reflexivity|].
    apply filter_other_ids_nil. exact Hnil.
Qed.

(** The last part at a concrete transition: the remove button on a queue
    that holds only the shirt. *)
Lemma queue_frame_witness :
  step (RemoveFromQueue "g1") Sample.oneQueued
    = Normal (removeFromQueue "g1" Sample.oneQueued) /\
  queue Sample.oneQueued <> [] /\
  queue (removeFromQueue "g1" Sample.oneQueued) = [] /\
  (RemoveFromQueue "g1" = ClearActive \/
   exists itemId : string,
     RemoveFromQueue "g1" = RemoveFromQueue itemId /\
     Forall (fun i => ClothingItem.id i = itemId) (queue Sample.oneQueued)).
Proof.
  split; [reflexivity|]. split; [discriminate|]. split; [reflexivity|].
  apply (proj2 (proj2 (proj2 (queue_frame Sample.oneQueued)))
           (RemoveFromQueue "g1") (removeFromQueue "g1" Sample.oneQueued)).
  - reflexivity.
  - discriminate.
  - reflexivity.
Defined.

(** C10, the claim as stated fails: with only the shirt queued, its remove
    button leaves the queue empty, and that handler is not the clear
    operation. *)
Lemma remove_button_empties_queue :
  queue Sample.oneQueued = [Sample.shirt] /\
  step (RemoveFromQueue "g1") Sample.oneQueued =
    Normal (mkApp [Sample.shirt] [] [] false false false) /\
  RemoveFromQueue "g1" <> ClearActive.
Proof. repeat split. discriminate. Qed.

(** ** Compositor: anchor, base scale and screen position *)

Lemma SF64mul_comm (x y : spec_float) : SF64mul x y = SF64mul y x.
Proof.
  destruct x as [sx|sx| |sx mx ex], y as [sy|sy| |sy my ey]; simpl;
    try reflexivity; try (rewrite xorb_comm; reflexivity).
  rewrite xorb_comm, Pos.mul_comm, Z.add_comm. reflexivity.
Qed.

(** Binary64 multiplication is commutative. *)
Lemma float_mul_comm (x y : float) : (x * y)%float = (y * x)%float.
Proof. apply Prim2SF_inj. rewrite !mul_spec. apply SF64mul_comm. Qed.

(** C1. For every body frame and every category string, the anchor and the
    base scale are chosen by category: "BOTTOM" gives the hip centre and
    1.8 times the shoulder width; "DRESS" gives the shoulder centre's x, a
    y 20% of the way from the shoulder centre to the hip centre, and the
    default base scale; every other category ("TOP", "ACCESSORY",
    "UNKNOWN" or any unrecognized string) gives the shoulder centre and the
    default base scale, 2.5 times the shoulder width. *)
Theorem determineAnchor_by_category (bm : BodyMetrics) (category : Category) :
  (category = "BOTTOM" ->
   determineAnchor bm category =
     mkAnchor (hipCenterX bm) (hipCenterY bm) (1.8 * shoulderWidth bm)%float) /\
  (category = "DRESS" ->
   determineAnchor bm category =
     mkAnchor (shoulderCenterX bm)
       (shoulderCenterY bm + 0.2 * (hipCenterY bm - shoulderCenterY bm))%float
       (2.5 * shoulderWidth bm)%float) /\
  (category <> "BOTTOM" -> category <> "DRESS" ->
   determineAnchor bm category =
     mkAnchor (shoulderCenterX bm) (shoulderCenterY bm)
       (2.5 * shoulderWidth bm)%float) /\
  determineAnchor bm "TOP" =
    mkAnchor (shoulderCenterX bm) (shoulderCenterY bm) (2.5 * shoulderWidth bm)%float.
Proof.
  unfold determineAnchor.
  rewrite (float_mul_comm 1.8), (float_mul_comm 2.5), (float_mul_comm 0.2).
  repeat split.
  - intros ->. reflexivity.
  - intros ->. reflexivity.
  - intros Hb Hd.
    apply String.eqb_neq in Hb. apply String.eqb_neq in Hd.
    rewrite Hb, Hd. reflexivity.
Qed.

(** The three rules on the standing subject (shoulder width 200). *)
Lemma determineAnchor_by_category_witness :
  determineAnchor Sample.standingBody "BOTTOM" = mkAnchor 0.5 0.6 360 /\
  determineAnchor Sample.standingBody "DRESS" =
    mkAnchor 0.5 (0.3 + 0.2 * (0.6 - 0.3)) 500 /\
  determineAnchor Sample.standingBody "ACCESSORY" = mkAnchor 0.5 0.3 500.
Proof.
  pose proof (determineAnchor_by_category Sample.standingBody "BOTTOM") as (Hb & _).
  pose proof (determineAnchor_by_category Sample.standingBody "DRESS") as (_ & Hd & _).
  pose proof (determineAnchor_by_category Sample.standingBody "ACCESSORY") as (_ & _ & Ha & _).
  split; [exact (Hb eq_refl)|]. split; [exact (Hd eq_refl)|].
  apply Ha; discriminate.
Defined.

Lemma SFeqb_refl_finite (s : bool) (m : positive) (e : Z) :
  SFeqb (S754_finite s m e) (S754_finite s m e) = true.
Proof.
  unfold SFeqb; simpl.
  destruct s; rewrite Z.compare_refl, Pos.compare_cont_refl; reflexivity.
Qed.

(** With the hip centre at the shoulder centre's height, the dress
    formula returns that same height. *)
Lemma level_dress_height (y : float) :
  is_finite y = true -> (y + (y - y) * 0.2 =? y)%float = true.
Proof.
  intros Hy. rewrite eqb_spec, add_spec, mul_spec, sub_spec.
  change (Prim2SF 0.2) with (S754_finite false 7205759403792794 (-55)).
  destruct (is_finite_cases y Hy) as [(s & Hz)|(s & m & e & Hf)].
  - rewrite Hz. destruct s; reflexivity.
  - rewrite Hf. unfold SF64sub, SFsub, binary_normalize.
    rewrite Z.sub_diag. cbn [SF64mul SFmul SF64add SFadd].
    apply SFeqb_refl_finite.
Qed.

(** C6 (as amended). For a garment of category "DRESS" and every body
    frame, the anchor's x is the shoulder centre's x and its y is
    [shoulderCenterY + (hipCenterY - shoulderCenterY) * 0.2], 20% of the
    way from the shoulder centre to the hip centre as binary64 arithmetic
    computes it.  When the two heights are finite and their difference
    does not overflow, the anchor's height is finite and lies between
    them: it is never beyond either, and it never reaches the hip centre's
    height unless the two are the same.  It can coincide with the
    shoulder centre's height, and it is strictly between the two exactly
    when it does not; it does coincide when the two centres have the same
    height. *)
Theorem dress_anchor (bm : BodyMetrics) :
  anchorX (determineAnchor bm "DRESS") = shoulderCenterX bm /\
  anchorY (determineAnchor bm "DRESS") =
    (shoulderCenterY bm + (hipCenterY bm - shoulderCenterY bm) * 0.2)%float /\
  (is_finite (shoulderCenterY bm) = true ->
   is_finite (hipCenterY bm) = true ->
   is_finite (hipCenterY bm - shoulderCenterY bm) = true ->
   is_finite (anchorY (determineAnchor bm "DRESS")) = true /\
   between (shoulderCenterY bm) (hipCenterY bm)
     (anchorY (determineAnchor bm "DRESS")) = true /\
   ((shoulderCenterY bm <=? hipCenterY bm)%float = true ->
    (shoulderCenterY bm <=? anchorY (determineAnchor bm "DRESS"))%float = true /\
    (anchorY (determineAnchor bm "DRESS") <=? hipCenterY bm)%float = true) /\
   ((hipCenterY bm <=? shoulderCenterY bm)%float = true ->
    (hipCenterY bm <=? anchorY (determineAnchor bm "DRESS"))%float = true /\
    (anchorY (determineAnchor bm "DRESS") <=? shoulderCenterY bm)%float = true) /\
   ((shoulderCenterY bm <? hipCenterY bm)%float = true ->
    (anchorY (determineAnchor bm "DRESS") <? hipCenterY bm)%float = true) /\
   ((hipCenterY bm <? shoulderCenterY bm)%float = true ->
    (hipCenterY bm <? anchorY (determineAnchor bm "DRESS"))%float = true) /\
   strictlyBetween (shoulderCenterY bm) (hipCenterY bm)
     (anchorY (determineAnchor bm "DRESS"))
   = negb (anchorY (determineAnchor bm "DRESS") =? shoulderCenterY bm)%float) /\
  (is_finite (shoulderCenterY bm) = true ->
   hipCenterY bm = shoulderCenterY bm ->
   (anchorY (determineAnchor bm "DRESS") =? shoulderCenterY bm)%float = true /\
   strictlyBetween (shoulderCenterY bm) (hipCenterY bm)
     (anchorY (determineAnchor bm "DRESS")) = false).
Proof.
  split; [reflexivity|]. split; [reflexivity|]. split.
  - intros Hs Hh Hd.
    change (anchorY (determineAnchor bm "DRESS"))
      with (shoulderCenterY bm + (hipCenterY bm - shoulderCenterY bm) * 0.2)%float.
    destruct (dress_height_between _ _ Hs Hh Hd) as (Hfa & Hup & Hdown).
    destruct (dress_height_strict _ _ Hs Hh Hd) as (Hsup & Hsdown).
    split; [exact Hfa|]. split.
    { unfold between.
      destruct (leb_total _ _ Hs Hh) as [Hle|Hle].
      + destruct (Hup Hle) as [-> ->]. reflexivity.
      + destruct (Hdown Hle) as [-> ->]. apply orb_true_r. }
    split; [exact Hup|]. split; [exact Hdown|].
    split; [exact Hsup|]. split; [exact Hsdown|].
    apply dress_height_strictly_between; assumption.
  - intros Hfin Hlevel. simpl. rewrite Hlevel.
    pose proof (level_dress_height _ Hfin) as Heq.
    split; [exact Heq|].
    unfold strictlyBetween.
    set (a := (shoulderCenterY bm + (shoulderCenterY bm - shoulderCenterY bm) * 0.2)%float)
      in *.
    set (y := shoulderCenterY bm) in *.
    assert (Hlt1 : (y <? a)%float = false /\ (a <? y)%float = false).
    { rewrite !ltb_spec. rewrite eqb_spec in Heq. unfold SFltb, SFeqb in *.
      rewrite (SFcompare_antisym (Prim2SF a) (Prim2SF y)).
      destruct (SFcompare (Prim2SF a) (Prim2SF y)) as [[ | | ]|];
        try discriminate; split; reflexivity. }
    destruct Hlt1 as [-> ->]. rewrite !andb_false_r. reflexivity.
Qed.

(** The standing subject (shoulders at 0.3, hips at 0.6) for the first
    part, the level frame for the second. *)
Lemma dress_anchor_witness :
  (shoulderCenterY Sample.standingBody <? hipCenterY Sample.standingBody)%float = true /\
  between (shoulderCenterY Sample.standingBody) (hipCenterY Sample.standingBody)
    (anchorY (determineAnchor Sample.standingBody "DRESS")) = true /\
  (anchorY (determineAnchor Sample.standingBody "DRESS")
     <? hipCenterY Sample.standingBody)%float = true /\
  is_finite (shoulderCenterY Sample.levelBody) = true /\
  hipCenterY Sample.levelBody = shoulderCenterY Sample.levelBody /\
  (anchorY (determineAnchor Sample.levelBody "DRESS") =? 0.5)%float = true.
Proof.
  pose proof (proj1 (proj2 (proj2 (dress_anchor Sample.standingBody)))
                eq_refl eq_refl eq_refl) as (_ & Hbetween & _ & _ & Hstrict & _).
  split; [reflexivity|]. split; [exact Hbetween|]. split; [exact (Hstrict eq_refl)|].
  split; [reflexivity|]. split; [reflexivity|].
  exact (proj1 (proj2 (proj2 (proj2 (dress_anchor Sample.levelBody))) eq_refl eq_refl)).
Defined.

(** C6, the claim as stated fails: in a frame whose shoulder and hip
    centres are both at height 0.5 the dress anchor is at height 0.5, which
    is not strictly between the two. *)
Lemma dress_anchor_not_strictly_between :
  shoulderCenterY Sample.levelBody = 0.5%float /\
  hipCenterY Sample.levelBody = 0.5%float /\
  anchorY (determineAnchor Sample.levelBody "DRESS") = 0.5%float /\
  strictlyBetween 0.5 0.5 0.5 = false.
Proof. repeat split. Qed.

(** The same happens for centres that are close without being equal: the
    20% step is rounded away.  Hips one unit in the last place below the
    shoulders' 0.5; and shoulders just above 1 with hips just below it,
    three representable steps away. *)
Lemma dress_anchor_rounds_to_shoulder :
  anchorY (determineAnchor (mkBody 200 0 0.5 0.5 0.5 0x1.0000000000001p-1) "DRESS")
    = 0.5%float /\
  (0.5 <? 0x1.0000000000001p-1)%float = true /\
  anchorY (determineAnchor
             (mkBody 200 0 0.5 0x1.0000000000001p0 0.5 0x1.ffffffffffffep-1) "DRESS")
    = 0x1.0000000000001p0%float /\
  (0x1.ffffffffffffep-1 <? 0x1.fffffffffffffp-1)%float = true /\
  (0x1.fffffffffffffp-1 <? 1)%float = true /\
  (1 <? 0x1.0000000000001p0)%float = true.
Proof. repeat split; reflexivity. Qed.

(** When the difference of the two heights overflows, the anchor is not a
    finite height at all. *)
Lemma dress_anchor_overflow :
  is_finite (1e308 - -1e308) = false /\
  anchorY (determineAnchor (mkBody 200 0 0.5 (-1e308) 0.5 1e308) "DRESS") = infinity.
Proof. split; reflexivity. Qed.

(** For a standing subject the anchor does lie strictly between. *)
Lemma dress_anchor_standing :
  anchorY (determineAnchor Sample.standingBody "DRESS") = 0.36%float /\
  strictlyBetween 0.3 0.6 0.36 = true.
Proof. split; reflexivity. Qed.

(** C7. For every placed garment whose image is cached, the compositor
    moves the context to
    [((1 - anchor.x) * canvas.width + offsetX, anchor.y * canvas.height + offsetY)]
    before drawing it: x is mirror-flipped, y is not.  With a canvas 1000
    wide, anchor.x = 0.3 and offsetX = 0 the x coordinate is 700. *)
Theorem drawItem_screen_position (canvas : Canvas.t) (bm : BodyMetrics)
    (rs : RenderState) (item : PlacedItem.t) (img : HTMLImageElement.t) :
  images rs !! PlacedItem.id item = Some img ->
  (exists angle dx dy dw dh : float,
     effects (drawItem canvas bm rs item) =
       effects rs ++
       [ctx_save;
        ctx_translate
          ((1 - anchorX (determineAnchor bm (PlacedItem.category item)))
             * Canvas.width canvas + PlacedItem.offsetX item)%float
          (anchorY (determineAnchor bm (PlacedItem.category item))
             * Canvas.height canvas + PlacedItem.offsetY item)%float;
        ctx_rotate angle;
        ctx_drawImage img dx dy dw dh;
        ctx_restore]) /\
  (Canvas.width canvas = 1000%float ->
   anchorX (determineAnchor bm (PlacedItem.category item)) = 0.3%float ->
   PlacedItem.offsetX item = 0%float ->
   screenX canvas (determineAnchor bm (PlacedItem.category item)) item = 700%float).
Proof.
  intros Himg. split.
  - unfold drawItem. rewrite Himg. do 5 eexists. reflexivity.
  - intros Hw Ha Ho. unfold screenX. rewrite Hw, Ha, Ho. reflexivity.
Qed.

(** The worked example: canvas 1000 wide, shoulder centre at x = 0.3, no
    manual offset. *)
Lemma drawItem_screen_position_witness :
  images Sample.cacheReady !! PlacedItem.id (placeWithDefaults Sample.shirt)
    = Some Sample.shirtImage /\
  screenX Sample.canvas1000
    (determineAnchor Sample.leftBody "TOP") (placeWithDefaults Sample.shirt)
    = 700%float.
Proof.
  assert (H : images Sample.cacheReady !! PlacedItem.id (placeWithDefaults Sample.shirt)
              = Some Sample.shirtImage) by (vm_compute; reflexivity).
  split; [exact H|].
  apply (proj2 (drawItem_screen_position Sample.canvas1000 Sample.leftBody
                  Sample.cacheReady (placeWithDefaults Sample.shirt)
                  Sample.shirtImage H)); reflexivity.
Defined.

(** ** Compositor: the image cache *)

Lemma loadsStarted_app (itemId : string) (e1 e2 : list Effect) :
  loadsStarted itemId (e1 ++ e2) = loadsStarted itemId e1 + loadsStarted itemId e2.
Proof. unfold loadsStarted. rewrite List.filter_app, length_app. reflexivity. Qed.

Lemma drawItem_cached (canvas : Canvas.t) (bm : BodyMetrics)
    (rs : RenderState) (item : PlacedItem.t) (img : HTMLImageElement.t) :
  images rs !! PlacedItem.id item = Some img ->
  images (drawItem canvas bm rs item) = images rs /\
  exists tx ty angle dx dy dw dh : float,
    effects (drawItem canvas bm rs item) =
      effects rs ++ [ctx_save; ctx_translate tx ty; ctx_rotate angle;
                     ctx_drawImage img dx dy dw dh; ctx_restore].
Proof.
  intros H. unfold drawItem. rewrite H. split; [reflexivity|].
  do 7 eexists. reflexivity.
Qed.

Lemma drawItem_missing (canvas : Canvas.t) (bm : BodyMetrics)
    (rs : RenderState) (item : PlacedItem.t) :
  images rs !! PlacedItem.id item = None ->
  images (drawItem canvas bm rs item) =
    <[PlacedItem.id item := HTMLImageElement.loading (PlacedItem.imageUrl item)]>
      (images rs) /\
  effects (drawItem canvas bm rs item) =
    effects rs ++ [NewImage (PlacedItem.id item) (PlacedItem.imageUrl item)].
Proof. intros H. unfold drawItem. rewrite H. split; reflexivity. Qed.

(** One item: the number of loads started for [itemId] plus its absence
    from the cache never grows, and loads are never forgotten. *)
Lemma drawItem_potential (canvas : Canvas.t) (bm : BodyMetrics)
    (rs : RenderState) (item : PlacedItem.t) (itemId : string) :
  loadsStarted itemId (effects (drawItem canvas bm rs item))
    + absent itemId (drawItem canvas bm rs item)
  <= loadsStarted itemId (effects rs) + absent itemId rs /\
  loadsStarted itemId (effects rs)
  <= loadsStarted itemId (effects (drawItem canvas bm rs item)).
Proof.
  unfold absent.
  destruct (images rs !! PlacedItem.id item) as [img|] eqn:Hitem.
  - destruct (drawItem_cached canvas bm rs item img Hitem)
      as (-> & tx & ty & angle & dx & dy & dw & dh & ->).
    rewrite loadsStarted_app.
    change (loadsStarted itemId [ctx_save; ctx_translate tx ty; ctx_rotate angle;
                                 ctx_drawImage img dx dy dw dh; ctx_restore]) with 0.
    lia.
  - destruct (drawItem_missing canvas bm rs item Hitem) as (-> & ->).
    rewrite loadsStarted_app.
    change (loadsStarted itemId [NewImage (PlacedItem.id item) (PlacedItem.imageUrl item)])
      with (length (if String.eqb (PlacedItem.id item) itemId
                    then [NewImage (PlacedItem.id item) (PlacedItem.imageUrl item)]
                    else [])).
    destruct (String.eqb (PlacedItem.id item) itemId) eqn:Hid; simpl length.
    + apply String.eqb_eq in Hid. subst itemId.
      rewrite lookup_insert_eq, Hitem. lia.
    + apply String.eqb_neq in Hid.
      rewrite lookup_insert_ne by exact Hid.
      destruct (images rs !! itemId); lia.
Qed.

Lemma drawClothes_potential (canvas : Canvas.t) (bm : BodyMetrics)
    (items : list PlacedItem.t) (rs : RenderState) (itemId : string) :
  loadsStarted itemId (effects (drawClothes canvas bm rs items))
    + absent itemId (drawClothes canvas bm rs items)
  <= loadsStarted itemId (effects rs) + absent itemId rs /\
  loadsStarted itemId (effects rs)
  <= loadsStarted itemId (effects (drawClothes canvas bm rs items)).
Proof.
  unfold drawClothes. revert rs.
  induction items as [|item items IH]; intros rs; simpl; [lia|].
  pose proof (drawItem_potential canvas bm rs item itemId).
  pose proof (IH (drawItem canvas bm rs item)). lia.
Qed.

Lemma cacheStep_potential (ev : cacheEvent) (rs : RenderState) (itemId : string) :
  loadsStarted itemId (effects (cacheStep rs ev)) + absent itemId (cacheStep rs ev)
  <= loadsStarted itemId (effects rs) + absent itemId rs /\
  loadsStarted itemId (effects rs) <= loadsStarted itemId (effects (cacheStep rs ev)).
Proof.
  destruct ev as [canvas bm items|i w h|newItem]; simpl.
  - apply drawClothes_potential.
  - unfold absent, decoded; simpl. rewrite lookup_alter.
    destruct (decide (i = itemId)) as [->|Hne].
    + destruct (images rs !! itemId); simpl; lia.
    + destruct (images rs !! itemId); simpl; lia.
  - unfold absent, preload; simpl.
    destruct (decide (ClothingItem.id newItem = itemId)) as [<-|Hne].
    + rewrite lookup_insert_eq. destruct (images rs !! ClothingItem.id newItem); lia.
    + rewrite lookup_insert_ne by exact Hne. lia.
Qed.

Lemma cacheRun_potential (evs : list cacheEvent) (rs : RenderState) (itemId : string) :
  loadsStarted itemId (effects (cacheRun rs evs)) + absent itemId (cacheRun rs evs)
  <= loadsStarted itemId (effects rs) + absent itemId rs /\
  loadsStarted itemId (effects rs) <= loadsStarted itemId (effects (cacheRun rs evs)).
Proof.
  unfold cacheRun. revert rs.
  induction evs as [|ev evs IH]; intros rs; simpl; [lia|].
  pose proof (cacheStep_potential ev rs itemId).
  pose proof (IH (cacheStep rs ev)). lia.
Qed.

(** A whole call of [renderLoop] that completes: drawing the background
    starts no load, and the garments are drawn by [drawClothes]. *)
Lemma renderLoop_potential (Math_pow Math_atan2 : float -> float -> float)
    (video : option HTMLVideoElement.t) (canvas canvas' : option Canvas.t)
    (poseLandmarker : bool)
    (detection : completion (list (list VisionTaskResult.landmark)))
    (items : list PlacedItem.t) (rs rs' : RenderState) (itemId : string) :
  renderLoop Math_pow Math_atan2 video canvas poseLandmarker detection items rs
    = Normal (canvas', rs') ->
  loadsStarted itemId (effects rs') + absent itemId rs'
  <= loadsStarted itemId (effects rs) + absent itemId rs /\
  loadsStarted itemId (effects rs) <= loadsStarted itemId (effects rs').
Proof.
  unfold renderLoop. intros Hrun.
  destruct video as [video|], canvas as [canvas|], poseLandmarker;
    try (injection Hrun as <- <-; lia).
  destruct (_ && _ && _); [|injection Hrun as <- <-; lia].
  set (c := if negb _ then _ else canvas) in Hrun.
  set (bg := mkRender (images rs) _) in Hrun.
  assert (Hbg : loadsStarted itemId (effects bg) = loadsStarted itemId (effects rs)
                /\ absent itemId bg = absent itemId rs).
  { subst bg; simpl. rewrite loadsStarted_app. split; [|reflexivity].
    unfold loadsStarted at 2; simpl. lia. }
  destruct Hbg as [Hl Ha].
  destruct detection as [[|landmarks rest]|e];
    try (injection Hrun as <- <-; lia).
  destruct (bodyMetrics Math_pow Math_atan2 c landmarks) as [bm|e]; [|discriminate].
  injection Hrun as <- <-.
  pose proof (drawClothes_potential c bm items bg itemId). lia.
Qed.







Lemma is_nan_not_finite (x : float) : is_nan x = true -> is_finite x = false.
Proof. intros Hx. unfold is_finite. rewrite Hx. reflexivity. Qed.




(** Right after an upload the shirt's image element is cached but not yet
    decoded.  The compositor issues the whole draw sequence with that
    element, [drawImage] included; its height arguments are NaN and the
    element is not complete, so the canvas paints nothing.  Once the
    element is decoded the same tick paints it. *)
Lemma compositor_draws_undecoded_image :
  images Sample.cacheLoading !! "g1" = Some Sample.shirtLoading /\
  HTMLImageElement.complete Sample.shirtLoading = false /\
  effects (drawItem Sample.canvas1000 Sample.leftBody Sample.cacheLoading
             (placeWithDefaults Sample.shirt)) =
    [ctx_save; ctx_translate 700 200; ctx_rotate 0;
     ctx_drawImage Sample.shirtLoading (-250) nan 500 nan; ctx_restore] /\
  drawsIncomplete
    (effects (drawItem Sample.canvas1000 Sample.leftBody Sample.cacheLoading
                (placeWithDefaults Sample.shirt))) = true /\
  painted
    (effects (drawItem Sample.canvas1000 Sample.leftBody Sample.cacheLoading
                (placeWithDefaults Sample.shirt))) = [] /\
  painted
    (effects (drawItem Sample.canvas1000 Sample.leftBody Sample.cacheReady
                (placeWithDefaults Sample.shirt))) = [Sample.shirtImage].
Proof. repeat split; vm_compute; reflexivity. Qed.

(** A garment queued twice and committed with an empty cache: on the first
    tick its first occurrence starts the load and its second occurrence is
    drawn at once with the element that has only just started loading. *)
Lemma compositor_draws_duplicate_at_once :
  effects (drawClothes Sample.canvas1000 Sample.leftBody Sample.cacheEmpty
             [placeWithDefaults Sample.shirt; placeWithDefaults Sample.shirt]) =
    [NewImage "g1" "data:image/png;base64,c2hpcnQ=";
     ctx_save; ctx_translate 700 200; ctx_rotate 0;
     ctx_drawImage Sample.shirtLoading (-250) nan 500 nan; ctx_restore].
Proof. vm_compute. reflexivity. Qed.

(** ** Classification service *)

(** [analyzeClothingImage] by cases on the key, the call, the response
    text and the parse. *)
Lemma analyzeClothingImage_cases (API_KEY : string)
    (generateContent : string -> string -> completion GenerateContentResponse)
    (JSON_parse : string -> completion JSValue) (base64Image : string) :
  analyzeClothingImage API_KEY generateContent JSON_parse base64Image =
    if String.eqb API_KEY "" then
      Normal (analysisObject (mkAnalysis "TOP" "Unidentified Item" "Unknown"))
    else
      match generateContent (DataUrl.mimeTypeOf base64Image)
              (DataUrl.base64DataOf base64Image) with
      | Throw _ => Normal (analysisObject (mkAnalysis "TOP" "New Item" "Mixed"))
      | Normal response =>
          match text response with
          | None => Normal (analysisObject (mkAnalysis "TOP" "New Item" "Mixed"))
          | Some EmptyString =>
              Normal (analysisObject (mkAnalysis "TOP" "New Item" "Mixed"))
          | Some t =>
              match JSON_parse t with
              | Throw _ => Normal (analysisObject (mkAnalysis "TOP" "New Item" "Mixed"))
              | Normal value => Normal value
              end
          end
      end.
Proof.
  unfold analyzeClothingImage, requestAnalysis.
  destruct (String.eqb API_KEY ""); [reflexivity|].
  destruct (generateContent _ _) as [response|e]; [|reflexivity].
  destruct (text response) as [[|c t]|]; reflexivity.
Qed.

Lemma analyzeClothingImage_completes (API_KEY : string)
    (generateContent : string -> string -> completion GenerateContentResponse)
    (JSON_parse : string -> completion JSValue) (base64Image : string) :
  exists value,
    analyzeClothingImage API_KEY generateContent JSON_parse base64Image = Normal value.
Proof.
  rewrite analyzeClothingImage_cases.
  destruct (String.eqb API_KEY ""); [eauto|].
  destruct (generateContent _ _) as [response|e]; [|eauto].
  destruct (text response) as [[|c t]|]; eauto.
  destruct (JSON_parse (String c t)); eauto.
Qed.

(** [onFileLoaded] on an analysis whose category and name are strings. *)
Lemma onFileLoaded_typed (API_KEY : string)
    (generateContent : string -> string -> completion GenerateContentResponse)
    (JSON_parse : string -> completion JSValue)
    (uuid : string) (now : float) (base64 : string)
    (st : AppState) (imgs : gmap string HTMLImageElement.t)
    (analysis : JSValue) (category name : string) :
  analyzeClothingImage API_KEY generateContent JSON_parse base64 = Normal analysis ->
  getProperty analysis "category" = Normal (JSString category) ->
  getProperty analysis "name" = Normal (JSString name) ->
  onFileLoaded API_KEY generateContent JSON_parse uuid now base64 st imgs
    = Landed (uploadCompleted (ClothingItem.mk uuid base64 category name now) st)
        (preload (ClothingItem.mk uuid base64 category name now) imgs).
Proof.
  intros Han Hcat Hname. unfold onFileLoaded. rewrite Han, Hcat, Hname. reflexivity.
Qed.

(** C9 (as amended). For every input image, [analyzeClothingImage]
    completes normally, never with an exception.  Without an API key it
    returns the placeholder TOP / "Unidentified Item" / "Unknown".  With a
    key it returns the placeholder TOP / "New Item" / "Mixed" in each of
    the four ways the request can fail: the call is rejected, the response
    has no text, the text is empty, or [JSON.parse] throws on it; and when
    the text parses, it returns the parsed value as it is.  Each
    placeholder is fixed, and the two share the category only.  From
    either placeholder the upload handler builds its garment, a "TOP". *)
Theorem analyzeClothingImage_degrades (API_KEY : string)
    (generateContent : string -> string -> completion GenerateContentResponse)
    (JSON_parse : string -> completion JSValue) (base64Image : string) :
  (exists value,
     analyzeClothingImage API_KEY generateContent JSON_parse base64Image
       = Normal value) /\
  (API_KEY = "" ->
   analyzeClothingImage API_KEY generateContent JSON_parse base64Image
     = Normal (analysisObject (mkAnalysis "TOP" "Unidentified Item" "Unknown"))) /\
  (API_KEY <> "" ->
   (forall e : string,
      generateContent (DataUrl.mimeTypeOf base64Image)
        (DataUrl.base64DataOf base64Image) = Throw e ->
      analyzeClothingImage API_KEY generateContent JSON_parse base64Image
        = Normal (analysisObject (mkAnalysis "TOP" "New Item" "Mixed"))) /\
   (forall response : GenerateContentResponse,
      generateContent (DataUrl.mimeTypeOf base64Image)
        (DataUrl.base64DataOf base64Image) = Normal response ->
      (text response = None ->
       analyzeClothingImage API_KEY generateContent JSON_parse base64Image
         = Normal (analysisObject (mkAnalysis "TOP" "New Item" "Mixed"))) /\
      (text response = Some EmptyString ->
       analyzeClothingImage API_KEY generateContent JSON_parse base64Image
         = Normal (analysisObject (mkAnalysis "TOP" "New Item" "Mixed"))) /\
      (forall t : string,
         text response = Some t -> t <> EmptyString ->
         (forall e : string,
            JSON_parse t = Throw e ->
            analyzeClothingImage API_KEY generateContent JSON_parse base64Image
              = Normal (analysisObject (mkAnalysis "TOP" "New Item" "Mixed"))) /\
         (forall value : JSValue,
            JSON_parse t = Normal value ->
            analyzeClothingImage API_KEY generateContent JSON_parse base64Image
              = Normal value)))) /\
  (analyzeClothingImage API_KEY generateContent JSON_parse base64Image
     = Normal (analysisObject (mkAnalysis "TOP" "Unidentified Item" "Unknown")) \/
   analyzeClothingImage API_KEY generateContent JSON_parse base64Image
     = Normal (analysisObject (mkAnalysis "TOP" "New Item" "Mixed")) ->
   forall (uuid : string) (now : float) (st : AppState)
          (imgs : gmap string HTMLImageElement.t),
   exists newItem,
     ClothingItem.category newItem = "TOP" /\
     onFileLoaded API_KEY generateContent JSON_parse uuid now base64Image st imgs
       = Landed (uploadCompleted newItem st) (preload newItem imgs)).
Proof.
  split; [|split; [|split]].
  - apply analyzeClothingImage_completes.
  - intros ->. reflexivity.
  - rewrite analyzeClothingImage_cases.
    intros Hkey. apply String.eqb_neq in Hkey. rewrite Hkey. split.
    + intros e ->. reflexivity.
    + intros response ->. split; [|split].
      * intros ->. reflexivity.
      * intros ->. reflexivity.
      * intros t -> Ht. destruct t as [|c t]; [congruence|]. split.
        -- intros e ->. reflexivity.
        -- intros value ->. reflexivity.
  - intros [Hplace|Hplace] uuid now st imgs.
    + exists (ClothingItem.mk uuid base64Image "TOP" "Unidentified Item" now).
      split; [reflexivity|].
      exact (onFileLoaded_typed _ _ _ uuid now _ st imgs _ _ _ Hplace eq_refl eq_refl).
    + exists (ClothingItem.mk uuid base64Image "TOP" "New Item" now).
      split; [reflexivity|].
      exact (onFileLoaded_typed _ _ _ uuid now _ st imgs _ _ _ Hplace eq_refl eq_refl).
Qed.

(** The degradation cases one by one: no key; with a key, a call that is
    rejected, a response without text, an empty text, a text that does not
    parse; and a text that parses to [null], which is returned. *)
Lemma analyzeClothingImage_degrades_witness :
  analyzeClothingImage "" Sample.unreachable Sample.rejectingParser
    "data:image/png;base64,c2hpcnQ="
    = Normal (analysisObject (mkAnalysis "TOP" "Unidentified Item" "Unknown")) /\
  analyzeClothingImage "k3y" Sample.unreachable Sample.parser
    "data:image/png;base64,c2hpcnQ="
    = Normal (analysisObject (mkAnalysis "TOP" "New Item" "Mixed")) /\
  analyzeClothingImage "k3y" Sample.silent Sample.parser
    "data:image/png;base64,c2hpcnQ="
    = Normal (analysisObject (mkAnalysis "TOP" "New Item" "Mixed")) /\
  analyzeClothingImage "k3y" Sample.blank Sample.parser
    "data:image/png;base64,c2hpcnQ="
    = Normal (analysisObject (mkAnalysis "TOP" "New Item" "Mixed")) /\
  analyzeClothingImage "k3y" (Sample.answering "{oops") Sample.parser
    "data:image/png;base64,c2hpcnQ="
    = Normal (analysisObject (mkAnalysis "TOP" "New Item" "Mixed")) /\
  analyzeClothingImage "k3y" (Sample.answering "null") Sample.parser
    "data:image/png;base64,c2hpcnQ="
    = Normal JSNull /\
  (exists newItem,
     ClothingItem.category newItem = "TOP" /\
     onFileLoaded "k3y" Sample.unreachable Sample.parser "u-1" 5000
       "data:image/png;base64,c2hpcnQ=" Sample.initial ∅
     = Landed (uploadCompleted newItem Sample.initial) (preload newItem ∅)).
Proof.
  assert (Hkey : "k3y"%string <> ""%string) by discriminate.
  destruct (analyzeClothingImage_degrades "" Sample.unreachable Sample.rejectingParser
              "data:image/png;base64,c2hpcnQ=") as (_ & Hmock & _).
  destruct (analyzeClothingImage_degrades "k3y" Sample.unreachable Sample.parser
              "data:image/png;base64,c2hpcnQ=") as (_ & _ & Hrejected & Hlands).
  destruct (analyzeClothingImage_degrades "k3y" Sample.silent Sample.parser
              "data:image/png;base64,c2hpcnQ=") as (_ & _ & Hsilent & _).
  destruct (analyzeClothingImage_degrades "k3y" Sample.blank Sample.parser
              "data:image/png;base64,c2hpcnQ=") as (_ & _ & Hblank & _).
  destruct (analyzeClothingImage_degrades "k3y" (Sample.answering "{oops") Sample.parser
              "data:image/png;base64,c2hpcnQ=") as (_ & _ & Hoops & _).
  destruct (analyzeClothingImage_degrades "k3y" (Sample.answering "null") Sample.parser
              "data:image/png;base64,c2hpcnQ=") as (_ & _ & Hnull & _).
  split; [exact (Hmock eq_refl)|].
  split; [exact (proj1 (Hrejected Hkey) "NetworkError"%string eq_refl)|].
  split; [exact (proj1 (proj2 (Hsilent Hkey) (mkResponse None) eq_refl) eq_refl)|].
  split; [exact (proj1 (proj2 (proj2 (Hblank Hkey) (mkResponse (Some EmptyString))
                                 eq_refl)) eq_refl)|].
  split.
  { refine (proj1 (proj2 (proj2 (proj2 (Hoops Hkey) (mkResponse (Some "{oops"%string))
                                   eq_refl)) "{oops"%string eq_refl _)
              "SyntaxError"%string eq_refl).
    discriminate. }
  split.
  { refine (proj2 (proj2 (proj2 (proj2 (Hnull Hkey) (mkResponse (Some "null"%string))
                                   eq_refl)) "null"%string eq_refl _)
              JSNull eq_refl).
    discriminate. }
  apply Hlands. right. exact (proj1 (Hrejected Hkey) "NetworkError"%string eq_refl).
Defined.

(** C9, the claim as stated fails: the placeholder returned without an API
    key and the one returned when the call fails are different triples;
    they differ in name and in color. *)
Lemma placeholders_differ :
  analyzeClothingImage "" Sample.unreachable Sample.rejectingParser
    "data:image/png;base64,c2hpcnQ="
    = Normal (analysisObject (mkAnalysis "TOP" "Unidentified Item" "Unknown")) /\
  analyzeClothingImage "k3y" Sample.unreachable Sample.rejectingParser
    "data:image/png;base64,c2hpcnQ="
    = Normal (analysisObject (mkAnalysis "TOP" "New Item" "Mixed")) /\
  analysisObject (mkAnalysis "TOP" "Unidentified Item" "Unknown")
    <> analysisObject (mkAnalysis "TOP" "New Item" "Mixed").
Proof. repeat split. discriminate. Qed.

(** * Further properties of the code *)

(** ** The render loop as a whole *)

Lemma renderLoop_ready (Math_pow Math_atan2 : float -> float -> float)
    (video : HTMLVideoElement.t) (canvas : Canvas.t)
    (detection : completion (list (list VisionTaskResult.landmark)))
    (items : list PlacedItem.t) (rs : RenderState) :
  videoReady video = true ->
  renderLoop Math_pow Math_atan2 (Some video) (Some canvas) true detection items rs =
  let c := syncCanvas video canvas in
  let bg := mkRender (images rs) (effects rs ++ mirroredBackground c) in
  match detection with
  | Normal (landmarks :: _) =>
      match bodyMetrics Math_pow Math_atan2 c landmarks with
      | Normal bm => Normal (Some c, drawClothes c bm bg items)
      | Throw e => Throw e
      end
  | _ => Normal (Some c, bg)
  end.
Proof.
  intros Hready. unfold renderLoop. unfold videoReady in Hready. rewrite Hready.
  destruct detection as [[|landmarks rest]|e]; reflexivity.
Qed.

(** Without a video element, a canvas or a landmarker, or before the video
    has data, the call does nothing. *)
Lemma renderLoop_idle (Math_pow Math_atan2 : float -> float -> float)
    (video : option HTMLVideoElement.t) (canvas : option Canvas.t)
    (poseLandmarker : bool)
    (detection : completion (list (list VisionTaskResult.landmark)))
    (items : list PlacedItem.t) (rs : RenderState) :
  video = None \/ canvas = None \/ poseLandmarker = false \/
  (exists v, video = Some v /\ videoReady v = false) ->
  renderLoop Math_pow Math_atan2 video canvas poseLandmarker detection items rs
    = Normal (canvas, rs).
Proof.
  intros [->|[->|[->|(v & -> & Hv)]]]; unfold renderLoop.
  - reflexivity.
  - destruct video; reflexivity.
  - destruct video, canvas; reflexivity.
  - destruct canvas as [c|], poseLandmarker; try reflexivity.
    unfold videoReady in Hv. rewrite Hv. reflexivity.
Qed.

Lemma drawnImages_background (effs : list Effect) (canvas : Canvas.t) :
  drawnImages (effs ++ mirroredBackground canvas) = drawnImages effs.
Proof.
  induction effs as [|eff effs IH]; simpl; [reflexivity|].
  destruct eff; simpl; rewrite ?IH; reflexivity.
Qed.

(** X1. A tick without a usable pose completes normally and touches no
    garment: when the video element, the canvas or the landmarker is
    missing, the video has no data yet, [detectForVideo] throws, or it
    returns no landmark set, [renderLoop] returns (so the next frame is
    requested), leaves the image cache as it was, starts no load and calls
    [drawImage] for no garment. *)
Theorem tick_without_pose (Math_pow Math_atan2 : float -> float -> float)
    (video : option HTMLVideoElement.t) (canvas : option Canvas.t)
    (poseLandmarker : bool)
    (detection : completion (list (list VisionTaskResult.landmark)))
    (items : list PlacedItem.t) (rs : RenderState) :
  video = None \/ canvas = None \/ poseLandmarker = false \/
  (exists v, video = Some v /\ videoReady v = false) \/
  (exists e, detection = Throw e) \/ detection = Normal [] ->
  exists canvas' rs',
    renderLoop Math_pow Math_atan2 video canvas poseLandmarker detection items rs
      = Normal (canvas', rs') /\
    images rs' = images rs /\
    drawnImages (effects rs') = drawnImages (effects rs) /\
    (forall itemId,
       loadsStarted itemId (effects rs') = loadsStarted itemId (effects rs)).
Proof.
  intros Hcase.
  assert (Hidle : video = None \/ canvas = None \/ poseLandmarker = false \/
                  (exists v, video = Some v /\ videoReady v = false) ->
                  exists canvas' rs',
                    renderLoop Math_pow Math_atan2 video canvas poseLandmarker
                      detection items rs = Normal (canvas', rs') /\
                    images rs' = images rs /\
                    drawnImages (effects rs') = drawnImages (effects rs) /\
                    (forall itemId,
                       loadsStarted itemId (effects rs')
                       = loadsStarted itemId (effects rs))).
  { intros H. exists canvas, rs. split; [apply renderLoop_idle; exact H|].
    repeat split. }
  destruct video as [v|]; [|apply Hidle; auto].
  destruct canvas as [c|]; [|apply Hidle; auto].
  destruct poseLandmarker; [|apply Hidle; auto].
  destruct (videoReady v) eqn:Hready; [|apply Hidle; eauto 6].
  assert (Hdet : (exists e, detection = Throw e) \/ detection = Normal []).
  { destruct Hcase as [H|[H|[H|[(v' & H & Hv)|H]]]]; try discriminate; [|exact H].
    injection H as <-. congruence. }
  exists (Some (syncCanvas v c)),
    (mkRender (images rs) (effects rs ++ mirroredBackground (syncCanvas v c))).
  split.
  - rewrite renderLoop_ready by exact Hready.
    destruct Hdet as [(e & ->)| ->]; reflexivity.
  - simpl. split; [reflexivity|]. split; [apply drawnImages_background|].
    intros itemId. rewrite loadsStarted_app.
    change (loadsStarted itemId (mirroredBackground (syncCanvas v c))) with 0. lia.
Qed.

(** A video without data, whatever the detector would say. *)
Lemma tick_without_pose_witness :
  videoReady Scenario.emptyVideo = false /\
  exists canvas' rs',
    renderLoop Scenario.pow Scenario.atan2 (Some Scenario.emptyVideo)
      (Some Sample.canvas1000) true (Normal [Scenario.fullPose])
      [Scenario.placedShirt] Sample.cacheReady = Normal (canvas', rs') /\
    drawnImages (effects rs') = [].
Proof.
  split; [reflexivity|].
  destruct (tick_without_pose Scenario.pow Scenario.atan2 (Some Scenario.emptyVideo)
              (Some Sample.canvas1000) true (Normal [Scenario.fullPose])
              [Scenario.placedShirt] Sample.cacheReady)
    as (canvas' & rs' & Hrun & _ & Hdrawn & _).
  { right. right. right. left. exists Scenario.emptyVideo. split; reflexivity. }
  exists canvas', rs'. split; [exact Hrun|exact Hdrawn].
Defined.

Lemma bodyMetrics_bounds (Math_pow Math_atan2 : float -> float -> float)
    (canvas : Canvas.t) (landmarks : list VisionTaskResult.landmark) :
  (25 <= length landmarks ->
   exists bm, bodyMetrics Math_pow Math_atan2 canvas landmarks = Normal bm) /\
  (length landmarks < 25 ->
   bodyMetrics Math_pow Math_atan2 canvas landmarks = Throw "TypeError").
Proof.
  unfold bodyMetrics, LANDMARK_LEFT_SHOULDER, LANDMARK_RIGHT_SHOULDER,
    LANDMARK_LEFT_HIP, LANDMARK_RIGHT_HIP.
  split; intros Hlen.
  - destruct (lookup_lt_is_Some_2 landmarks 11 ltac:(lia)) as [l11 ->].
    destruct (lookup_lt_is_Some_2 landmarks 12 ltac:(lia)) as [l12 ->].
    destruct (lookup_lt_is_Some_2 landmarks 23 ltac:(lia)) as [l23 ->].
    destruct (lookup_lt_is_Some_2 landmarks 24 ltac:(lia)) as [l24 ->].
    eauto.
  - rewrite (lookup_ge_None_2 landmarks 24) by lia.
    destruct (landmarks !! 11), (landmarks !! 12), (landmarks !! 23); reflexivity.
Qed.

(** With the video ready and at least 25 landmarks the garments are drawn. *)
Lemma renderLoop_with_pose (Math_pow Math_atan2 : float -> float -> float)
    (video : HTMLVideoElement.t) (canvas : Canvas.t)
    (landmarks : list VisionTaskResult.landmark)
    (others : list (list VisionTaskResult.landmark))
    (items : list PlacedItem.t) (rs : RenderState) :
  videoReady video = true -> 25 <= length landmarks ->
  exists bm,
    bodyMetrics Math_pow Math_atan2 (syncCanvas video canvas) landmarks = Normal bm /\
    renderLoop Math_pow Math_atan2 (Some video) (Some canvas) true
      (Normal (landmarks :: others)) items rs
    = Normal (Some (syncCanvas video canvas),
              drawClothes (syncCanvas video canvas) bm
                (mkRender (images rs)
                   (effects rs ++ mirroredBackground (syncCanvas video canvas)))
                items).
Proof.
  intros Hready Hlen. rewrite renderLoop_ready by exact Hready. cbv zeta.
  destruct (proj1 (bodyMetrics_bounds Math_pow Math_atan2 (syncCanvas video canvas)
                     landmarks) Hlen) as [bm Hbm].
  exists bm. rewrite Hbm. split; reflexivity.
Qed.

(** X2. With the video ready, what the first landmark set's length
    decides: with at least 25 landmarks the body metrics exist and the
    tick completes with the garments drawn over the mirrored background;
    with fewer, reading a property of a missing landmark throws a
    [TypeError] out of [renderLoop], before the next frame is requested. *)
Theorem renderLoop_landmark_bounds (Math_pow Math_atan2 : float -> float -> float)
    (video : HTMLVideoElement.t) (canvas : Canvas.t)
    (landmarks : list VisionTaskResult.landmark)
    (others : list (list VisionTaskResult.landmark))
    (items : list PlacedItem.t) (rs : RenderState) :
  videoReady video = true ->
  (25 <= length landmarks ->
   exists bm,
     bodyMetrics Math_pow Math_atan2 (syncCanvas video canvas) landmarks = Normal bm /\
     renderLoop Math_pow Math_atan2 (Some video) (Some canvas) true
       (Normal (landmarks :: others)) items rs
     = Normal (Some (syncCanvas video canvas),
               drawClothes (syncCanvas video canvas) bm
                 (mkRender (images rs)
                    (effects rs ++ mirroredBackground (syncCanvas video canvas)))
                 items)) /\
  (length landmarks < 25 ->
   renderLoop Math_pow Math_atan2 (Some video) (Some canvas) true
     (Normal (landmarks :: others)) items rs
   = Throw "TypeError").
Proof.
  intros Hready. rewrite renderLoop_ready by exact Hready. cbv zeta.
  destruct (bodyMetrics_bounds Math_pow Math_atan2 (syncCanvas video canvas) landmarks)
    as [Hok Hshort].
  split; intros Hlen.
  - destruct (Hok Hlen) as [bm Hbm]. exists bm. rewrite Hbm. split; reflexivity.
  - rewrite (Hshort Hlen). reflexivity.
Qed.

Lemma positive_cases (v : float) :
  (0 <? v)%float = true ->
  Prim2SF v = S754_infinity false \/ exists m e, Prim2SF v = S754_finite false m e.
Proof.
  rewrite ltb_spec. change (Prim2SF 0) with (S754_zero false). unfold SFltb.
  destruct (Prim2SF v) as [s|s| |s m e]; simpl; try discriminate.
  - destruct s; [discriminate|left; reflexivity].
  - destruct s; [discriminate|right; eauto].
Qed.

(** A number that [===] a positive number is that number. *)
Lemma eqb_positive_eq (w v : float) :
  (0 <? v)%float = true -> (w =? v)%float = true -> w = v.
Proof.
  intros Hpos Heq. rewrite eqb_spec in Heq. unfold SFeqb in Heq.
  rewrite (SFcompare_antisym (Prim2SF v) (Prim2SF w)) in Heq.
  destruct (SFcompare (Prim2SF v) (Prim2SF w)) as [[ | | ]|] eqn:Hc; try discriminate.
  apply Prim2SF_inj.
  destruct (positive_cases v Hpos) as [Hv|(m & e & Hv)]; rewrite Hv in Hc |- *.
  - destruct (Prim2SF w) as [s|s| |s m e]; simpl in Hc; try discriminate.
    destruct s; [discriminate|reflexivity].
  - apply SFcompare_finite_Eq in Hc. exact Hc.
Qed.

Lemma eqb_positive_refl (v : float) : (0 <? v)%float = true -> (v =? v)%float = true.
Proof.
  intros Hpos. rewrite eqb_spec. unfold SFeqb.
  destruct (positive_cases v Hpos) as [->|(m & e & ->)]; simpl; [reflexivity|].
  rewrite Z.compare_refl, Pos.compare_cont_refl. reflexivity.
Qed.

(** X3. The size check compares widths only: once the video is ready the
    canvas ends up as wide as the video; a canvas that already has the
    video's width is left as it is, whatever its height, and any other
    canvas takes both dimensions of the video. *)
Theorem syncCanvas_width_only (video : HTMLVideoElement.t) (canvas : Canvas.t) :
  videoReady video = true ->
  Canvas.width (syncCanvas video canvas) = HTMLVideoElement.videoWidth video /\
  (Canvas.width canvas = HTMLVideoElement.videoWidth video ->
   syncCanvas video canvas = canvas) /\
  (Canvas.width canvas <> HTMLVideoElement.videoWidth video ->
   syncCanvas video canvas =
     Canvas.mk (HTMLVideoElement.videoWidth video)
       (HTMLVideoElement.videoHeight video)).
Proof.
  intros Hready. unfold videoReady in Hready.
  apply andb_prop in Hready. destruct Hready as [Hready _].
  apply andb_prop in Hready. destruct Hready as [_ Hw].
  unfold syncCanvas.
  destruct (Canvas.width canvas =? HTMLVideoElement.videoWidth video)%float eqn:Heq; simpl.
  - apply (eqb_positive_eq _ _ Hw) in Heq. split; [exact Heq|]. split; [reflexivity|].
    intros Hne. contradiction.
  - split; [reflexivity|]. split; [|reflexivity].
    intros Hsame. rewrite Hsame, (eqb_positive_refl _ Hw) in Heq. discriminate.
Qed.

Lemma bracketDepth_app (e1 e2 : list Effect) (d : nat) :
  bracketDepth d (e1 ++ e2) =
  match bracketDepth d e1 with
  | Some d' => bracketDepth d' e2
  | None => None
  end.
Proof.
  revert d. induction e1 as [|eff e1 IH]; intros d; simpl; [reflexivity|].
  destruct eff; try apply IH; destruct d; try reflexivity; apply IH.
Qed.

Lemma drawItem_bracketed (canvas : Canvas.t) (bm : BodyMetrics)
    (rs : RenderState) (item : PlacedItem.t) (d d' : nat) :
  bracketDepth d (effects rs) = Some d' ->
  bracketDepth d (effects (drawItem canvas bm rs item)) = Some d'.
Proof.
  intros H. unfold drawItem.
  destruct (images rs !! PlacedItem.id item); simpl;
    rewrite bracketDepth_app, H; reflexivity.
Qed.

Lemma drawClothes_bracketed (canvas : Canvas.t) (bm : BodyMetrics)
    (items : list PlacedItem.t) (rs : RenderState) (d d' : nat) :
  bracketDepth d (effects rs) = Some d' ->
  bracketDepth d (effects (drawClothes canvas bm rs items)) = Some d'.
Proof.
  unfold drawClothes. revert rs.
  induction items as [|item items IH]; intros rs H; simpl; [exact H|].
  apply IH, drawItem_bracketed, H.
Qed.

(** X4. Every completed tick leaves the context's state stack where it
    found it: each [save] it makes is matched by a [restore], it restores
    nothing it did not save, and it translates, scales and rotates only
    between a [save] and its [restore], so no transform leaks from the
    background into a garment or from one garment into the next. *)
Theorem renderLoop_bracketed (Math_pow Math_atan2 : float -> float -> float)
    (video : option HTMLVideoElement.t) (canvas canvas' : option Canvas.t)
    (poseLandmarker : bool)
    (detection : completion (list (list VisionTaskResult.landmark)))
    (items : list PlacedItem.t) (rs rs' : RenderState) (d d' : nat) :
  renderLoop Math_pow Math_atan2 video canvas poseLandmarker detection items rs
    = Normal (canvas', rs') ->
  bracketDepth d (effects rs) = Some d' ->
  bracketDepth d (effects rs') = Some d'.
Proof.
  intros Hrun Hd.
  destruct video as [video|]; [|rewrite renderLoop_idle in Hrun by auto; congruence].
  destruct canvas as [canvas|]; [|rewrite renderLoop_idle in Hrun by auto; congruence].
  destruct poseLandmarker; [|rewrite renderLoop_idle in Hrun by auto; congruence].
  destruct (videoReady video) eqn:Hready;
    [|rewrite renderLoop_idle in Hrun by eauto 6; congruence].
  rewrite renderLoop_ready in Hrun by exact Hready. cbv zeta in Hrun.
  assert (Hbg : bracketDepth d (effects rs ++ mirroredBackground (syncCanvas video canvas))
                = Some d').
  { rewrite bracketDepth_app, Hd. reflexivity. }
  destruct detection as [[|landmarks rest]|e]; try (injection Hrun as _ <-; exact Hbg).
  destruct (bodyMetrics Math_pow Math_atan2 (syncCanvas video canvas) landmarks) as [bm|e];
    [|discriminate].
  injection Hrun as _ <-. apply drawClothes_bracketed. exact Hbg.
Qed.

Lemma drawItem_keeps (canvas : Canvas.t) (bm : BodyMetrics) (rs : RenderState)
    (item : PlacedItem.t) (itemId : string) (img : HTMLImageElement.t) :
  images rs !! itemId = Some img ->
  images (drawItem canvas bm rs item) !! itemId = Some img.
Proof.
  intros H. unfold drawItem.
  destruct (images rs !! PlacedItem.id item) as [cached|] eqn:Hitem; simpl; [exact H|].
  rewrite lookup_insert_ne; [exact H|]. intros Heq. congruence.
Qed.

Lemma drawClothes_keeps (canvas : Canvas.t) (bm : BodyMetrics)
    (items : list PlacedItem.t) (rs : RenderState)
    (itemId : string) (img : HTMLImageElement.t) :
  images rs !! itemId = Some img ->
  images (drawClothes canvas bm rs items) !! itemId = Some img.
Proof.
  unfold drawClothes. revert rs.
  induction items as [|item items IH]; intros rs H; simpl; [exact H|].
  apply IH, drawItem_keeps, H.
Qed.

Lemma drawItem_caches (canvas : Canvas.t) (bm : BodyMetrics) (rs : RenderState)
    (item : PlacedItem.t) :
  is_Some (images (drawItem canvas bm rs item) !! PlacedItem.id item).
Proof.
  unfold drawItem.
  destruct (images rs !! PlacedItem.id item) as [cached|] eqn:Hitem; simpl.
  - rewrite Hitem. eauto.
  - rewrite lookup_insert_eq. eauto.
Qed.

Lemma drawClothes_caches_all (canvas : Canvas.t) (bm : BodyMetrics)
    (items : list PlacedItem.t) (rs : RenderState) :
  Forall (fun item => is_Some (images (drawClothes canvas bm rs items)
                                 !! PlacedItem.id item)) items.
Proof.
  unfold drawClothes. revert rs.
  induction items as [|item items IH]; intros rs; simpl; constructor.
  - destruct (drawItem_caches canvas bm rs item) as [img Himg].
    exists img. apply (drawClothes_keeps canvas bm items). exact Himg.
  - apply IH.
Qed.

(** X5. The compositor never replaces or drops a cached image element:
    whatever is cached under an id before a tick is cached under it,
    unchanged, after the tick. *)
Theorem renderLoop_keeps_cache (Math_pow Math_atan2 : float -> float -> float)
    (video : option HTMLVideoElement.t) (canvas canvas' : option Canvas.t)
    (poseLandmarker : bool)
    (detection : completion (list (list VisionTaskResult.landmark)))
    (items : list PlacedItem.t) (rs rs' : RenderState)
    (itemId : string) (img : HTMLImageElement.t) :
  renderLoop Math_pow Math_atan2 video canvas poseLandmarker detection items rs
    = Normal (canvas', rs') ->
  images rs !! itemId = Some img ->
  images rs' !! itemId = Some img.
Proof.
  intros Hrun Himg.
  destruct video as [video|]; [|rewrite renderLoop_idle in Hrun by auto; congruence].
  destruct canvas as [canvas|]; [|rewrite renderLoop_idle in Hrun by auto; congruence].
  destruct poseLandmarker; [|rewrite renderLoop_idle in Hrun by auto; congruence].
  destruct (videoReady video) eqn:Hready;
    [|rewrite renderLoop_idle in Hrun by eauto 6; congruence].
  rewrite renderLoop_ready in Hrun by exact Hready. cbv zeta in Hrun.
  destruct detection as [[|landmarks rest]|e]; try (injection Hrun as _ <-; exact Himg).
  destruct (bodyMetrics Math_pow Math_atan2 (syncCanvas video canvas) landmarks) as [bm|e];
    [|discriminate].
  injection Hrun as _ <-. apply drawClothes_keeps. exact Himg.
Qed.

Lemma drawnImages_app (e1 e2 : list Effect) :
  drawnImages (e1 ++ e2) = drawnImages e1 ++ drawnImages e2.
Proof.
  induction e1 as [|eff e1 IH]; simpl; [reflexivity|].
  destruct eff; simpl; rewrite IH; reflexivity.
Qed.

(** A pass over garments that are all cached starts no load and draws
    each of them once, in list order, with its cached element. *)
Lemma drawClothes_all_cached (canvas : Canvas.t) (bm : BodyMetrics)
    (items : list PlacedItem.t) (rs : RenderState) :
  Forall (fun item => is_Some (images rs !! PlacedItem.id item)) items ->
  images (drawClothes canvas bm rs items) = images rs /\
  exists imgs,
    drawnImages (effects (drawClothes canvas bm rs items))
      = drawnImages (effects rs) ++ imgs /\
    Forall2 (fun item img => images rs !! PlacedItem.id item = Some img) items imgs.
Proof.
  unfold drawClothes. revert rs.
  induction items as [|item items IH]; intros rs Hall; simpl.
  - split; [reflexivity|]. exists []. rewrite app_nil_r. split; [reflexivity|constructor].
  - apply Forall_cons in Hall. destruct Hall as [[img Himg] Hall].
    destruct (drawItem_cached canvas bm rs item img Himg)
      as (Himgs & tx & ty & angle & dx & dy & dw & dh & Heffs).
    destruct (IH (drawItem canvas bm rs item)) as (Hkeep & imgs & Hdrawn & Hall2).
    { rewrite Himgs. exact Hall. }
    split; [rewrite Hkeep; exact Himgs|].
    exists (img :: imgs). split.
    + rewrite Hdrawn, Heffs, drawnImages_app. simpl. rewrite <- app_assoc. reflexivity.
    + constructor; [exact Himg|]. rewrite Himgs in Hall2. exact Hall2.
Qed.

(** X6. After one pass over the placed garments every one of them has a
    cached element, so a second pass over the same garments (any canvas,
    any body frame) leaves the cache alone, starts no load, and calls
    [drawImage] once per garment, in list order, each with the element
    cached under its id. *)
Theorem second_pass_draws_all (canvas canvas' : Canvas.t) (bm bm' : BodyMetrics)
    (items : list PlacedItem.t) (rs : RenderState) :
  let rs1 := drawClothes canvas bm rs items in
  let rs2 := drawClothes canvas' bm' rs1 items in
  images rs2 = images rs1 /\
  (forall itemId, loadsStarted itemId (effects rs2) = loadsStarted itemId (effects rs1)) /\
  exists imgs,
    drawnImages (effects rs2) = drawnImages (effects rs1) ++ imgs /\
    Forall2 (fun item img => images rs1 !! PlacedItem.id item = Some img) items imgs.
Proof.
  intros rs1 rs2.
  destruct (drawClothes_all_cached canvas' bm' items rs1
              (drawClothes_caches_all canvas bm items rs)) as (Hkeep & imgs & Hdrawn & Hall).
  split; [exact Hkeep|]. split; [|exists imgs; split; assumption].
  intros itemId. subst rs2.
  pose proof (drawClothes_potential canvas' bm' items rs1 itemId) as [Hle Hge].
  unfold absent in Hle. rewrite Hkeep in Hle.
  destruct (images rs1 !! itemId); lia.
Qed.

(** ** Runs of handlers *)

Lemma transformed_garment (item : PlacedItem.t) (dS dR dX dY : float) :
  PlacedItem.garment (transformed item dS dR dX dY) = PlacedItem.garment item.
Proof. reflexivity. Qed.

(** X7. Any number of [updateItemTransform] calls completes and changes
    nothing but the transform of the last placed item: closet, queue and
    menu stay, an empty placement list stays empty, and otherwise the
    earlier items are untouched and the last one keeps its garment fields
    (id, image, category, name, timestamp). *)
Theorem adjustments_keep_identity (acts : list action) (st : AppState) :
  forallb isAdjustment acts = true ->
  exists st',
    run acts st = Normal st' /\
    closet st' = closet st /\ queue st' = queue st /\
    isMenuOpen st' = isMenuOpen st /\
    (activeItems st = [] -> activeItems st' = []) /\
    (forall earlier item,
       activeItems st = earlier ++ [item] ->
       exists item',
         activeItems st' = earlier ++ [item'] /\
         PlacedItem.garment item' = PlacedItem.garment item).
Proof.
  revert st. induction acts as [|a acts IH]; intros st Hadj; simpl in *.
  - exists st. repeat split; eauto.
  - apply andb_prop in Hadj. destruct Hadj as [Ha Hadj].
    destruct a; try discriminate. simpl.
    destruct (list_nil_or_snoc (activeItems st)) as [H|(earlier & item & H)].
    + rewrite (updateItemTransform_nil _ _ _ _ _ H).
      destruct (IH st Hadj) as (st' & Hrun & Hc & Hq & Hm & Hnil & Hsnoc).
      exists st'. repeat split; assumption.
    + rewrite (updateItemTransform_snoc _ _ _ _ _ _ _ H).
      destruct (IH (mkApp (closet st) (queue st)
                      (earlier ++ [transformed item deltaScale deltaRot deltaX deltaY])
                      (isMenuOpen st) (isProcessing st) (isRecording st)) Hadj)
        as (st' & Hrun & Hc & Hq & Hm & Hnil & Hsnoc).
      exists st'. split; [exact Hrun|]. repeat split; try assumption.
      * intros Hempty. rewrite Hempty in H. destruct earlier; discriminate.
      * intros earlier0 item0 H0. rewrite H0 in H.
        apply app_inj_tail in H. destruct H as [-> ->].
        destruct (Hsnoc earlier (transformed item deltaScale deltaRot deltaX deltaY) eq_refl)
          as (item' & Hact & Hg).
        exists item'. split; [exact Hact|]. rewrite Hg. reflexivity.
Qed.

(** X9. The placement list is a snapshot of the queue at commit: after
    [handleTryOn], handlers other than try-on, clear and adjust (queue
    removals and additions, uploads, closet and menu actions) leave the
    placed items exactly as the commit made them. *)
Theorem placements_are_a_snapshot (acts : list action) (st : AppState) :
  forallb (fun a => negb (writesPlacements a)) acts = true ->
  exists st',
    run acts (handleTryOn st) = Normal st' /\
    activeItems st' = map placeWithDefaults (queue st).
Proof.
  intros Hacts.
  assert (H : forall s, exists s', run acts s = Normal s' /\ activeItems s' = activeItems s).
  { induction acts as [|a acts IH]; intros s; simpl in *; [eauto|].
    apply andb_prop in Hacts. destruct Hacts as [Ha Hacts].
    destruct a; try discriminate; simpl;
      match goal with
      | |- exists s', run acts ?s1 = _ /\ _ =>
          destruct (IH Hacts s1) as (s' & Hrun & Hact); exists s'; split; [exact Hrun|exact Hact]
      end. }
  destruct (H (handleTryOn st)) as (st' & Hrun & Hact).
  exists st'. split; [exact Hrun|]. rewrite Hact. reflexivity.
Qed.

(** X10. Only an upload, the initial load and "Clear All Data" write the
    closet: any run of the other handlers completes with the closet it
    started from. *)
Theorem closet_frame (acts : list action) (st : AppState) :
  forallb (fun a => negb (writesCloset a)) acts = true ->
  exists st', run acts st = Normal st' /\ closet st' = closet st.
Proof.
  revert st. induction acts as [|a acts IH]; intros st Hacts; simpl in *; [eauto|].
  apply andb_prop in Hacts. destruct Hacts as [Ha Hacts].
  destruct a; try discriminate; simpl;
    try (match goal with
         | |- exists s', run acts ?s1 = _ /\ _ =>
             destruct (IH s1 Hacts) as (s' & Hrun & Hc); exists s'; split; [exact Hrun|exact Hc]
         end).
  destruct (list_nil_or_snoc (activeItems st)) as [H|(earlier & item & H)].
  - rewrite (updateItemTransform_nil _ _ _ _ _ H). apply IH; exact Hacts.
  - rewrite (updateItemTransform_snoc _ _ _ _ _ _ _ H).
    match goal with
    | |- exists s', run acts ?s1 = _ /\ _ =>
        destruct (IH s1 Hacts) as (s' & Hrun & Hc); exists s'; split; [exact Hrun|exact Hc]
    end.
Qed.

Lemma filter_other_ids_app (itemId : string) (q1 q2 : list ClothingItem.t) :
  List.filter (fun i => negb (String.eqb (ClothingItem.id i) itemId)) (q1 ++ q2) =
  List.filter (fun i => negb (String.eqb (ClothingItem.id i) itemId)) q1 ++
  List.filter (fun i => negb (String.eqb (ClothingItem.id i) itemId)) q2.
Proof. apply List.filter_app. Qed.

(** X8. The remove button of a thumbnail removes every queued record
    with that id, not only the one clicked: afterwards no record with the
    id is queued, the records with other ids are all still there in their
    order, a second removal changes nothing, and a closet item queued twice
    is gone after one removal. *)
Theorem removeFromQueue_removes_every_copy (itemId : string) (st : AppState)
    (item : ClothingItem.t) :
  Forall (fun i => ClothingItem.id i <> itemId) (queue (removeFromQueue itemId st)) /\
  queue (removeFromQueue itemId st) `sublist_of` queue st /\
  (forall i, In i (queue st) -> ClothingItem.id i <> itemId ->
             In i (queue (removeFromQueue itemId st))) /\
  removeFromQueue itemId (removeFromQueue itemId st) = removeFromQueue itemId st /\
  queue (removeFromQueue (ClothingItem.id item)
           (addFromCloset item (addFromCloset item st)))
    = queue (removeFromQueue (ClothingItem.id item) st).
Proof.
  unfold removeFromQueue; simpl. repeat split.
  - induction (queue st) as [|i q IH]; simpl; [constructor|].
    destruct (String.eqb (ClothingItem.id i) itemId) eqn:Hid; simpl; [exact IH|].
    constructor; [apply String.eqb_neq; exact Hid|exact IH].
  - induction (queue st) as [|i q IH]; simpl; [constructor|].
    destruct (String.eqb (ClothingItem.id i) itemId); simpl.
    + apply sublist_cons. exact IH.
    + apply sublist_skip. exact IH.
  - intros i Hin Hne. apply List.filter_In. split; [exact Hin|].
    apply String.eqb_neq in Hne. rewrite Hne. reflexivity.
  - f_equal. induction (queue st) as [|i q IH]; simpl; [reflexivity|].
    destruct (String.eqb (ClothingItem.id i) itemId) eqn:Hid; simpl; [exact IH|].
    rewrite Hid. simpl. rewrite IH. reflexivity.
  - rewrite !List.filter_app. simpl. rewrite String.eqb_refl. simpl.
    rewrite !app_nil_r. reflexivity.
Qed.

(** ** Upload *)

(** What a landed upload leaves behind. *)
Lemma upload_landed (newItem : ClothingItem.t) (st : AppState)
    (imgs : gmap string HTMLImageElement.t) :
  closet (uploadCompleted newItem st) = newItem :: closet st /\
  queue (uploadCompleted newItem st) = queue st ++ [newItem] /\
  activeItems (uploadCompleted newItem st) = activeItems st /\
  isProcessing (uploadCompleted newItem st) = false /\
  preload newItem imgs !! ClothingItem.id newItem
    = Some (HTMLImageElement.loading (ClothingItem.imageUrl newItem)) /\
  (forall other, other <> ClothingItem.id newItem ->
     preload newItem imgs !! other = imgs !! other) /\
  (forall (effs : list Effect) (evs : list cacheEvent),
     loadsStarted (ClothingItem.id newItem)
       (effects (cacheRun (mkRender (preload newItem imgs) effs) evs))
     = loadsStarted (ClothingItem.id newItem) effs).
Proof.
  repeat split.
  - unfold preload. apply lookup_insert_eq.
  - intros other Hne. unfold preload. apply lookup_insert_ne. congruence.
  - intros effs evs.
    pose proof (cacheRun_potential evs (mkRender (preload newItem imgs) effs)
                  (ClothingItem.id newItem)) as [Hle Hge].
    assert (Habs : absent (ClothingItem.id newItem)
                     (mkRender (preload newItem imgs) effs) = 0).
    { unfold absent, preload; simpl. rewrite lookup_insert_eq. reflexivity. }
    rewrite Habs in Hle. simpl in Hle, Hge. lia.
Qed.

(** X11. An upload lands when the analysis is an object whose category
    and name are strings, and is lost when the response text parses to
    [null].  Landing means: one new garment (the given id, the uploaded
    data URL as image) at the head of the closet and at the end of the
    queue, the placements untouched, [isProcessing] false, and its image
    element cached under its id at once (other ids unaffected), so that the
    compositor never starts a load for it.  The upload lands in
    particular without an API key and in each way the request can fail
    (rejected call, no text, empty text, text that does not parse), as a
    "TOP".  When the text parses to [null] the read of
    [analysis.category] throws a [TypeError] before any update: no
    garment is added and [isProcessing], set when the upload began, is
    never reset.  An analysis that is [null] (or [undefined]) is the only
    way for the callback to end in an exception. *)
Theorem upload_outcome (API_KEY : string)
    (generateContent : string -> string -> completion GenerateContentResponse)
    (JSON_parse : string -> completion JSValue)
    (uuid : string) (now : float) (base64 : string)
    (st : AppState) (imgs : gmap string HTMLImageElement.t) :
  (forall st' imgs',
     onFileLoaded API_KEY generateContent JSON_parse uuid now base64 st imgs
       = Landed st' imgs' ->
     exists newItem,
       ClothingItem.id newItem = uuid /\
       ClothingItem.imageUrl newItem = base64 /\
       closet st' = newItem :: closet st /\
       queue st' = queue st ++ [newItem] /\
       activeItems st' = activeItems st /\
       isProcessing st' = false /\
       imgs' !! uuid = Some (HTMLImageElement.loading base64) /\
       (forall other, other <> uuid -> imgs' !! other = imgs !! other) /\
       (forall (effs : list Effect) (evs : list cacheEvent),
          loadsStarted uuid (effects (cacheRun (mkRender imgs' effs) evs))
          = loadsStarted uuid effs)) /\
  (forall (analysis : JSValue) (category name : string),
     analyzeClothingImage API_KEY generateContent JSON_parse base64 = Normal analysis ->
     getProperty analysis "category" = Normal (JSString category) ->
     getProperty analysis "name" = Normal (JSString name) ->
     onFileLoaded API_KEY generateContent JSON_parse uuid now base64 st imgs
       = Landed (uploadCompleted (ClothingItem.mk uuid base64 category name now) st)
           (preload (ClothingItem.mk uuid base64 category name now) imgs)) /\
  (API_KEY = "" ->
   onFileLoaded API_KEY generateContent JSON_parse uuid now base64 st imgs
     = Landed
         (uploadCompleted (ClothingItem.mk uuid base64 "TOP" "Unidentified Item" now) st)
         (preload (ClothingItem.mk uuid base64 "TOP" "Unidentified Item" now) imgs)) /\
  (API_KEY <> "" ->
   (forall e : string,
      generateContent (DataUrl.mimeTypeOf base64) (DataUrl.base64DataOf base64)
        = Throw e ->
      onFileLoaded API_KEY generateContent JSON_parse uuid now base64 st imgs
        = Landed (uploadCompleted (ClothingItem.mk uuid base64 "TOP" "New Item" now) st)
            (preload (ClothingItem.mk uuid base64 "TOP" "New Item" now) imgs)) /\
   (forall response : GenerateContentResponse,
      generateContent (DataUrl.mimeTypeOf base64) (DataUrl.base64DataOf base64)
        = Normal response ->
      (text response = None \/ text response = Some EmptyString ->
       onFileLoaded API_KEY generateContent JSON_parse uuid now base64 st imgs
         = Landed (uploadCompleted (ClothingItem.mk uuid base64 "TOP" "New Item" now) st)
             (preload (ClothingItem.mk uuid base64 "TOP" "New Item" now) imgs)) /\
      (forall t : string,
         text response = Some t -> t <> EmptyString ->
         (forall e : string,
            JSON_parse t = Throw e ->
            onFileLoaded API_KEY generateContent JSON_parse uuid now base64 st imgs
              = Landed
                  (uploadCompleted (ClothingItem.mk uuid base64 "TOP" "New Item" now) st)
                  (preload (ClothingItem.mk uuid base64 "TOP" "New Item" now) imgs)) /\
         (JSON_parse t = Normal JSNull ->
          onFileLoaded API_KEY generateContent JSON_parse uuid now base64
            (handleFileUpload true st) imgs = Crashed "TypeError" /\
          isProcessing (handleFileUpload true st) = true)))) /\
  (forall e : string,
     onFileLoaded API_KEY generateContent JSON_parse uuid now base64 st imgs
       = Crashed e ->
     e = "TypeError" /\
     (analyzeClothingImage API_KEY generateContent JSON_parse base64 = Normal JSNull \/
      analyzeClothingImage API_KEY generateContent JSON_parse base64
        = Normal JSUndefined)).
Proof.
  split; [|split; [|split; [|split]]]; cycle 4.
  { intros e. unfold onFileLoaded.
    pose proof (analyzeClothingImage_completes API_KEY generateContent JSON_parse base64)
      as Hnever.
    destruct (analyzeClothingImage API_KEY generateContent JSON_parse base64)
      as [analysis|e']; [|destruct Hnever as [value Hv]; discriminate].
    destruct analysis as [| |b|n|str|items|props]; cbn [getProperty];
      try (intros Hc; injection Hc as <-; auto);
      try (destruct (ownProperty props "category") as [| | | |c| |];
           destruct (ownProperty props "name") as [| | | |n'| |]; discriminate);
      discriminate. }
  - intros st' imgs'. unfold onFileLoaded.
    destruct (analyzeClothingImage API_KEY generateContent JSON_parse base64)
      as [analysis|e]; [|discriminate].
    destruct (getProperty analysis "category") as [category|e]; [|discriminate].
    destruct (getProperty analysis "name") as [name|e]; [|discriminate].
    destruct category as [| | | |category| |]; try discriminate;
      destruct name as [| | | |name| |]; try discriminate.
    intros Hland. injection Hland as <- <-.
    exists (ClothingItem.mk uuid base64 category name now).
    pose proof (upload_landed (ClothingItem.mk uuid base64 category name now) st imgs)
      as (Hc & Hq & Ha & Hp & Hi & Ho & Hl).
    simpl in Hi, Ho, Hl. repeat split; assumption.
  - apply onFileLoaded_typed.
  - intros Hkey.
    apply onFileLoaded_typed
      with (analysis := analysisObject (mkAnalysis "TOP" "Unidentified Item" "Unknown"));
      [|reflexivity|reflexivity].
    rewrite analyzeClothingImage_cases, Hkey. reflexivity.
  - intros Hkey. apply String.eqb_neq in Hkey. split.
    + intros e Hcall.
      apply onFileLoaded_typed
        with (analysis := analysisObject (mkAnalysis "TOP" "New Item" "Mixed"));
        [|reflexivity|reflexivity].
      rewrite analyzeClothingImage_cases, Hkey, Hcall. reflexivity.
    + intros response Hcall. split.
      * intros Htext.
        apply onFileLoaded_typed
          with (analysis := analysisObject (mkAnalysis "TOP" "New Item" "Mixed"));
          [|reflexivity|reflexivity].
        rewrite analyzeClothingImage_cases, Hkey, Hcall.
        destruct Htext as [-> | ->]; reflexivity.
      * intros t Htext Ht. destruct t as [|c t]; [congruence|]. split.
        -- intros e Hparse.
           apply onFileLoaded_typed
             with (analysis := analysisObject (mkAnalysis "TOP" "New Item" "Mixed"));
             [|reflexivity|reflexivity].
           rewrite analyzeClothingImage_cases, Hkey, Hcall, Htext, Hparse. reflexivity.
        -- intros Hparse. split; [|reflexivity].
           unfold onFileLoaded.
           rewrite analyzeClothingImage_cases, Hkey, Hcall, Htext, Hparse. reflexivity.
Qed.

(** ** Recording *)

Lemma captureStep_ref (cs : CaptureState) (ev : captureEvent) :
  mediaRecorderRef (captureStep cs ev) = mediaRecorderRef cs.
Proof.
  destruct ev as [canvasRef|data|r]; simpl.
  - unfold toggleRecording. destruct (capturing cs); [reflexivity|].
    destruct canvasRef; reflexivity.
  - unfold ondataavailable. destruct (0 <? Blob.size data)%nat; reflexivity.
  - unfold onstop. destruct (recorders cs !! r); reflexivity.
Qed.

Lemma captureStep_calls (cs : CaptureState) (ev : captureEvent) :
  mediaRecorderRef cs = None ->
  existsb isStop (recorderCalls cs) = false ->
  length (recorderCalls cs) = length (recorders cs) ->
  existsb isStop (recorderCalls (captureStep cs ev)) = false /\
  length (recorderCalls (captureStep cs ev)) = length (recorders (captureStep cs ev)).
Proof.
  intros Href Hstop Hlen.
  destruct ev as [canvasRef|data|r]; simpl.
  - unfold toggleRecording. rewrite Href.
    destruct (capturing cs); simpl; [split; assumption|].
    destruct canvasRef; simpl; [|split; assumption].
    rewrite existsb_app, Hstop, !length_app, Hlen. split; reflexivity.
  - unfold ondataavailable. destruct (0 <? Blob.size data)%nat; simpl; split; assumption.
  - unfold onstop. destruct (recorders cs !! r); simpl; split; assumption.
Qed.

(** X12. From mount, whatever is clicked and whatever the recorders
    deliver, [mediaRecorderRef.current] stays null (nothing assigns it), so
    the component never calls [stop()] on a recorder: every call it makes
    is a [start()], one per recorder created. *)
Theorem recorder_is_never_stopped (evs : list captureEvent) :
  mediaRecorderRef (captureRun captureMount evs) = None /\
  existsb isStop (recorderCalls (captureRun captureMount evs)) = false /\
  length (recorderCalls (captureRun captureMount evs))
    = length (recorders (captureRun captureMount evs)).
Proof.
  unfold captureRun.
  assert (H : forall cs,
             mediaRecorderRef cs = None ->
             existsb isStop (recorderCalls cs) = false ->
             length (recorderCalls cs) = length (recorders cs) ->
             mediaRecorderRef (fold_left captureStep evs cs) = None /\
             existsb isStop (recorderCalls (fold_left captureStep evs cs)) = false /\
             length (recorderCalls (fold_left captureStep evs cs))
               = length (recorders (fold_left captureStep evs cs))).
  { induction evs as [|ev evs IH]; intros cs Href Hstop Hlen; simpl; [auto|].
    destruct (captureStep_calls cs ev Href Hstop Hlen) as [Hstop' Hlen'].
    apply IH; [rewrite captureStep_ref; exact Href|exact Hstop'|exact Hlen']. }
  apply H; reflexivity.
Qed.

Lemma captureStep_recorders (cs : CaptureState) (ev : captureEvent) :
  exists more, recorders (captureStep cs ev) = recorders cs ++ more.
Proof.
  destruct ev as [canvasRef|data|r]; simpl.
  - unfold toggleRecording. destruct (capturing cs); simpl.
    + exists []. rewrite app_nil_r. reflexivity.
    + destruct canvasRef; simpl; [eauto|]. exists []. rewrite app_nil_r. reflexivity.
  - unfold ondataavailable. exists []. rewrite app_nil_r.
    destruct (0 <? Blob.size data)%nat; reflexivity.
  - unfold onstop. exists []. rewrite app_nil_r.
    destruct (recorders cs !! r); reflexivity.
Qed.

Lemma captureRun_recorders (evs : list captureEvent) (cs : CaptureState) :
  exists more, recorders (captureRun cs evs) = recorders cs ++ more.
Proof.
  unfold captureRun. revert cs.
  induction evs as [|ev evs IH]; intros cs; simpl.
  - exists []. rewrite app_nil_r. reflexivity.
  - destruct (captureStep_recorders cs ev) as [m1 H1].
    destruct (IH (captureStep cs ev)) as [m2 H2].
    exists (m1 ++ m2). rewrite H2, H1, app_assoc. reflexivity.
Qed.

(** X13. A recording started while idle offers for download, when its
    recorder stops, exactly the chunks that were in [recordedChunks] when
    the record button was clicked, whatever was delivered in between (its
    [onstop] closure holds that earlier list), and then empties the list. *)
Theorem download_holds_chunks_from_before (cs : CaptureState)
    (evs : list captureEvent) :
  capturing cs = false ->
  downloads (captureRun cs (ClickRecord true :: evs
                              ++ [RecorderStopped (length (recorders cs))]))
  = downloads (captureRun cs (ClickRecord true :: evs)) ++ [recordedChunks cs] /\
  recordedChunks (captureRun cs (ClickRecord true :: evs
                                   ++ [RecorderStopped (length (recorders cs))])) = [].
Proof.
  intros Hidle. unfold captureRun. simpl fold_left at 1 3.
  rewrite !fold_left_app. simpl.
  set (started := toggleRecording true cs).
  assert (Hstarted : recorders started = recorders cs ++ [mkRecorder (recordedChunks cs)]).
  { subst started. unfold toggleRecording. rewrite Hidle. reflexivity. }
  destruct (captureRun_recorders evs started) as [more Hmore].
  unfold captureRun in Hmore.
  unfold onstop. rewrite Hmore, Hstarted, <- app_assoc.
  rewrite lookup_app_r by lia. rewrite Nat.sub_diag. simpl.
  split; reflexivity.
Qed.

(** X14. Delivered chunks are appended to [recordedChunks] in arrival
    order, except those of size 0, which are dropped; delivery alone
    neither downloads anything nor changes the recording flag. *)
Theorem chunks_accumulate_nonempty (blobs : list Blob.t) (cs : CaptureState) :
  recordedChunks (captureRun cs (map DataAvailable blobs))
  = recordedChunks cs ++ List.filter (fun b => (0 <? Blob.size b)%nat) blobs /\
  downloads (captureRun cs (map DataAvailable blobs)) = downloads cs /\
  capturing (captureRun cs (map DataAvailable blobs)) = capturing cs.
Proof.
  unfold captureRun. revert cs.
  induction blobs as [|b blobs IH]; intros cs; simpl.
  - rewrite app_nil_r. repeat split.
  - destruct (IH (ondataavailable b cs)) as (Hc & Hd & Hr).
    rewrite Hc, Hd, Hr. unfold ondataavailable.
    destruct (0 <? Blob.size b)%nat; simpl; [rewrite <- app_assoc|]; repeat split.
Qed.

(** ** The data URL header *)

Lemma dropPrefix_Some (p s r : string) :
  DataUrl.dropPrefix p s = Some r <-> s = (p ++ r)%string.
Proof.
  revert s. induction p as [|a p IH]; intros s; simpl.
  - split; [intros [= ->]; reflexivity|intros ->; reflexivity].
  - destruct s as [|b s]; [split; discriminate|].
    destruct (Ascii.eqb a b) eqn:Hab.
    + apply Ascii.eqb_eq in Hab. subst b. rewrite IH.
      split; [intros ->; reflexivity|intros [= ->]; reflexivity].
    + apply Ascii.eqb_neq in Hab. split; [discriminate|intros [= Heq _]; congruence].
Qed.

Lemma spanMime_spec (s run rest : string) :
  DataUrl.spanMime s = (run, rest) ->
  s = (run ++ rest)%string /\ allMime run = true.
Proof.
  revert run rest. induction s as [|c s IH]; intros run rest; simpl.
  - intros [= <- <-]. split; reflexivity.
  - destruct (DataUrl.mimeChar c) eqn:Hc.
    + destruct (DataUrl.spanMime s) as [run' rest'] eqn:Hs. intros [= <- <-].
      destruct (IH run' rest' eq_refl) as [-> Hall]. simpl. rewrite Hc, Hall.
      split; reflexivity.
    + intros [= <- <-]. split; reflexivity.
Qed.

Lemma spanMime_header (subtype data : string) :
  allMime subtype = true ->
  DataUrl.spanMime (subtype ++ ";base64," ++ data) = (subtype, (";base64," ++ data)%string).
Proof.
  induction subtype as [|c subtype IH]; simpl; intros Hall.
  - reflexivity.
  - apply andb_prop in Hall. destruct Hall as [Hc Hall].
    rewrite Hc, (IH Hall). reflexivity.
Qed.

(** X15. For a data URL [data:image/<subtype>;base64,<data>] whose
    subtype is a non-empty run of letters and [+], the header matches: the
    MIME type sent is [image/<subtype>] and the payload sent is [<data>]. *)
Theorem data_url_header_round_trip (subtype data : string) :
  subtype <> EmptyString -> allMime subtype = true ->
  DataUrl.matchHeader ("data:image/" ++ subtype ++ ";base64," ++ data)
    = Some (("image/" ++ subtype)%string, data) /\
  DataUrl.mimeTypeOf ("data:image/" ++ subtype ++ ";base64," ++ data)
    = ("image/" ++ subtype)%string /\
  DataUrl.base64DataOf ("data:image/" ++ subtype ++ ";base64," ++ data) = data.
Proof.
  intros Hne Hall.
  assert (H : DataUrl.matchHeader ("data:image/" ++ subtype ++ ";base64," ++ data)
              = Some (("image/" ++ subtype)%string, data)).
  { unfold DataUrl.matchHeader.
    change (DataUrl.dropPrefix "data:image/"
              ("data:image/" ++ subtype ++ ";base64," ++ data))
      with (Some (subtype ++ ";base64," ++ data)%string).
    cbv beta iota. rewrite (spanMime_header subtype data Hall).
    destruct subtype; [contradiction|]. reflexivity. }
  unfold DataUrl.mimeTypeOf, DataUrl.base64DataOf. rewrite H. repeat split.
Qed.

(** X16. What is stripped is exactly a header: when the pattern matches,
    the input is [data:<mime>;base64,<data>] with [<mime>] of the form
    [image/<letters and +>]; when it does not (another media type, a
    subtype with a digit, dot or hyphen, no [;base64,]), the MIME type
    falls back to [image/jpeg] and the whole input is sent as payload. *)
Theorem data_url_header_exact (s : string) :
  match DataUrl.matchHeader s with
  | Some (mime, data) =>
      exists subtype,
        mime = ("image/" ++ subtype)%string /\
        subtype <> EmptyString /\ allMime subtype = true /\
        s = ("data:" ++ mime ++ ";base64," ++ data)%string /\
        DataUrl.mimeTypeOf s = mime /\ DataUrl.base64DataOf s = data
  | None =>
      DataUrl.mimeTypeOf s = "image/jpeg" /\ DataUrl.base64DataOf s = s
  end.
Proof.
  unfold DataUrl.mimeTypeOf, DataUrl.base64DataOf.
  destruct (DataUrl.matchHeader s) as [[mime data]|] eqn:Hm; [|split; reflexivity].
  unfold DataUrl.matchHeader in Hm.
  destruct (DataUrl.dropPrefix "data:image/" s) as [afterSlash|] eqn:Hp; [|discriminate].
  apply dropPrefix_Some in Hp.
  destruct (DataUrl.spanMime afterSlash) as [subtype afterType] eqn:Hs.
  apply spanMime_spec in Hs. destruct Hs as [-> Hall].
  destruct subtype as [|c subtype]; [discriminate|].
  destruct (DataUrl.dropPrefix ";base64," afterType) as [d|] eqn:Hb; [|discriminate].
  apply dropPrefix_Some in Hb. injection Hm as <- <-.
  exists (String c subtype). repeat split; try assumption; try discriminate.
  rewrite Hp, Hb. reflexivity.
Qed.

(** ** The further properties on sample data *)

(** A full pose draws the cached shirt; a truncated one throws. *)
Lemma renderLoop_landmark_bounds_witness :
  videoReady Scenario.readyVideo = true /\
  25 <= length Scenario.fullPose /\
  length Scenario.shortPose < 25 /\
  (exists rs',
     renderLoop Scenario.pow Scenario.atan2 (Some Scenario.readyVideo)
       (Some Scenario.wideCanvas) true (Normal [Scenario.fullPose])
       [Scenario.placedShirt] Sample.cacheReady
     = Normal (Some Scenario.wideCanvas, rs')) /\
  renderLoop Scenario.pow Scenario.atan2 (Some Scenario.readyVideo)
    (Some Scenario.wideCanvas) true (Normal [Scenario.shortPose])
    [Scenario.placedShirt] Sample.cacheReady
  = Throw "TypeError".
Proof.
  assert (Hready : videoReady Scenario.readyVideo = true) by reflexivity.
  assert (Hfull : 25 <= length Scenario.fullPose) by (vm_compute; lia).
  assert (Hshort : length Scenario.shortPose < 25) by (vm_compute; lia).
  split; [exact Hready|]. split; [exact Hfull|]. split; [exact Hshort|]. split.
  - destruct (proj1 (renderLoop_landmark_bounds Scenario.pow Scenario.atan2
                       Scenario.readyVideo Scenario.wideCanvas Scenario.fullPose []
                       [Scenario.placedShirt] Sample.cacheReady Hready) Hfull)
      as (bm & _ & Hrun).
    eexists. exact Hrun.
  - exact (proj2 (renderLoop_landmark_bounds Scenario.pow Scenario.atan2
                    Scenario.readyVideo Scenario.wideCanvas Scenario.shortPose []
                    [Scenario.placedShirt] Sample.cacheReady Hready) Hshort).
Defined.

(** A canvas 1280 by 150 under a 1280 by 720 video keeps its height. *)
Lemma syncCanvas_width_only_witness :
  videoReady Scenario.readyVideo = true /\
  syncCanvas Scenario.readyVideo Scenario.wideCanvas = Canvas.mk 1280 150 /\
  syncCanvas Scenario.readyVideo Sample.canvas1000 = Canvas.mk 1280 720.
Proof.
  assert (Hready : videoReady Scenario.readyVideo = true) by reflexivity.
  destruct (syncCanvas_width_only Scenario.readyVideo Scenario.wideCanvas Hready)
    as (_ & Hsame & _).
  destruct (syncCanvas_width_only Scenario.readyVideo Sample.canvas1000 Hready)
    as (_ & _ & Hother).
  split; [exact Hready|]. split.
  - apply Hsame. reflexivity.
  - apply Hother. vm_compute. discriminate.
Defined.

(** A tick that loads the jeans and draws the shirt, from an empty stack. *)
Lemma renderLoop_bracketed_witness :
  exists canvas' rs',
    renderLoop Scenario.pow Scenario.atan2 (Some Scenario.readyVideo)
      (Some Scenario.wideCanvas) true (Normal [Scenario.fullPose])
      [Scenario.placedJeans; Scenario.placedShirt] Sample.cacheReady
    = Normal (canvas', rs') /\
    bracketDepth 0 (effects Sample.cacheReady) = Some 0 /\
    bracketDepth 0 (effects rs') = Some 0.
Proof.
  destruct (renderLoop_with_pose Scenario.pow Scenario.atan2
              Scenario.readyVideo Scenario.wideCanvas Scenario.fullPose []
              [Scenario.placedJeans; Scenario.placedShirt] Sample.cacheReady
              eq_refl)
    as (bm & _ & Hrun); [vm_compute; lia|].
  eexists. eexists. split; [exact Hrun|]. split; [reflexivity|].
  exact (renderLoop_bracketed _ _ _ _ _ _ _ _ _ _ 0 0 Hrun eq_refl).
Defined.

(** The same tick keeps the shirt's cached element. *)
Lemma renderLoop_keeps_cache_witness :
  exists canvas' rs',
    renderLoop Scenario.pow Scenario.atan2 (Some Scenario.readyVideo)
      (Some Scenario.wideCanvas) true (Normal [Scenario.fullPose])
      [Scenario.placedJeans; Scenario.placedShirt] Sample.cacheReady
    = Normal (canvas', rs') /\
    images Sample.cacheReady !! "g1" = Some Sample.shirtImage /\
    images rs' !! "g1" = Some Sample.shirtImage.
Proof.
  destruct (renderLoop_with_pose Scenario.pow Scenario.atan2
              Scenario.readyVideo Scenario.wideCanvas Scenario.fullPose []
              [Scenario.placedJeans; Scenario.placedShirt] Sample.cacheReady
              eq_refl)
    as (bm & _ & Hrun); [vm_compute; lia|].
  assert (Hcached : images Sample.cacheReady !! "g1" = Some Sample.shirtImage)
    by (vm_compute; reflexivity).
  eexists. eexists. split; [exact Hrun|]. split; [exact Hcached|].
  exact (renderLoop_keeps_cache _ _ _ _ _ _ _ _ _ _ "g1" Sample.shirtImage Hrun Hcached).
Defined.

(** Two garments placed, then "+" and "rotate": only the jeans change. *)
Lemma adjustments_keep_identity_witness :
  exists st' item',
    run [UpdateItemTransform 0.1 0 0 0; UpdateItemTransform 0 5 0 0]
      (handleTryOn Sample.staged) = Normal st' /\
    activeItems st' = [Scenario.placedShirt] ++ [item'] /\
    PlacedItem.garment item' = Sample.jeans.
Proof.
  destruct (adjustments_keep_identity
              [UpdateItemTransform 0.1 0 0 0; UpdateItemTransform 0 5 0 0]
              (handleTryOn Sample.staged) eq_refl)
    as (st' & Hrun & _ & _ & _ & _ & Hlast).
  destruct (Hlast [Scenario.placedShirt] Scenario.placedJeans eq_refl)
    as (item' & Hact & Hg).
  exists st', item'. split; [exact Hrun|]. split; [exact Hact|exact Hg].
Defined.

(** After the commit the shirt is removed from the queue and the jeans are
    queued again: both stay placed. *)
Lemma placements_are_a_snapshot_witness :
  exists st',
    run [RemoveFromQueue "g1"; AddFromCloset Sample.jeans; SetMenuOpen true]
      (handleTryOn Sample.staged) = Normal st' /\
    activeItems st' = [Scenario.placedShirt; Scenario.placedJeans].
Proof.
  exact (placements_are_a_snapshot
           [RemoveFromQueue "g1"; AddFromCloset Sample.jeans; SetMenuOpen true]
           Sample.staged eq_refl).
Defined.

(** Try-on, an adjustment and a clear leave the closet alone. *)
Lemma closet_frame_witness :
  exists st',
    run [TryOn; UpdateItemTransform (-0.1) 0 0 0; ClearActive] Sample.staged
      = Normal st' /\
    closet st' = [Sample.jeans; Sample.shirt].
Proof.
  exact (closet_frame [TryOn; UpdateItemTransform (-0.1) 0 0 0; ClearActive]
           Sample.staged eq_refl).
Defined.

(** The first recording after mount: two chunks are delivered, and the
    download holds none. *)
Lemma download_holds_chunks_from_before_witness :
  capturing captureMount = false /\
  downloads
    (captureRun captureMount
       (ClickRecord true
        :: [DataAvailable Scenario.chunkA; DataAvailable Scenario.chunkB]
           ++ [RecorderStopped 0]))
  = [[]].
Proof.
  split; [reflexivity|].
  exact (proj1 (download_holds_chunks_from_before captureMount
                  [DataAvailable Scenario.chunkA; DataAvailable Scenario.chunkB]
                  eq_refl)).
Defined.

(** The shirt's PNG data URL. *)
Lemma data_url_header_round_trip_witness :
  DataUrl.mimeTypeOf (ClothingItem.imageUrl Sample.shirt) = "image/png" /\
  DataUrl.base64DataOf (ClothingItem.imageUrl Sample.shirt) = "c2hpcnQ=".
Proof.
  destruct (data_url_header_round_trip "png" "c2hpcnQ=") as (_ & Hmime & Hdata).
  - discriminate.
  - reflexivity.
  - split; [exact Hmime|exact Hdata].
Defined.

(** With shirt and jeans queued, removing the shirt keeps the jeans. *)
Lemma removeFromQueue_removes_every_copy_witness :
  In Sample.jeans (queue Sample.staged) /\
  ClothingItem.id Sample.jeans <> "g1" /\
  In Sample.jeans (queue (removeFromQueue "g1" Sample.staged)).
Proof.
  assert (Hin : In Sample.jeans (queue Sample.staged)) by (right; left; reflexivity).
  assert (Hne : ClothingItem.id Sample.jeans <> "g1") by discriminate.
  split; [exact Hin|]. split; [exact Hne|].
  exact (proj1 (proj2 (proj2 (removeFromQueue_removes_every_copy "g1" Sample.staged
                                Sample.shirt))) Sample.jeans Hin Hne).
Defined.

(** Three uploads: with no API key; with a key and a response that parses
    to an object; with a key and the response text [null]. *)
Lemma upload_outcome_witness :
  onFileLoaded "" Sample.unreachable Sample.rejectingParser "u-1" 5000
    "data:image/png;base64,c2hpcnQ=" Sample.initial ∅
    = Landed
        (uploadCompleted
           (ClothingItem.mk "u-1" "data:image/png;base64,c2hpcnQ=" "TOP"
              "Unidentified Item" 5000) Sample.initial)
        (preload
           (ClothingItem.mk "u-1" "data:image/png;base64,c2hpcnQ=" "TOP"
              "Unidentified Item" 5000) ∅) /\
  onFileLoaded "k3y" (Sample.answering Sample.gownText) Sample.parser "u-2" 6000
    "data:image/png;base64,ZHJlc3M=" Sample.initial ∅
    = Landed
        (uploadCompleted
           (ClothingItem.mk "u-2" "data:image/png;base64,ZHJlc3M=" "DRESS"
              "Red Gown" 6000) Sample.initial)
        (preload
           (ClothingItem.mk "u-2" "data:image/png;base64,ZHJlc3M=" "DRESS"
              "Red Gown" 6000) ∅) /\
  (onFileLoaded "k3y" (Sample.answering "null") Sample.parser "u-3" 7000
     "data:image/png;base64,c2hpcnQ=" (handleFileUpload true Sample.initial) ∅
     = Crashed "TypeError" /\
   isProcessing (handleFileUpload true Sample.initial) = true).
Proof.
  assert (Hkey : "k3y"%string <> ""%string) by discriminate.
  destruct (upload_outcome "" Sample.unreachable Sample.rejectingParser "u-1" 5000
              "data:image/png;base64,c2hpcnQ=" Sample.initial ∅)
    as (_ & _ & Hnokey & _).
  destruct (upload_outcome "k3y" (Sample.answering Sample.gownText) Sample.parser "u-2"
              6000 "data:image/png;base64,ZHJlc3M=" Sample.initial ∅)
    as (_ & Htyped & _).
  destruct (upload_outcome "k3y" (Sample.answering "null") Sample.parser "u-3" 7000
              "data:image/png;base64,c2hpcnQ=" Sample.initial ∅)
    as (_ & _ & _ & Hkeyed & _).
  split; [exact (Hnokey eq_refl)|]. split.
  - exact (Htyped (JSObject [("category", JSString "DRESS"); ("name", JSString "Red Gown");
                             ("color", JSString "Red")]) "DRESS"%string "Red Gown"%string
             eq_refl eq_refl eq_refl).
  - refine (proj2 (proj2 (proj2 (Hkeyed Hkey) (mkResponse (Some "null"%string)) eq_refl)
                     "null"%string eq_refl _) eq_refl).
    discriminate.
Defined.
